(** * amoco.cas.expressions: a shallow embedding of the expression algebra

    The development follows [src/amoco/cas/expressions.py].  Python
    integers are [Z], Python strings are [string], exceptions are an
    explicit result type.  Expression objects are trees: every node of a
    tree is a distinct object (no two parents share a child object);
    where the source mutates shared objects and a property depends on it
    (constants used as operands, the constructor of conditionals), a
    separate object store is modelled in [Module Store].

    Floating point constants (class [cfp]), evaluation against a mapper
    ([eval], [addr]), pickling and the token renderers are outside the
    model. *)

From Stdlib Require Import ZArith String Ascii List QArith HexadecimalString Lia
  Sorted.
From stdpp Require Import base option list strings pretty gmap.

Open Scope string_scope.
Open Scope Z_scope.

Set Warnings "-register-all".

(** ** Exceptions and results *)

Inductive exc : Set :=
| ValueError | TypeError | AttributeError | AssertionError
| KeyError | IndexError | ZeroDivisionError | NotImplementedError.

(** The outcome of a call: a value, an exception, a recursion that the
    fuel of the model did not cover, or a state that the model does not
    represent (the source goes on with a conditional that contains itself,
    or with [None] where an expression is expected). *)
Inductive res (A : Type) : Type :=
| Ok (a : A)
| Raise (e : exc)
| OutOfFuel
| Outside.
Arguments Ok {A} a.
Arguments Raise {A} e.
Arguments OutOfFuel {A}.
Arguments Outside {A}.

#[global] Instance res_ret : MRet res := fun A a => Ok a.
#[global] Instance res_bind : MBind res := fun A B f m =>
  match m with
  | Ok a => f a
  | Raise e => Raise e
  | OutOfFuel => OutOfFuel
  | Outside => Outside
  end.

(** [assert c] *)
Definition py_assert (c : bool) : res unit :=
  if c then Ok tt else Raise AssertionError.

(** ** Python integer operations that can fail *)

Definition py_lshift (a n : Z) : res Z :=
  if n <? 0 then Raise ValueError else Ok (Z.shiftl a n).

Definition py_rshift (a n : Z) : res Z :=
  if n <? 0 then Raise ValueError else Ok (Z.shiftr a n).

Definition py_floordiv (a b : Z) : res Z :=
  if b =? 0 then Raise ZeroDivisionError else Ok (a / b).

Definition py_mod (a b : Z) : res Z :=
  if b =? 0 then Raise ZeroDivisionError else Ok (a mod b).

(** [int.bit_length()] *)
Definition bit_length (v : Z) : Z :=
  if v =? 0 then 0 else Z.log2 (Z.abs v) + 1.

(** ** Formatting *)

(** ["%d" % n] *)
Definition fmt_d (n : Z) : string := pretty n.

(** ["%+d" % n] *)
Definition fmt_plus_d (n : Z) : string :=
  if n <? 0 then pretty n else "+" +:+ pretty n.

(** ["{:#x}".format(n)] *)
Definition fmt_hex (n : Z) : string :=
  (if n <? 0 then "-0x" else "0x")
  +:+ NilZero.string_of_uint (N.to_hex_uint (Z.to_N (Z.abs n))).

(** [sep.join(l)] *)
Fixpoint join (sep : string) (l : list string) : string :=
  match l with
  | [] => ""
  | [s] => s
  | s :: t => s +:+ sep +:+ join sep t
  end.

(** [a in b] on strings: substring test *)
Definition str_in (a b : string) : bool :=
  match String.index 0 a b with Some _ => true | None => false end.

(** ** Expression types (et_ flags) *)

Definition et_cst : Z := 0x00001.
Definition et_reg : Z := 0x00002.
Definition et_vra : Z := 0x00004.
Definition et_vrb : Z := 0x00008.
Definition et_slc : Z := 0x00100.
Definition et_ext : Z := 0x00200.
Definition et_lab : Z := 0x00400.
Definition et_mem : Z := 0x00800.
Definition et_ptr : Z := 0x01000.
Definition et_tst : Z := 0x02000.
Definition et_eqn : Z := 0x04000.
Definition et_vec : Z := 0x08000.
Definition et_cmp : Z := 0x10000.
Definition et_msk : Z := 0x3FFFF.

(** class regtype *)
Definition regtype_STD : Z := 0x00.
Definition regtype_PC : Z := 0x10.
Definition regtype_FLAGS : Z := 0x20.
Definition regtype_STACK : Z := 0x40.
Definition regtype_OTHER : Z := 0x80.

(** ** Operators *)

Inductive opsym : Set :=
| OP_ADD | OP_MIN | OP_MUL | OP_MUL2 | OP_DIV | OP_MOD
| OP_AND | OP_OR | OP_XOR | OP_NOT
| OP_EQ | OP_NEQ | OP_LE | OP_GE | OP_GEU | OP_LT | OP_LTU | OP_GT
| OP_LSL | OP_LSR | OP_ASR | OP_ROR | OP_ROL.

#[global] Instance opsym_eq_dec : EqDecision opsym.
Proof. solve_decision. Defined.

Definition sym_str (s : opsym) : string :=
  match s with
  | OP_ADD => "+" | OP_MIN => "-" | OP_MUL => "*" | OP_MUL2 => "**"
  | OP_DIV => "/" | OP_MOD => "%"
  | OP_AND => "&" | OP_OR => "|" | OP_XOR => "^" | OP_NOT => "~"
  | OP_EQ => "==" | OP_NEQ => "!=" | OP_LE => "<=" | OP_GE => ">="
  | OP_GEU => ">=." | OP_LT => "<" | OP_LTU => "<." | OP_GT => ">"
  | OP_LSL => "<<" | OP_LSR => ">>" | OP_ASR => ".>>"
  | OP_ROR => ">>>" | OP_ROL => "<<<"
  end.

Definition in_OP_ARITH (s : opsym) : bool :=
  match s with
  | OP_ADD | OP_MIN | OP_MUL | OP_MUL2 | OP_DIV | OP_MOD => true
  | _ => false
  end.

Definition in_OP_LOGIC (s : opsym) : bool :=
  match s with OP_AND | OP_OR | OP_XOR | OP_NOT => true | _ => false end.

Definition in_OP_CONDT (s : opsym) : bool :=
  match s with
  | OP_EQ | OP_NEQ | OP_LE | OP_GE | OP_GEU | OP_LT | OP_LTU | OP_GT => true
  | _ => false
  end.

Definition in_OP_SHIFT (s : opsym) : bool :=
  match s with
  | OP_LSR | OP_LSL | OP_ASR | OP_ROR | OP_ROL => true
  | _ => false
  end.

(** class _operator: [type], [unsigned] and [impl] are functions of the
    symbol and of the [unary] flag. *)
Record operator : Set := Operator { symbol : opsym; unary : bool }.

#[global] Instance operator_eq_dec : EqDecision operator.
Proof. solve_decision. Defined.

(** _operator.__init__ *)
Definition operator_new (op : opsym) (un : bool) : res operator :=
  if in_OP_ARITH op then
    if un then
      match op with
      | OP_ADD | OP_MIN => Ok (Operator op un)
      | _ => Raise KeyError
      end
    else Ok (Operator op un)
  else if in_OP_LOGIC op then
    if un then
      _ ← py_assert (bool_decide (op = OP_NOT)); Ok (Operator op un)
    else Ok (Operator op un)
  else Ok (Operator op un).

Definition op_type (o : operator) : Z :=
  if in_OP_ARITH (symbol o) then 1
  else if in_OP_LOGIC (symbol o) then 2
  else if in_OP_CONDT (symbol o) then 4
  else 8.

Definition op_unsigned (o : operator) : bool :=
  if in_OP_ARITH (symbol o) then false
  else if in_OP_LOGIC (symbol o) then true
  else if in_OP_CONDT (symbol o) then
    match symbol o with OP_GEU | OP_LTU => true | _ => false end
  else false.

(** _operator.__mul__: the composition of two additive signs *)
Definition operator_mul (a b : operator) : option opsym :=
  let ss := sym_str (symbol a) +:+ sym_str (symbol b) in
  if bool_decide (ss = "++") || bool_decide (ss = "--") then Some OP_ADD
  else if bool_decide (ss = "+-") || bool_decide (ss = "-+") then Some OP_MIN
  else None.

(** ** Expressions *)

Inductive regclass : Set := CReg | CExt | CLab.

Definition key : Type := Z * Z.

(** One constructor per class.  [Void] is an instance of the base class
    [exp] (etype 0); [Cst] with a name is a [sym]; [Reg] covers [reg],
    [ext] and [lab].  Every node carries [size] and [sf]. *)
Inductive exp : Type :=
| Top (size : Z) (sf : bool)
| Void (size : Z) (sf : bool)
| Cst (v : Z) (size : Z) (sf : bool) (ref : option string)
| Reg (c : regclass) (ref : string) (size : Z) (sf : bool) (et : Z)
      (subrefs : list (key * string))
| Comp (size : Z) (sf : bool) (smask : list (option key))
       (parts : list (key * exp))
| Mem (a : exp) (size : Z) (sf : bool) (mods : list (exp * exp)) (endian : Z)
| Ptr (base : exp) (disp : Z) (seg : option exp) (size : Z) (sf : bool)
| Slc (x : exp) (pos : Z) (size : Z) (sf : bool) (ref : option string) (et : Z)
| Tst (t l r : exp) (size : Z) (sf : bool)
| Op (o : operator) (l r : exp) (size : Z) (sf : bool) (prop : Z)
| Uop (o : operator) (r : exp) (size : Z) (sf : bool) (prop : Z)
| Vec (l : list exp) (size : Z) (sf : bool)
| Vecw (l : list exp) (size : Z) (sf : bool).

Definition size (e : exp) : Z :=
  match e with
  | Top s _ | Void s _ | Cst _ s _ _ | Reg _ _ s _ _ _ | Comp s _ _ _
  | Mem _ s _ _ _ | Ptr _ _ _ s _ | Slc _ _ s _ _ _ | Tst _ _ _ s _
  | Op _ _ _ s _ _ | Uop _ _ s _ _ | Vec _ s _ | Vecw _ s _ => s
  end.

Definition sf (e : exp) : bool :=
  match e with
  | Top _ b | Void _ b | Cst _ _ b _ | Reg _ _ _ b _ _ | Comp _ b _ _
  | Mem _ _ b _ _ | Ptr _ _ _ _ b | Slc _ _ _ b _ _ | Tst _ _ _ _ b
  | Op _ _ _ _ b _ | Uop _ _ _ b _ | Vec _ _ b | Vecw _ _ b => b
  end.

(** the assignment [e.sf = b] *)
Definition set_sf (b : bool) (e : exp) : exp :=
  match e with
  | Top s _ => Top s b
  | Void s _ => Void s b
  | Cst v s _ r => Cst v s b r
  | Reg c r s _ et sr => Reg c r s b et sr
  | Comp s _ m p => Comp s b m p
  | Mem a s _ m en => Mem a s b m en
  | Ptr ba d sg s _ => Ptr ba d sg s b
  | Slc x p s _ r et => Slc x p s b r et
  | Tst t l r s _ => Tst t l r s b
  | Op o l r s _ p => Op o l r s b p
  | Uop o r s _ p => Uop o r s b p
  | Vec l s _ => Vec l s b
  | Vecw l s _ => Vecw l s b
  end.

Definition etype (e : exp) : Z :=
  match e with
  | Top _ _ => - et_msk - 1
  | Void _ _ => 0
  | Cst _ _ _ _ => et_cst
  | Reg _ _ _ _ et _ => et
  | Comp _ _ _ _ => et_cmp
  | Mem _ _ _ _ _ => et_mem
  | Ptr _ _ _ _ _ => et_ptr
  | Slc _ _ _ _ _ et => et
  | Tst _ _ _ _ _ => et_tst
  | Op _ _ _ _ _ _ | Uop _ _ _ _ _ => et_eqn
  | Vec _ _ _ => et_vec
  | Vecw _ _ _ => Z.lnot (Z.land (Z.lnot et_vec) et_msk)
  end.

(** exp.is_ and the _is_xxx properties, as Python truth values *)
Definition is_ (t : Z) (e : exp) : bool := negb (Z.land t (etype e) =? 0).

Definition _is_def (e : exp) : bool := 0 <? etype e.
Definition _is_top (e : exp) : bool := etype e <? 0.
Definition _is_cst : exp -> bool := is_ et_cst.
Definition _is_reg : exp -> bool := is_ et_reg.
Definition _is_cmp : exp -> bool := is_ et_cmp.
Definition _is_slc : exp -> bool := is_ et_slc.
Definition _is_mem : exp -> bool := is_ et_mem.
Definition _is_ext : exp -> bool := is_ et_ext.
Definition _is_lab : exp -> bool := is_ et_lab.
Definition _is_ptr : exp -> bool := is_ et_ptr.
Definition _is_tst : exp -> bool := is_ et_tst.
Definition _is_eqn : exp -> bool := is_ et_eqn.
Definition _is_vec : exp -> bool := is_ et_vec.

(** top(size), exp(size) *)
Definition top (n : Z) : exp := Top n false.
Definition void (n : Z) : exp := Void n false.

(** exp.mask *)
Definition mask (n : Z) : res Z :=
  m ← py_lshift 1 n; Ok (m - 1).

(** cst.__init__ on an integer *)
Definition cst (v n : Z) : res exp :=
  m ← mask n; Ok (Cst (Z.land v m) n (v <? 0) None).

(** cst.__init__ on True / False *)
Definition cst_bool (b : bool) : exp :=
  Cst (if b then 1 else 0) 1 false None.

Definition bit0 : exp := Cst 0 1 false None.
Definition bit1 : exp := Cst 1 1 false None.

(** cst.value *)
Definition cst_value (v n : Z) (s : bool) : res Z :=
  if s then
    h ← py_rshift v (n - 1);
    if h =? 1 then m ← mask n; Ok (- (Z.lxor v m) - 1) else Ok v
  else Ok v.

(** [e.value] for an expression that tests as a constant *)
Definition value (e : exp) : res Z :=
  match e with
  | Cst v n s _ => cst_value v n s
  | _ => Raise AttributeError
  end.

(** sym.__init__ *)
Definition sym (r : string) (v n : Z) : res exp :=
  m ← mask n; Ok (Cst (Z.land v m) n (v <? 0) (Some r)).

(** reg.__init__ with regtype.cur = None *)
Definition reg (r : string) (n : Z) : exp :=
  Reg CReg r n false (Z.lor et_reg regtype_STD) [].

(** ext.__init__, lab.__init__ (size given) *)
Definition ext (r : string) (n : Z) : exp :=
  Reg CExt r n false (Z.lor (Z.lor et_ext et_reg) regtype_OTHER) [].
Definition lab (r : string) (n : Z) : exp :=
  Reg CLab r n false
      (Z.lor (Z.lor (Z.lor et_ext et_reg) regtype_OTHER) et_lab) [].

(** ** Boolean coercion *)

(** exp.__bool__, cst.__bool__, vec.__bool__ ([vecw] derives from [top]
    and inherits exp.__bool__) *)
Fixpoint py_bool (e : exp) : bool :=
  match e with
  | Cst v n _ _ => (n =? 1) && (v =? 1)
  | Vec l _ _ => forallb py_bool l
  | _ => false
  end.

(** ** Configuration taken from modules that are not part of this file

    [conf.Cas.complexity] (amoco.config) and the [render.icons] table
    (amoco.ui.render) are parameters of the model. *)
Record config : Type := Config {
  cas_complexity : Z;
  icon_op : opsym -> string;
  icon_top : string;
  icon_bot : string;
  icon_dots : string
}.

(** A plain ASCII rendering, used to run the model on examples. *)
Definition ascii_config (threshold : Z) : config :=
  Config threshold sym_str "T" "_" "...".

(** ** Dictionaries with insertion order (Python dict) *)

Section Dict.
Context {V : Type}.

Fixpoint dict_get (k : key) (d : list (key * V)) : option V :=
  match d with
  | [] => None
  | (k', v) :: t => if bool_decide (k = k') then Some v else dict_get k t
  end.

(** [d[k] = v]: update in place, or append a new key *)
Fixpoint dict_set (k : key) (v : V) (d : list (key * V)) : list (key * V) :=
  match d with
  | [] => [(k, v)]
  | (k', v') :: t =>
      if bool_decide (k = k') then (k, v) :: t else (k', v') :: dict_set k v t
  end.

(** the dictionary left by [d.pop(k)] *)
Fixpoint dict_del (k : key) (d : list (key * V)) : list (key * V) :=
  match d with
  | [] => []
  | (k', v') :: t =>
      if bool_decide (k = k') then t else (k', v') :: dict_del k t
  end.

(** [d.pop(k)] *)
Definition dict_pop (k : key) (d : list (key * V)) : res (V * list (key * V)) :=
  match dict_get k d with
  | Some v => Ok (v, dict_del k d)
  | None => Raise KeyError
  end.

Definition dict_keys (d : list (key * V)) : list key := map fst d.
End Dict.

(** [part.sort(key=operator.itemgetter(0))]: a stable sort on the start
    position *)
Fixpoint sort_insert (k : key) (l : list key) : list key :=
  match l with
  | [] => [k]
  | h :: t => if k.1 <=? h.1 then k :: h :: t else h :: sort_insert k t
  end.

Definition sort_keys (l : list key) : list key := foldr sort_insert [] l.

(** ** Floats used by [depth]: rationals and +inf *)

Inductive pyfloat : Set := Fin (q : Q) | Inf.

Definition fadd (a b : pyfloat) : pyfloat :=
  match a, b with Fin x, Fin y => Fin (x + y)%Q | _, _ => Inf end.

Definition fscale (k : Q) (a : pyfloat) : pyfloat :=
  match a with Fin x => Fin (k * x)%Q | Inf => Inf end.

Definition fmax (a b : pyfloat) : pyfloat :=
  match a, b with
  | Fin x, Fin y => if Qle_bool x y then Fin y else Fin x
  | _, _ => Inf
  end.

(** [a > t] for an integer [t] *)
Definition fgt (a : pyfloat) (t : Z) : bool :=
  match a with Fin x => negb (Qle_bool x (inject_Z t)) | Inf => true end.

(** ** Attribute access *)

Definition get_prop (e : exp) : res Z :=
  match e with
  | Op _ _ _ _ _ p | Uop _ _ _ _ p => Ok p
  | _ => Raise AttributeError
  end.

Definition get_op (e : exp) : res operator :=
  match e with
  | Op o _ _ _ _ _ | Uop o _ _ _ _ => Ok o
  | _ => Raise AttributeError
  end.

(** The order in which [symbols_of] tests the flags of an etype. *)
Inductive kind : Set :=
| KCst | KReg | KMem | KPtr | KEqn | KTst | KSlc | KCmp | KVec | KUndef | KOther.

Definition kind_of_et (et : Z) : kind :=
  let has f := negb (Z.land f et =? 0) in
  if has et_cst then KCst else if has et_reg then KReg
  else if has et_mem then KMem else if has et_ptr then KPtr
  else if has et_eqn then KEqn else if has et_tst then KTst
  else if has et_slc then KSlc else if has et_cmp then KCmp
  else if has et_vec then KVec
  else if 0 <? et then KOther else KUndef.

Section Printing.
Variable cfg : config.

(** ptr.disp_tostring (integer displacement, base10) *)
Definition disp_tostring (d : Z) : string :=
  if d =? 0 then "" else fmt_plus_d d.

(** comp.__iter__ run by comp.__unicode__: [strs] holds, for every key
    in dictionary order, the size and the printed form of its part *)
Fixpoint comp_unicode_loop (strs : list (key * (Z * res string)))
         (part : list key) (cur_iter cur : Z) : res string :=
  match part with
  | [] => Ok ""
  | p :: rest =>
      _ ← py_assert (p.1 =? cur_iter);
      match dict_get p strs with
      | None => Raise KeyError
      | Some (n, rs) =>
          s ← rs;
          t ← comp_unicode_loop strs rest p.2 (cur + n);
          Ok (" [" +:+ fmt_d cur +:+ ":" +:+ fmt_d (cur + n) +:+ "]->"
              +:+ s +:+ " |" +:+ t)
      end
  end.

(** __unicode__ / __str__ of every class *)
Fixpoint str (e : exp) : res string :=
  let strs := fix go (l : list exp) : res (list string) :=
    match l with
    | [] => Ok []
    | x :: t => s ← str x; r ← go t; Ok (s :: r)
    end in
  match e with
  | Top n _ => Ok (icon_top cfg +:+ fmt_d n)
  | Void n _ => Ok (icon_bot cfg +:+ fmt_d n)
  | Cst v n s None => x ← cst_value v n s; Ok (fmt_hex x)
  | Cst _ _ _ (Some r) => Ok ("#" +:+ r)
  | Reg CReg r _ _ _ _ => Ok r
  | Reg _ r _ _ _ _ => Ok ("@" +:+ r)
  | Comp _ _ _ parts =>
      let ps := (fix go (l : list (key * exp)) :=
        match l with
        | [] => []
        | (k, p) :: t => (k, (size p, str p)) :: go t
        end) parts in
      s ← comp_unicode_loop ps (sort_keys (dict_keys parts)) 0 0;
      Ok ("{ |" +:+ s +:+ " }")
  | Mem a n _ mods _ =>
      let k := Z.of_nat (length mods) in
      sa ← str a;
      Ok ("M" +:+ fmt_d n +:+ (if 0 <? k then "$" +:+ fmt_d k else "")
          +:+ sa)
  | Ptr base d seg _ _ =>
      sseg ← match seg with None => Ok "" | Some g => str g end;
      sb ← str base;
      Ok (sseg +:+ "(" +:+ sb +:+ disp_tostring d +:+ ")")
  | Slc x pos n _ r _ =>
      match r with
      | Some (String a b) => Ok (String a b)
      | _ =>
          sx ← str x;
          Ok (sx +:+ "[" +:+ fmt_d pos +:+ ":" +:+ fmt_d (pos + n) +:+ "]")
      end
  | Tst t l r _ _ =>
      st ← str t; sl ← str l; sr ← str r;
      Ok ("(" +:+ st +:+ " ? " +:+ sl +:+ " : " +:+ sr +:+ ")")
  | Op o l r _ _ _ =>
      sl ← str l; sr ← str r;
      Ok ("(" +:+ sl +:+ icon_op cfg (symbol o) +:+ sr +:+ ")")
  | Uop o r _ _ _ =>
      sr ← str r; Ok ("(" +:+ icon_op cfg (symbol o) +:+ sr +:+ ")")
  | Vec l _ _ => ss ← strs l; Ok ("[" +:+ join "," ss +:+ "]")
  | Vecw l _ _ =>
      ss ← strs l; Ok ("[" +:+ join "," ss +:+ ", " +:+ icon_dots cfg +:+ "]")
  end.

(** slc.raw *)
Definition slc_raw (x : exp) (pos n : Z) : res string :=
  sx ← str x;
  Ok (sx +:+ "[" +:+ fmt_d pos +:+ ":" +:+ fmt_d (pos + n) +:+ "]").

(** exp.__hash__ and slc.__hash__.  Python's hash of a string is taken
    to be injective: [hash(s) + n] is represented by the pair [(s, n)],
    and two hashes are equal when both components are. *)
Definition py_hash (e : exp) : res (string * Z) :=
  match e with
  | Slc x pos n _ _ _ => s ← slc_raw x pos n; Ok (s, 0)
  | _ => s ← str e; Ok (s, size e)
  end.

Definition hash_eq (a b : exp) : res bool :=
  ha ← py_hash a; hb ← py_hash b; Ok (bool_decide (ha = hb)).
End Printing.

(** ** symbols_of, depth, complexity *)

Fixpoint symbols_of (e : exp) : res (list exp) :=
  let all := fix go (l : list exp) : res (list exp) :=
    match l with
    | [] => Ok []
    | x :: t => s ← symbols_of x; r ← go t; Ok (s ++ r)%list
    end in
  match e with
  | Top _ _ | Void _ _ | Cst _ _ _ _ => Ok []
  | Reg _ _ _ _ et _ =>
      match kind_of_et et with
      | KCst | KUndef => Ok []
      | KReg => Ok [e]
      | KOther => Raise ValueError
      | _ => Raise AttributeError
      end
  | Mem (Ptr base _ _ _ _) _ _ _ _ => symbols_of base
  | Mem _ _ _ _ _ => Raise AttributeError
  | Ptr base _ _ _ _ => symbols_of base
  | Op _ l r _ _ _ => a ← symbols_of l; b ← symbols_of r; Ok (a ++ b)%list
  | Uop _ r _ _ _ => symbols_of r
  | Tst t l r _ _ =>
      a ← symbols_of t; b ← symbols_of l; c ← symbols_of r; Ok (a ++ b ++ c)%list
  | Slc x _ _ _ _ et =>
      match kind_of_et et with
      | KCst | KUndef => Ok []
      | KReg => Ok [e]
      | KSlc => symbols_of x
      | KOther => Raise ValueError
      | _ => Raise AttributeError
      end
  | Comp _ _ _ parts =>
      (fix go (l : list (key * exp)) : res (list exp) :=
         match l with
         | [] => Ok []
         | (_, p) :: t => s ← symbols_of p; r ← go t; Ok (s ++ r)%list
         end) parts
  | Vec l _ _ | Vecw l _ _ => all l
  end.

(** comp.__iter__ run by comp.depth *)
Fixpoint comp_depth_loop (ds : list (key * res pyfloat)) (part : list key)
         (cur : Z) (acc : pyfloat) : res pyfloat :=
  match part with
  | [] => Ok acc
  | p :: rest =>
      _ ← py_assert (p.1 =? cur);
      match dict_get p ds with
      | None => Raise KeyError
      | Some rd => d ← rd; comp_depth_loop ds rest p.2 (fadd acc d)
      end
  end.

Fixpoint depth (e : exp) : res pyfloat :=
  match e with
  | Top _ _ | Vecw _ _ _ => Ok Inf
  | Void _ _ | Cst _ _ _ _ | Reg _ _ _ _ _ _ | Mem _ _ _ _ _
  | Ptr _ _ _ _ _ => Ok (Fin 1)
  | Comp _ _ _ parts =>
      let ds := (fix go (l : list (key * exp)) :=
        match l with
        | [] => []
        | (k, p) :: t => (k, depth p) :: go t
        end) parts in
      comp_depth_loop ds (sort_keys (dict_keys parts)) 0 (Fin 0)
  | Slc x _ _ _ _ _ => d ← depth x; Ok (fscale 2 d)
  | Tst t l r _ _ =>
      a ← depth t; b ← depth l; c ← depth r;
      Ok (fscale (1 # 3) (fadd (fadd a b) c))
  | Op _ l r _ _ _ => a ← depth l; b ← depth r; Ok (fadd a b)
  | Uop _ r _ _ _ => depth r
  | Vec l n _ =>
      if n =? 0 then Ok (Fin 0)
      else
        match l with
        | [] => Raise ValueError
        | x :: t =>
            d ← depth x;
            m ← (fix go (l : list exp) (acc : pyfloat) : res pyfloat :=
                   match l with
                   | [] => Ok acc
                   | y :: u => dy ← depth y; go u (fmax acc dy)
                   end) t d;
            Ok (fscale (inject_Z (Z.of_nat (length l))) m)
        end
  end.

(** complexity(e) *)
Definition complexity (e : exp) : res pyfloat :=
  factor ← (if _is_eqn e then get_prop e else Ok 1);
  d ← depth e;
  s ← symbols_of e;
  Ok (fscale (inject_Z factor)
             (fadd d (Fin (inject_Z (Z.of_nat (length s)))))).

(** ** Slices and keyword arguments *)

(** ** kargs of simplify: only [bitslice] and [widening] are ever read,
    both default to False *)
Record kargs : Set := Kargs { bitslice : bool; widening : bool }.
Definition no_kargs : kargs := Kargs false false.

(** a Python [slice] object; [ANotSlice] is any other index *)
Record pyslice : Set :=
  Slice { start : option Z; stop : option Z; step : option Z }.
Inductive pyarg : Set := ASlice (i : pyslice) | ANotSlice.

(** the index [a:b] *)
Definition slice_of (a b : Z) : pyarg := ASlice (Slice (Some a) (Some b) None).

(** [o or d] for an optional integer *)
Definition or_else (o : option Z) (d : Z) : Z :=
  match o with
  | None | Some 0 => d
  | Some x => x
  end.

(** decorator _checkarg_slice *)
Definition checkarg_slice {R : Type} (f : exp -> pyslice -> res R)
           (self : exp) (i : pyarg) : res R :=
  match i with
  | ANotSlice => Raise TypeError
  | ASlice s =>
      match step s with
      | Some _ => Raise ValueError
      | None =>
          match start s with
          | None => Raise TypeError
          | Some a =>
              if a <? 0 then Raise ValueError
              else
                match stop s with
                | None => Raise TypeError
                | Some b =>
                    if size self <? b then Raise ValueError
                    else if b <=? a then Raise ValueError
                    else f self s
                end
          end
      end
  end.

(** decorator _checkarg_sizes *)
Definition checkarg_sizes {R : Type} (f : exp -> exp -> res R)
           (self n : exp) : res R :=
  if negb (size self =? size n) && ((0 <? size self) && (0 <? size n))
  then Raise ValueError
  else f self n.

(** ** Python list slices (list [smask] of a composite) *)

(** a slice bound clipped to the length of the list *)
Definition clip (len i : Z) : nat :=
  Z.to_nat (if i <? 0 then Z.max 0 (i + len) else Z.min i len).

(** [l[a:b]] *)
Definition list_slice {A : Type} (l : list A) (a b : Z) : list A :=
  let len := Z.of_nat (length l) in
  let a' := clip len a in
  let b' := clip len b in
  take (b' - a')%nat (drop a' l).

(** the list after [l[a:b] = new] *)
Definition list_set_slice {A : Type} (l : list A) (a b : Z) (new : list A)
  : list A :=
  let len := Z.of_nat (length l) in
  let a' := clip len a in
  let b' := Nat.max a' (clip len b) in
  (take a' l ++ new ++ drop b' l)%list.

(** [[x] * n] *)
Definition list_repeat {A : Type} (x : A) (n : Z) : list A :=
  replicate (Z.to_nat n) x.

(** ** Composite: the parts that do not call back into other classes *)

(** comp.__init__ *)
Definition comp (s : Z) : exp := Comp s false (list_repeat None s) [].

(** comp.restruct: the constant that replaces two adjacent constants,
    [na] below [nb] *)
Definition merge_cst (na nb : exp) : res exp :=
  match na, nb with
  | Cst va sa _ _, Cst vb _ _ _ =>
      sh ← py_lshift vb sa;
      cst (Z.lor sh va) (size na + size nb)
  | _, _ => Raise AttributeError
  end.

(** the loop of comp.restruct: the first pair of consecutive keys that is
    merged, with the merged part *)
Fixpoint restruct_scan (parts : list (key * exp)) (part : list key)
  : res (option (key * key * exp)) :=
  match part with
  | ra :: ((rb :: _) as rest) =>
      if ra.2 =? rb.1 then
        match dict_get ra parts, dict_get rb parts with
        | Some na, Some nb =>
            if _is_cst na && _is_cst nb then
              c ← merge_cst na nb; Ok (Some (ra, rb, c))
            else if negb (_is_def na || _is_def nb) then
              Ok (Some (ra, rb, top (rb.2 - ra.1)))
            else restruct_scan parts rest
        | _, _ => Raise KeyError
        end
      else restruct_scan parts rest
  | _ => Ok None
  end.

(** comp.restruct on the fields [smask] and [parts]; the recursion of the
    source is bounded by [fuel] *)
Fixpoint restruct (fuel : nat) (smask : list (option key))
         (parts : list (key * exp))
  : res (list (option key) * list (key * exp)) :=
  found ← restruct_scan parts (sort_keys (dict_keys parts));
  match found with
  | None => Ok (smask, parts)
  | Some (ra, rb, n) =>
      let k := (ra.1, rb.2) in
      let parts1 := dict_del rb (dict_del ra (dict_set k n parts)) in
      let smask1 :=
        list_set_slice smask ra.1 rb.2 (list_repeat (Some k) (rb.2 - ra.1)) in
      match fuel with
      | O => OutOfFuel
      | S fuel' => restruct fuel' smask1 parts1
      end
  end.

(** the recursion depth that comp.restruct can need *)
Definition restruct_fuel (parts : list (key * exp)) : nat := length parts.

(** comp.restruct as a method: the composite after the call *)
Definition comp_restruct (c : exp) : res exp :=
  match c with
  | Comp n s smask parts =>
      '(smask', parts') ← restruct (restruct_fuel parts) smask parts;
      Ok (Comp n s smask' parts')
  | _ => Raise AttributeError
  end.

(** comp.copy *)
Definition comp_copy (c : exp) : res exp :=
  match c with
  | Comp n s smask parts => Ok (Comp n s smask parts)
  | _ => Raise AttributeError
  end.

(** ** The engine: the methods that call one another

    [simplify], [__getitem__] and [__setitem__] are mutually recursive
    through most classes.  The recursive calls go through a record of
    entry points, which [engine_at] below ties with a fuel. *)

(** [r_simplify] returns the value returned by [e.simplify()] and
    the attribute [e.op] of the receiver after the call (the source
    rewrites the receiver in place, and extract_offset reads that
    attribute), [None] when the class of [e] has no such attribute.
    [r_setitem] returns the receiver after [self[i] = v]. *)
Record engine : Type := Engine {
  r_simplify : kargs -> exp -> res (exp * option operator);
  r_getitem : exp -> pyarg -> res exp;
  r_setitem : exp -> pyarg -> exp -> res exp
}.

(** the methods behind Python's binary operators *)
Inductive dunder : Set :=
| D_add | D_sub | D_mul | D_pow | D_truediv | D_mod | D_floordiv
| D_and | D_or | D_xor | D_lshift | D_rshift
| D_eq | D_ne | D_lt | D_le | D_ge | D_gt.

(** the operator symbol that the method of class exp builds *)
Definition dunder_sym (d : dunder) : opsym :=
  match d with
  | D_add => OP_ADD | D_sub => OP_MIN | D_mul => OP_MUL | D_pow => OP_MUL2
  | D_truediv => OP_DIV | D_mod => OP_MOD | D_floordiv => OP_ASR
  | D_and => OP_AND | D_or => OP_OR | D_xor => OP_XOR
  | D_lshift => OP_LSL | D_rshift => OP_LSR
  | D_eq => OP_EQ | D_ne => OP_NEQ | D_lt => OP_LT | D_le => OP_LE
  | D_ge => OP_GE | D_gt => OP_GT
  end.

(** the methods of cst that are wrapped by _checkarg_sizes *)
Definition dunder_checks_sizes (d : dunder) : bool :=
  match d with
  | D_truediv | D_mod | D_floordiv | D_lshift | D_rshift => false
  | _ => true
  end.

Definition get_x (e : exp) : res exp :=
  match e with Slc x _ _ _ _ _ => Ok x | _ => Raise AttributeError end.

Definition get_pos (e : exp) : res Z :=
  match e with Slc _ p _ _ _ _ => Ok p | _ => Raise AttributeError end.

Definition get_v (e : exp) : res Z :=
  match e with Cst v _ _ _ => Ok v | _ => Raise AttributeError end.

(** the assignment to [self.sf] that opens cst.__rshift__ (logical shift)
    and cst.__floordiv__ (arithmetic shift) *)
Definition dunder_set_sf (d : dunder) (self : exp) : exp :=
  match d with
  | D_rshift => set_sf false self
  | D_floordiv => set_sf true self
  | _ => self
  end.

(** the constant returned by a binary method of cst when [n._is_cst] *)
Definition cst_compute (d : dunder) (self n : exp) : res exp :=
  match self with
  | Cst v sz _ _ =>
      match d with
      | D_add => a ← value self; b ← value n; cst (a + b) sz
      | D_sub => a ← value self; b ← value n; cst (a - b) sz
      | D_mul => a ← value self; b ← value n; cst (a * b) sz
      | D_pow => a ← value self; b ← value n; cst (a * b) (2 * sz)
      | D_truediv =>
          a ← value self; b ← value n; q ← py_floordiv a b; cst q sz
      | D_mod => a ← value self; b ← value n; q ← py_mod a b; cst q sz
      | D_and => w ← get_v n; cst (Z.land v w) sz
      | D_or => w ← get_v n; cst (Z.lor v w) sz
      | D_xor => w ← get_v n; cst (Z.lxor v w) sz
      | D_lshift =>
          a ← value self; b ← value n; q ← py_lshift a b; cst q sz
      | D_rshift | D_floordiv =>
          a ← value self; b ← value n; q ← py_rshift a b; cst q sz
      | D_eq => w ← get_v n; Ok (cst_bool (v =? w))
      | D_ne => w ← get_v n; Ok (cst_bool (negb (v =? w)))
      | D_lt => a ← value self; b ← value n; Ok (cst_bool (a <? b))
      | D_le => a ← value self; b ← value n; Ok (cst_bool (a <=? b))
      | D_ge => a ← value self; b ← value n; Ok (cst_bool (b <=? a))
      | D_gt => a ← value self; b ← value n; Ok (cst_bool (b <? a))
      end
  | _ => Raise AttributeError
  end.

(** op.__init__ *)
Definition op_new (s : opsym) (l r : exp) : res exp :=
  o ← operator_new s false;
  let prop := op_type o in
  _ ← (if (prop <? 4) && negb (size l =? size r)
       then Raise ValueError else Ok tt);
  let n := if prop =? 4 then 1
           else if bool_decide (symbol o = OP_MUL2) then size l * 2
           else size l in
  let s_ := if prop =? 1 then sf l || sf r else sf l in
  pl ← (if _is_eqn l then p ← get_prop l; Ok (Z.lor prop p) else Ok prop);
  pr ← (if _is_eqn r then p ← get_prop r; Ok (Z.lor pl p) else Ok pl);
  Ok (Op o l r n s_ pr).

(** uop.__init__ *)
Definition uop_new (s : opsym) (r : exp) : res exp :=
  o ← operator_new s true;
  let prop := op_type o in
  pr ← (if _is_eqn r then p ← get_prop r; Ok (Z.lor prop p) else Ok prop);
  Ok (Uop o r (size r) (sf r) pr).

(** vec.__init__ *)
Definition vec_new (l : list exp) : res exp :=
  let n := foldl (fun acc e => if acc <? size e then size e else acc) 0 l in
  if existsb (fun e => negb (size e =? n)) l then Raise ValueError
  else Ok (Vec l n (existsb sf l)).

(** vecw.__init__, on a vector *)
Definition vecw_new (v : exp) : res exp :=
  match v with
  | Vec l n _ => Ok (Vecw l n false)
  | _ => Outside
  end.

(** tst.__init__ *)
Definition tst_init (t l r : exp) : res exp :=
  if negb (size l =? size r) then Raise ValueError
  else Ok (Tst t l r (size l) false).

(** tst(t, l, r) for an expression [t]: tst.__new__, then tst.__init__
    when the object returned by __new__ is an instance of tst.  When
    __new__ returns a branch that is itself a conditional, Python runs
    __init__ on that branch, which then holds itself as its field [l]
    or [r]. *)
Definition tst_new (t l r : exp) : res exp :=
  let existing (x : exp) : res exp :=
    match x with
    | Tst _ _ _ _ _ => _ ← tst_init t l r; Outside
    | _ => Ok x
    end in
  if _is_cst t && (size t =? 1) then
    v ← value t;
    if v =? 1 then existing l
    else if v =? 0 then existing r
    else tst_init t l r
  else tst_init t l r.

(** the keys met in [smask[start:stop]], without None, each once, in
    order *)
Fixpoint maskset_of (l : list (option key)) (acc : list key) : list key :=
  match l with
  | [] => acc
  | None :: t => maskset_of t acc
  | Some k :: t =>
      if bool_decide (k ∈ acc) then maskset_of t acc
      else maskset_of t (acc ++ [k])%list
  end.

(** [l[i]] *)
Definition list_index {A : Type} (l : list A) (i : Z) : res A :=
  let j := if i <? 0 then i + Z.of_nat (length l) else i in
  if j <? 0 then Raise IndexError
  else match l !! Z.to_nat j with
       | Some x => Ok x
       | None => Raise IndexError
       end.

Section Engine.
Variable cfg : config.
Variable E : engine.

Definition simp (k : kargs) (e : exp) : res exp :=
  '(x, _) ← r_simplify E k e; Ok x.

(** oper(opsym, l, r) and oper(opsym, l) *)
Definition oper (s : opsym) (l r : exp) : res exp :=
  e ← op_new s l r; simp no_kargs e.

Definition oper1 (s : opsym) (l : exp) : res exp :=
  e ← uop_new s l; simp no_kargs e.

(** the binary methods of class exp *)
Definition exp_dunder (d : dunder) (self n : exp) : res exp :=
  match d with
  | D_eq | D_le | D_ge =>
      h ← hash_eq cfg self n;
      if h : bool then Ok bit1 else oper (dunder_sym d) self n
  | D_ne | D_lt | D_gt =>
      h ← hash_eq cfg self n;
      if h : bool then Ok bit0 else oper (dunder_sym d) self n
  | _ => oper (dunder_sym d) self n
  end.

(** the binary methods of class cst; the second component is the
    receiver after the call *)
Definition cst_dunder (d : dunder) (self n : exp) : res (exp * exp) :=
  match self with
  | Cst _ _ _ _ =>
      _ ← (if dunder_checks_sizes d
           then checkarg_sizes (fun _ _ => Ok tt) self n else Ok tt);
      let self' := dunder_set_sf d self in
      if _is_cst n then r ← cst_compute d self' n; Ok (r, self')
      else r ← exp_dunder d self' n; Ok (r, self')
  | _ => Raise AttributeError
  end.

(** [l op r] for two expressions: dispatch on the class of [l].  Class
    sym inherits the methods of cst, but sets [__eq__ = exp.__eq__]. *)
Definition py_dunder2 (d : dunder) (l r : exp) : res (exp * exp) :=
  match l, d with
  | Cst _ _ _ (Some _), D_eq => x ← exp_dunder d l r; Ok (x, l)
  | Cst _ _ _ _, _ => cst_dunder d l r
  | _, _ => x ← exp_dunder d l r; Ok (x, l)
  end.

Definition py_dunder (d : dunder) (l r : exp) : res exp :=
  '(x, _) ← py_dunder2 d l r; Ok x.

(** [-e], [~e] *)
Definition py_neg (e : exp) : res exp :=
  match e with
  | Cst v sz s _ => a ← cst_value v sz s; cst (- a) sz
  | _ => oper1 OP_MIN e
  end.

Definition py_invert (e : exp) : res exp :=
  match e with
  | Cst v sz _ _ => m ← mask sz; cst (Z.land (Z.lnot v) m) sz
  | _ => oper1 OP_NOT e
  end.

(** [k - n] for a Python integer [k]: the reflected method __rsub__ *)
Definition py_rsub_int (k : Z) (n : exp) : res exp :=
  c ← cst k (size n);
  match n with
  | Cst _ _ _ _ => py_dunder D_sub c n
  | _ => oper OP_MIN c n
  end.

(** ror(x, n), rol(x, n) *)
Definition ror (x n : exp) : res exp :=
  if _is_cst x then
    '(a, x') ← py_dunder2 D_rshift x n;
    k ← py_rsub_int (size x') n;
    b ← py_dunder D_lshift x' k;
    py_dunder D_or a b
  else op_new OP_ROR x n.

Definition rol (x n : exp) : res exp :=
  if _is_cst x then
    '(a, x') ← py_dunder2 D_lshift x n;
    k ← py_rsub_int (size x') n;
    b ← py_dunder D_rshift x' k;
    py_dunder D_or a b
  else op_new OP_ROL x n.

(** ltu(x, y), geu(x, y) *)
Definition unsigned_cmp (s : opsym) (d : dunder) (x y : exp) : res exp :=
  let signed_compare := py_dunder d (set_sf true x) (set_sf true y) in
  if negb (_is_cst x && _is_cst y) then
    match op_new s x y with
    | Raise AttributeError => signed_compare
    | r => r
    end
  else signed_compare.

Definition ltu : exp -> exp -> res exp := unsigned_cmp OP_LTU D_lt.
Definition geu : exp -> exp -> res exp := unsigned_cmp OP_GEU D_ge.

(** the tables OP_ARITH, OP_LOGIC, OP_CONDT, OP_SHIFT applied to two
    operands *)
Definition op_table2 (s : opsym) (l r : exp) : res exp :=
  match s with
  | OP_ADD => py_dunder D_add l r
  | OP_MIN => py_dunder D_sub l r
  | OP_MUL => py_dunder D_mul l r
  | OP_MUL2 => py_dunder D_pow l r
  | OP_DIV => py_dunder D_truediv l r
  | OP_MOD => py_dunder D_mod l r
  | OP_AND => py_dunder D_and l r
  | OP_OR => py_dunder D_or l r
  | OP_XOR => py_dunder D_xor l r
  | OP_NOT => Raise TypeError
  | OP_EQ => py_dunder D_eq l r
  | OP_NEQ => py_dunder D_ne l r
  | OP_LE => py_dunder D_le l r
  | OP_GE => py_dunder D_ge l r
  | OP_GEU => geu l r
  | OP_LT => py_dunder D_lt l r
  | OP_LTU => ltu l r
  | OP_GT => py_dunder D_gt l r
  | OP_LSR => py_dunder D_rshift l r
  | OP_LSL => py_dunder D_lshift l r
  | OP_ASR => py_dunder D_floordiv l r
  | OP_ROR => ror l r
  | OP_ROL => rol l r
  end.

(** _operator.__call__(l, r) *)
Definition operator_call2 (o : operator) (l r : exp) : res exp :=
  let l' := if op_unsigned o then set_sf false l else l in
  let r' := if op_unsigned o then set_sf false r else r in
  if unary o && in_OP_ARITH (symbol o) then Raise TypeError
  else op_table2 (symbol o) l' r'.

(** _operator.__call__(l) *)
Definition operator_call1 (o : operator) (l : exp) : res exp :=
  _ ← py_assert (unary o);
  match symbol o with
  | OP_ADD => Ok l
  | OP_MIN => py_neg l
  | OP_NOT => py_invert l
  | _ => Raise TypeError
  end.

(** *** Slices *)

Definition get_subrefs (e : exp) : res (list (key * string)) :=
  match e with
  | Reg _ _ _ _ _ sr => Ok sr
  | _ => Raise AttributeError
  end.

Definition set_subref (e : exp) (k : key) (r : string) : exp :=
  match e with
  | Reg c n s b et sr => Reg c n s b et (dict_set k r sr)
  | _ => e
  end.

(** slc.__init__ with slc.setref *)
Definition slc_new (x : exp) (pos n : Z) (ref : option string) : res exp :=
  let s := sf x in
  '(x1, pos1) ← match x with
                | Slc _ _ _ _ _ _ =>
                    r ← r_getitem E x (slice_of pos (pos + n));
                    x' ← get_x r; p' ← get_pos r; Ok (x', p')
                | _ => Ok (x, pos)
                end;
  if _is_reg x1 then
    sr ← get_subrefs x1;
    let et := Z.lor et_slc (etype x1) in
    match ref with
    | None => Ok (Slc x1 pos1 n s (dict_get (pos1, n) sr) et)
    | Some r => Ok (Slc (set_subref x1 (pos1, n) r) pos1 n s (Some r) et)
    end
  else Ok (Slc x1 pos1 n s ref et_slc).

(** slicer(x, pos, size) *)
Definition slicer (x : exp) (pos n : Z) : res exp :=
  if negb (_is_def x) then Ok (top n)
  else if (pos =? 0) && (n =? size x) then Ok x
  else if _is_mem x || _is_cmp x then
    r ← r_getitem E x (slice_of pos (pos + n));
    Ok (set_sf (sf x) r)
  else slc_new x pos n None.

(** *** Pointers and memory *)

(** extract_offset(e) *)
Definition extract_offset (e : exp) : res (exp * Z) :=
  '(x0, e_op) ← r_simplify E no_kargs e;
  let x := set_sf false x0 in
  let signed_offset (xl : res exp) (xr : exp) : res (exp * Z) :=
    match e_op with
    | None => Raise AttributeError
    | Some o =>
        match symbol o with
        | OP_ADD => v ← value xr; l ← xl; Ok (l, v)
        | OP_MIN => v ← value xr; l ← xl; Ok (l, - v)
        | _ => Ok (x, 0)
        end
    end in
  if _is_eqn x then
    match x with
    | Op _ xl xr _ _ _ =>
        if _is_cst xr then signed_offset (Ok xl) xr else Ok (x, 0)
    | Uop _ xr _ _ _ =>
        if _is_cst xr then signed_offset Outside xr else Ok (x, 0)
    | _ => Raise AttributeError
    end
  else Ok (x, 0).

(** ptr.__init__ *)
Definition ptr_new (base : exp) (seg : option exp) (disp : Z) : res exp :=
  '(base1, seg1, disp1) ←
    (if _is_ptr base then
       match base with
       | Ptr b d sg _ _ =>
           Ok (b, match seg with None => sg | Some _ => seg end, d + disp)
       | _ => Raise AttributeError
       end
     else Ok (base, seg, disp));
  '(b, offset) ← extract_offset base1;
  Ok (Ptr b (disp1 + offset) seg1 (size base1) false).

(** mem.__init__ *)
Definition mem_new (a : exp) (n : Z) (seg : option exp) (disp : Z)
           (mods : list (exp * exp)) (endian : Z) : res exp :=
  p ← ptr_new a seg disp; Ok (Mem p n false mods endian).

(** *** __getitem__ of every class, under _checkarg_slice *)

(** exp.__getitem__ *)
Definition exp_getitem (self : exp) (i : pyslice) : res exp :=
  match start i, stop i with
  | Some a, Some b => slicer self a (b - a)
  | _, _ => Raise TypeError
  end.

(** cst.__getitem__ *)
Definition cst_getitem (self : exp) (i : pyslice) : res exp :=
  let a := or_else (start i) 0 in
  let b := or_else (stop i) (size self) in
  v ← get_v self; h ← py_rshift v a; cst h (b - a).

(** mem.__getitem__ *)
Definition mem_getitem (self : exp) (i : pyslice) : res exp :=
  match self, start i, stop i with
  | Mem a n s mods endian, Some sta, Some sto =>
      let b1 := sta / 8 in
      let r1 := sta mod 8 in
      let r2 := sto mod 8 in
      let b2 := if 0 <? r2 then sto / 8 + 1 else sto / 8 in
      let l := n / 8 in
      let '(b1, b2) := if endian =? -1 then (l - b2, l - b1) else (b1, b2) in
      x ← mem_new a ((b2 - b1) * 8) None b1 mods endian;
      let x := set_sf s x in
      if (0 <? r1) || (0 <? r2) then slc_new x r1 (sto - sta) None
      else Ok x
  | _, _, _ => Raise AttributeError
  end.

(** slc.__getitem__ *)
Definition slc_getitem (self : exp) (i : pyslice) : res exp :=
  match self, start i, stop i with
  | Slc x pos n _ _ _, Some a, Some b =>
      if (a =? 0) && (b =? n) then Ok self
      else slicer x (pos + a) (b - a)
  | _, _, _ => Raise AttributeError
  end.

(** vec.__getitem__ and vecw.__getitem__ *)
Fixpoint getitem_all (l : list exp) (a b : Z) : res (list exp) :=
  match l with
  | [] => Ok []
  | e :: t =>
      x ← r_getitem E e (slice_of a b); r ← getitem_all t a b; Ok (x :: r)
  end.

Definition vec_getitem (self : exp) (i : pyslice) : res exp :=
  match self, start i, stop i with
  | Vec l _ _, Some a, Some b => xs ← getitem_all l a b; vec_new xs
  | Vecw l _ _, Some a, Some b =>
      xs ← getitem_all l a b; v ← vec_new xs; vecw_new v
  | _, _, _ => Raise AttributeError
  end.

(** *** Composite *)

(** the loop body of comp.cut, for every key of [maskset] *)
Fixpoint cut_loop (maskset : list key) (sta sto : Z)
         (smask : list (option key)) (parts : list (key * exp))
  : res (list (option key) * list (key * exp)) :=
  match maskset with
  | [] => Ok (smask, parts)
  | nk :: rest =>
      '(nv, parts) ← dict_pop nk parts;
      '(smask, parts) ←
        (if nk.1 <? sta then
           piece ← r_getitem E nv (slice_of 0 (sta - nk.1));
           Ok (list_set_slice smask nk.1 sta
                 (list_repeat (Some (nk.1, sta)) (sta - nk.1)),
               dict_set (nk.1, sta) piece parts)
         else Ok (smask, parts));
      '(smask, parts) ←
        (if sto <? nk.2 then
           piece ← r_getitem E nv (slice_of (sto - nk.1) (nk.2 - nk.1));
           Ok (list_set_slice smask sto nk.2
                 (list_repeat (Some (sto, nk.2)) (nk.2 - sto)),
               dict_set (sto, nk.2) piece parts)
         else Ok (smask, parts));
      cut_loop rest sta sto smask parts
  end.

(** comp.cut(start, stop) *)
Definition comp_cut (sta sto : Z) (smask : list (option key))
           (parts : list (key * exp))
  : res (list (option key) * list (key * exp)) :=
  let maskset := maskset_of (list_slice smask sta sto) [] in
  '(smask, parts) ← cut_loop maskset sta sto smask parts;
  Ok (list_set_slice smask sta sto (list_repeat (Some (sta, sto)) (sto - sta)),
      parts).

(** the loop of comp.__setitem__ over the parts of a composite value *)
Fixpoint setitem_parts (self : exp) (sta : Z) (vparts : list (key * exp))
  : res exp :=
  match vparts with
  | [] => Ok self
  | ((vsta, vsto), vv) :: rest =>
      self' ← r_setitem E self (slice_of (sta + vsta) (sta + vsto)) vv;
      setitem_parts self' sta rest
  end.

(** comp.__setitem__ *)
Definition comp_setitem (v : exp) (self : exp) (i : pyslice) : res exp :=
  match self with
  | Comp n s smask parts =>
      let sta := or_else (start i) 0 in
      let sto := or_else (stop i) n in
      if negb (size v =? sto - sta) then Raise ValueError
      else if _is_cmp v then
        match v with
        | Comp _ _ _ vparts => setitem_parts self sta vparts
        | _ => Raise AttributeError
        end
      else
        match dict_get (sta, sto) parts with
        | Some _ => Ok (Comp n s smask (dict_set (sta, sto) v parts))
        | None =>
            '(smask', parts') ←
              comp_cut sta sto smask (dict_set (sta, sto) v parts);
            Ok (Comp n s smask' parts')
        end
  | _ => Raise AttributeError
  end.

(** the while loop of comp.__getitem__; every round either raises or
    advances [b], so [fuel] rounds are enough when [fuel] is at least
    the length of the slice *)
Fixpoint comp_getitem_loop (fuel : nat) (smask : list (option key))
         (parts : list (key * exp)) (sto : Z) (r : exp) (b sta l : Z)
  : res (exp * Z) :=
  if b <? l then
    match fuel with
    | O => OutOfFuel
    | S fuel' =>
        idx ← list_index smask sta;
        match idx with
        | None => comp_getitem_loop fuel' smask parts sto r (b + 1) (sta + 1) l
        | Some idx =>
            match dict_get idx parts with
            | None => Raise KeyError
            | Some s =>
                let deb := sta - idx.1 in
                let fin := Z.min idx.2 sto - idx.1 in
                let d := fin - deb in
                piece ← r_getitem E s (slice_of deb fin);
                r' ← r_setitem E r (slice_of b (b + d)) piece;
                comp_getitem_loop fuel' smask parts sto r' (b + d) (sta + d) l
            end
        end
    end
  else Ok (r, sta).

(** comp.__getitem__ *)
Definition comp_getitem (self : exp) (i : pyslice) : res exp :=
  match self with
  | Comp n s smask parts =>
      let sta := or_else (start i) 0 in
      let sto := or_else (stop i) n in
      match dict_get (sta, sto) parts with
      | Some p => Ok p
      | None =>
          if (sta =? 0) && (sto =? n) then comp_copy self
          else
            let l := sto - sta in
            '(r, sta') ← comp_getitem_loop (Z.to_nat l) smask parts sto
                           (set_sf s (comp l)) 0 sta l;
            r ← comp_restruct r;
            match r with
            | Comp _ _ _ [] => slicer self sta' (sto - sta')
            | Comp _ _ _ [(_, p)] => Ok p
            | _ => Ok r
            end
      end
  | _ => Raise AttributeError
  end.

(** the __getitem__ of the class of the receiver, without its
    decorator *)
Definition getitem_body (self : exp) : exp -> pyslice -> res exp :=
  match self with
  | Cst _ _ _ _ => cst_getitem
  | Comp _ _ _ _ => comp_getitem
  | Mem _ _ _ _ _ => mem_getitem
  | Slc _ _ _ _ _ _ => slc_getitem
  | Vec _ _ _ | Vecw _ _ _ => vec_getitem
  | _ => exp_getitem
  end.

(** [self[i]]: every __getitem__ is wrapped by _checkarg_slice *)
Definition getitem (self : exp) (i : pyarg) : res exp :=
  checkarg_slice (getitem_body self) self i.

(** the statement [self[i] = v].  On a composite, comp.__setitem__
    rewrites the receiver; on any other class, exp.__setitem__ builds a
    new composite and returns it, which the statement drops. *)
Definition setitem (self : exp) (i : pyarg) (v : exp) : res exp :=
  match self with
  | Comp _ _ _ _ => checkarg_slice (comp_setitem v) self i
  | _ =>
      checkarg_slice
        (fun self s =>
           r ← r_setitem E (comp (size self)) (slice_of 0 (size self)) self;
           r ← r_setitem E r (ASlice s) v;
           _ ← simp no_kargs r;
           Ok self)
        self i
  end.

(** composer(parts) *)
Fixpoint composer_loop (c : exp) (pos : Z) (parts : list exp) : res exp :=
  match parts with
  | [] => Ok c
  | x :: rest =>
      c' ← r_setitem E c (slice_of pos (pos + size x)) x;
      composer_loop c' (pos + size x) rest
  end.

Definition composer (parts : list exp) : res exp :=
  _ ← py_assert (0 <? Z.of_nat (length parts));
  match parts with
  | [x] => Ok x
  | _ =>
      let s := foldl (fun acc x => acc + size x) 0 parts in
      let c := set_sf (sf (List.last parts (top 0))) (comp s) in
      c ← composer_loop c 0 parts;
      simp no_kargs c
  end.

(** *** Helpers of the simplifier *)

(** _operator.__call__(l, r) where [r] may be None *)
Definition operator_call (o : operator) (l : exp) (r : option exp)
  : res exp :=
  match r with
  | None => operator_call1 o l
  | Some r => operator_call2 o l r
  end.

(** the attributes [l] and [r] of an eqn; [uop.l] is None *)
Definition get_l (e : exp) : res (option exp) :=
  match e with
  | Op _ l _ _ _ _ => Ok (Some l)
  | Uop _ _ _ _ _ => Ok None
  | _ => Raise AttributeError
  end.

Definition get_r (e : exp) : res exp :=
  match e with
  | Op _ _ r _ _ _ | Uop _ r _ _ _ => Ok r
  | _ => Raise AttributeError
  end.

(** the attribute [l] of a vec *)
Definition get_list (e : exp) : res (list exp) :=
  match e with
  | Vec l _ _ | Vecw l _ _ => Ok l
  | _ => Raise AttributeError
  end.

(** an attribute that holds None, used where an expression is needed *)
Definition not_none (o : option exp) : res exp :=
  match o with Some x => Ok x | None => Outside end.

(** eqn1_helpers(e) for the unary node [Uop o r n s p] *)
Definition eqn1_helpers (o : operator) (r : exp) (n : Z) (s : bool) (p : Z)
  : res exp :=
  let e := Uop o r n s p in
  _ ← py_assert (unary o);
  if _is_cst r then operator_call1 o r
  else if _is_vec r then
    l ← get_list r; xs ← mapM (operator_call1 o) l; vec_new xs
  else if _is_eqn r then
    ro ← get_op r;
    if unary ro then
      rr ← get_r r;
      match operator_mul o ro with
      | Some OP_ADD => Ok rr
      | Some OP_MIN => py_neg rr
      | _ => Ok e
      end
    else if bool_decide (symbol o = OP_MIN) then
      if bool_decide (symbol ro = OP_MIN) || bool_decide (symbol ro = OP_ADD)
      then
        rl ← get_l r; rl ← not_none rl; l ← py_neg rl;
        rr ← get_r r;
        match operator_mul o ro with
        | Some x => op_table2 x l rr
        | None => Raise KeyError
        end
      else Ok e
    else if bool_decide (symbol o = OP_NOT) && (op_type ro =? 4) then
      notop ← match symbol ro with
              | OP_EQ => Ok OP_NEQ | OP_NEQ => Ok OP_EQ
              | OP_LT => Ok OP_GE | OP_GT => Ok OP_LE
              | OP_LTU => Ok OP_GEU | OP_GEU => Ok OP_LTU
              | OP_LE => Ok OP_GT | OP_GE => Ok OP_LT
              | _ => Raise KeyError
              end;
      rl ← get_l r; rl ← not_none rl; rr ← get_r r;
      op_table2 notop rl rr
    else Ok e
  else Ok e.

(** get_lsb_msb(v), ismask(v) *)
Definition get_lsb_msb (v : Z) : Z * Z :=
  (bit_length (Z.land v (- v)) - 1, bit_length v - 1).

Definition ismask (v : Z) : res bool :=
  let '(i1, i2) := get_lsb_msb v in
  a ← py_lshift 1 (i2 + 1); b ← py_lshift 1 i1;
  Ok (Z.lxor (a - 1) (b - 1) =? v).

(** the fields of a binary node while eqn2_helpers rewrites it *)
Record eqn : Type := Eqn {
  e_op : operator; e_l : exp; e_r : exp;
  e_size : Z; e_sf : bool; e_prop : Z
}.

Definition eqn_exp (e : eqn) : exp :=
  Op (e_op e) (e_l e) (e_r e) (e_size e) (e_sf e) (e_prop e).

Definition set_op (o : operator) (e : eqn) : eqn :=
  Eqn o (e_l e) (e_r e) (e_size e) (e_sf e) (e_prop e).
Definition set_l (l : exp) (e : eqn) : eqn :=
  Eqn (e_op e) l (e_r e) (e_size e) (e_sf e) (e_prop e).
Definition set_r (r : exp) (e : eqn) : eqn :=
  Eqn (e_op e) (e_l e) r (e_size e) (e_sf e) (e_prop e).

Definition sym_in (s : opsym) (l : list opsym) : bool := bool_decide (s ∈ l).

(** what eqn2_helpers returns: the value, and [e.op] at that point *)
Definition ret (e : eqn) (x : exp) : res (exp * option operator) :=
  Ok (x, Some (e_op e)).

(** eqn2_helpers: replacing over-complex operands by top *)
Definition eqn2_threshold (e : eqn) : res eqn :=
  let threshold := cas_complexity cfg in
  if 0 <? threshold then
    cr ← complexity (e_r e);
    let e := if fgt cr threshold then set_r (top (size (e_r e))) e else e in
    cl ← complexity (e_l e);
    Ok (if fgt cl threshold then set_l (top (size (e_l e))) e else e)
  else Ok e.

(** eqn2_helpers: [(a l.op cst) e.op r] becomes [(a e.op r) l.op cst] *)
Definition eqn2_left_cst (e : eqn) : res eqn :=
  if _is_eqn (e_l e) then
    lr ← get_r (e_l e);
    lo ← get_op (e_l e);
    if _is_cst lr && negb (unary lo) then
      match operator_mul (e_op e) lo with
      | Some _ =>
          let lop := e_op e in
          let r0 := e_r e in
          let e := set_r lr (set_op lo e) in
          ll ← get_l (e_l e); ll ← not_none ll;
          l' ← operator_call2 lop ll r0;
          Ok (set_l l' e)
      | None => Ok e
      end
    else Ok e
  else Ok e.

(** eqn2_helpers: [l + (-r)] becomes [l - r] *)
Definition eqn2_add_neg (e : eqn) : res eqn :=
  if _is_eqn (e_r e) then
    ro ← get_op (e_r e);
    if unary ro then
      if bool_decide (symbol (e_op e) = OP_ADD)
         && bool_decide (symbol ro = OP_MIN)
      then
        o ← operator_new OP_MIN false;
        rr ← get_r (e_r e);
        Ok (set_r rr (set_op o e))
      else Ok e
    else Ok e
  else Ok e.

(** eqn2_helpers: [l [+-] (a [+-] cst)] becomes [(l [+-] a) xop cst] *)
Definition eqn2_right_cst (e : eqn) : res eqn :=
  if _is_eqn (e_r e) then
    rr ← get_r (e_r e);
    if _is_cst rr then
      ro ← get_op (e_r e);
      match operator_mul (e_op e) ro with
      | Some xop =>
          rl ← get_l (e_r e);
          l' ← operator_call (e_op e) (e_l e) rl;
          o ← operator_new xop false;
          Ok (set_op o (set_r rr (set_l l' e)))
      | None => Ok e
      end
    else Ok e
  else Ok e.

(** [x[a:b]] through the entry point *)
Definition sub (x : exp) (a b : Z) : res exp := r_getitem E x (slice_of a b).

(** [c[a:b] = v] through the entry point *)
Definition put (c : exp) (a b : Z) (v : exp) : res exp :=
  r_setitem E c (slice_of a b) v.

(** eqn2_helpers, with a constant [e.r] of value [v]: the chain of
    identities; [None] when no branch returns *)
Definition eqn2_identities (bs : bool) (e : eqn) (v : Z)
  : res (option exp) :=
  let s := symbol (e_op e) in
  let l := e_l e in
  if v =? 0 then
    if sym_in s [OP_OR; OP_XOR; OP_ADD; OP_MIN; OP_LSR; OP_LSL; OP_ROR; OP_ROL]
    then Ok (Some l)
    else if sym_in s [OP_AND; OP_MUL; OP_MUL2] then
      c ← cst 0 (e_size e); Ok (Some c)
    else if bool_decide (s = OP_EQ) && _is_ext l then Ok (Some bit0)
    else if bool_decide (s = OP_NEQ) && _is_ext l then Ok (Some bit1)
    else Ok None
  else if (v =? 1) && sym_in s [OP_MUL; OP_MUL2; OP_DIV] then Ok (Some l)
  else
    m ← (if bool_decide (s = OP_AND) then ismask v else Ok false);
    if m : bool then
      let '(i1, i2) := get_lsb_msb v in
      z ← cst 0 (e_size e);
      c ← put (comp (e_size e)) 0 (e_size e) z;
      x ← sub l i1 (i2 + 1);
      c ← put c i1 (i2 + 1) x;
      r ← simp no_kargs c; Ok (Some r)
    else if bs && sym_in s [OP_AND; OP_OR; OP_XOR] then
      xs ← mapM (fun i => a ← sub l i (i + 1);
                          b ← sub (e_r e) i (i + 1);
                          operator_call2 (e_op e) a b)
                (seqZ 0 (e_size e));
      r ← composer xs; Ok (Some r)
    else if bs && str_in (sym_str s) (sym_str OP_LSL) then
      xs ← mapM (fun i => sub l i (i + 1)) (seqZ 0 (e_size e - v));
      r ← composer (list_repeat bit0 v ++ xs)%list; Ok (Some r)
    else if bs && str_in (sym_str s) (sym_str OP_LSR) then
      xs ← mapM (fun i => sub l i (i + 1)) (seqZ v (e_size e - v));
      r ← composer (xs ++ list_repeat bit0 v)%list; Ok (Some r)
    else if sym_in s [OP_LSL; OP_LSR] then
      z ← cst 0 (size l);
      c ← put (comp (size l)) 0 (size l) z;
      c ← (if v <? size l then
             if bool_decide (s = OP_LSL) then
               x ← sub l 0 (size l - v); put c v (size l) x
             else
               x ← sub l v (size l); put c 0 (size l - v) x
           else Ok c);
      r ← simp no_kargs c; Ok (Some r)
    else Ok None.

(** the loop over the parts of a composite [e.l] *)
Fixpoint eqn2_comp_loop (e : eqn) (cc : exp) (parts : list (key * exp))
  : res exp :=
  match parts with
  | [] => Ok cc
  | ((i, j), p) :: rest =>
      x ← sub (e_r e) i j;
      y ← operator_call2 (e_op e) p x;
      cc' ← put cc i j y;
      eqn2_comp_loop e cc' rest
  end.

(** eqn2_helpers, with a constant [e.r] of value [v]: the rules that
    depend on the class of [e.l] *)
Definition eqn2_by_left (bs : bool) (e : eqn) (v : Z)
  : res (option (exp * option operator)) :=
  let s := symbol (e_op e) in
  let l := e_l e in
  if _is_eqn l then
    lo ← get_op l;
    match operator_mul (e_op e) lo with
    | Some xop =>
        lr ← get_r l;
        e' ← (if _is_cst lr then
                cc ← op_table2 xop lr (e_r e);
                l' ← (if negb (unary lo) then
                        ll ← get_l l; not_none ll
                      else Ok l);
                Ok (set_r cc (set_l l' (set_op lo e)))
              else Ok e);
        r ← ret e' (eqn_exp e'); Ok (Some r)
    | None =>
        if size (e_r e) =? 1 then
          if bool_decide (s = OP_EQ) then
            x ← (if v =? 1 then Ok l else py_invert l);
            r ← ret e x; Ok (Some r)
          else if bool_decide (s = OP_NEQ) then
            x ← py_invert l; r ← ret e x; Ok (Some r)
          else Ok None
        else Ok None
    end
  else if _is_ptr l then
    if sym_in s [OP_MIN; OP_ADD] then
      d ← (if unary (e_op e) then Raise TypeError
           else Ok (if bool_decide (s = OP_ADD) then 0 + v else 0 - v));
      p ← ptr_new l None d;
      r ← ret e p; Ok (Some r)
    else Ok None
  else if _is_cmp l then
    if sym_in s [OP_AND; OP_OR; OP_XOR] then
      match l with
      | Comp _ _ _ parts =>
          cc ← eqn2_comp_loop e (comp (size l)) parts;
          x ← simp (Kargs bs false) cc;
          r ← ret e x; Ok (Some r)
      | _ => Raise AttributeError
      end
    else Ok None
  else if _is_cst l then
    x ← operator_call2 (e_op e) l (e_r e);
    r ← ret e x; Ok (Some r)
  else Ok None.

(** eqn2_helpers: the rules for operands that print identically *)
Definition eqn2_same (e : eqn) : res exp :=
  sl ← str cfg (e_l e); sr ← str cfg (e_r e);
  let s := symbol (e_op e) in
  if bool_decide (sl = sr) then
    if sym_in s [OP_NEQ; OP_LT; OP_GT] then Ok bit0
    else if sym_in s [OP_EQ; OP_LE; OP_GE] then Ok bit1
    else if bool_decide (s = OP_MIN) then cst 0 (e_size e)
    else if bool_decide (s = OP_XOR) then cst 0 (e_size e)
    else if bool_decide (s = OP_AND) then Ok (e_l e)
    else if bool_decide (s = OP_OR) then Ok (e_l e)
    else Ok (eqn_exp e)
  else Ok (eqn_exp e).

(** eqn2_helpers(e, bitslice, widening) *)
Definition eqn2_helpers (bs wd : bool) (e : eqn)
  : res (exp * option operator) :=
  e ← eqn2_threshold e;
  if _is_top (e_r e) || _is_top (e_l e) then ret e (top (e_size e))
  else
    e ← eqn2_left_cst e;
    e ← eqn2_add_neg e;
    e ← eqn2_right_cst e;
    early ← (if _is_cst (e_r e) then
               v ← value (e_r e);
               i ← eqn2_identities bs e v;
               match i with
               | Some x => r ← ret e x; Ok (Some r)
               | None => eqn2_by_left bs e v
               end
             else Ok None);
    match early with
    | Some r => Ok r
    | None =>
        if _is_vec (e_l e) then
          l ← get_list (e_l e);
          xs ← mapM (fun x => operator_call2 (e_op e) x (e_r e)) l;
          v ← vec_new xs;
          x ← simp (Kargs false wd) v; ret e x
        else if _is_vec (e_r e) then
          l ← get_list (e_r e);
          xs ← mapM (fun x => operator_call2 (e_op e) (e_l e) x) l;
          v ← vec_new xs;
          x ← simp (Kargs false wd) v; ret e x
        else x ← eqn2_same e; ret e x
    end.

(** *** simplify, class by class *)

(** the truth value of [a == b] *)
Definition py_eq (a b : exp) : res bool :=
  r ← py_dunder D_eq a b; Ok (py_bool r).

(** [x in l] on a list of expressions: the first item that is equal to
    [x], the item on the left of [==] *)
Fixpoint py_contains (l : list exp) (x : exp) : res bool :=
  match l with
  | [] => Ok false
  | item :: t =>
      b ← py_eq item x;
      if b : bool then Ok true else py_contains t x
  end.

(** comp.simplify *)
Definition comp_simplify (k : kargs) (self : exp) : res exp :=
  match self with
  | Comp n s smask parts =>
      parts ← mapM (fun '(nk, nv) => x ← simp k nv; Ok (nk, x)) parts;
      '(smask, parts) ← restruct (restruct_fuel parts) smask parts;
      match dict_get (0, n) parts with
      | Some p => Ok p
      | None => Ok (Comp n s smask parts)
      end
  | _ => Raise AttributeError
  end.

(** ptr.simplify *)
Definition ptr_simplify (k : kargs) (self : exp) : res exp :=
  match self with
  | Ptr base disp seg n s =>
      '(base, offset) ← extract_offset base;
      let disp := disp + offset in
      seg ← match seg with
            | Some g => g' ← simp k g; Ok (Some g')
            | None => Ok None
            end;
      let disp := if negb (_is_def base) then 0 else disp in
      Ok (Ptr base disp seg n s)
  | _ => Raise AttributeError
  end.

(** mem.simplify *)
Definition mem_simplify (k : kargs) (self : exp) : res exp :=
  match self with
  | Mem a n s mods endian =>
      a ← simp k a;
      match a with
      | Ptr base disp seg _ _ =>
          if _is_vec base then
            bl ← get_list base;
            l ← mapM (fun x => mem_new x n seg disp mods endian) bl;
            v ← vec_new l;
            if _is_def base then Ok v else vecw_new v
          else Ok (Mem a n s mods endian)
      | _ => Raise AttributeError
      end
  | _ => Raise AttributeError
  end.

(** slc.simplify *)
Definition slc_simplify (k : kargs) (self : exp) : res exp :=
  match self with
  | Slc x pos n s ref et =>
      x ← simp k x;
      let self := Slc x pos n s ref et in
      let eqn_case : res (option exp) :=
        if _is_eqn x then
          o ← get_op x;
          if (op_type o =? 2)
             || (sym_in (symbol o) [OP_ADD; OP_MIN] && (pos =? 0))
          then
            xr ← get_r x;
            r ← sub xr pos (pos + n);
            if unary o then y ← operator_call1 o r; Ok (Some y)
            else
              xl ← get_l x; xl ← not_none xl;
              l ← sub xl pos (pos + n);
              y ← operator_call2 o l r; Ok (Some y)
          else Ok None
        else Ok None in
      let mem_case : res (option exp) :=
        if _is_mem x && (n mod 8 =? 0) then
          if pos mod 8 =? 0 then
            match x with
            | Mem (Ptr base disp seg _ _) _ _ _ _ =>
                a ← ptr_new base seg (disp + pos / 8);
                r ← mem_new a n None 0 [] 1;
                Ok (Some (set_sf s r))
            | _ => Raise AttributeError
            end
          else Ok None
        else Ok None in
      if negb (_is_def x) then Ok (top n)
      else if _is_cmp x || _is_cst x then
        r ← sub x pos (pos + n); Ok (set_sf s r)
      else
        m ← mem_case;
        match m with
        | Some r => Ok r
        | None =>
            q ← eqn_case;
            match q with
            | Some r => Ok r
            | None =>
                if _is_vec x then
                  xl ← get_list x;
                  l ← mapM (fun y => sub y pos (pos + n)) xl;
                  vec_new l
                else Ok self
            end
        end
  | _ => Raise AttributeError
  end.

(** vec.simplify: the first loop; [inl] is an early return *)
Fixpoint vec_flatten (l acc : list exp) : res (exp + list exp) :=
  match l with
  | [] => Ok (inr acc)
  | e :: t =>
      ee ← simp no_kargs e;
      if negb (_is_def ee) then Ok (inl ee)
      else if _is_vec ee then
        l' ← get_list ee; vec_flatten t (acc ++ l')%list
      else vec_flatten t (acc ++ [ee])%list
  end.

(** vec.simplify: the second loop *)
Fixpoint vec_dedup (l acc : list exp) : res (list exp) :=
  match l with
  | [] => Ok acc
  | e :: t =>
      b ← py_contains acc e;
      if b : bool then vec_dedup t acc else vec_dedup t (acc ++ [e])%list
  end.

(** vec.simplify *)
Definition vec_simplify (k : kargs) (self : exp) : res exp :=
  match self with
  | Vec l n s =>
      f ← vec_flatten l [];
      match f with
      | inl ee => Ok ee
      | inr l =>
          l ← vec_dedup l [];
          match l with
          | [x] => Ok x
          | _ =>
              if widening k then vecw_new (Vec l n s)
              else
                cl ← mapM complexity l;
                let total := foldl fadd (Fin 0) cl in
                if fgt total (cas_complexity cfg) && (0 <? cas_complexity cfg)
                then Ok (top n)
                else Ok (Vec l n s)
          end
      end
  | _ => Raise AttributeError
  end.

(** tst.simplify *)
Definition tst_simplify (k : kargs) (self : exp) : res exp :=
  match self with
  | Tst t l r n s =>
      t ← simp k t;
      if widening k || negb (_is_def t) then
        v ← vec_new [l; r]; simp no_kargs v
      else
        l ← simp k l;
        b1 ← py_eq t bit1;
        if b1 : bool then Ok l
        else
          r ← simp k r;
          b0 ← py_eq t bit0;
          if b0 : bool then Ok r
          else
            same ← py_eq l r;
            if same : bool then Ok l else Ok (Tst t l r n s)
  | _ => Raise AttributeError
  end.

(** the concatenated names of the symbols of [e] *)
Definition symbols_str (e : exp) : res string :=
  l ← symbols_of e; ss ← mapM (str cfg) l; Ok (join "" ss).

(** op.simplify *)
Definition op_simplify (k : kargs) (self : exp)
  : res (exp * option operator) :=
  match self with
  | Op o l r n s p =>
      l ← simp k l;
      r ← simp k r;
      let rest (l r : exp) (o : operator) :=
        eqn2_helpers (bitslice k) (widening k) (Eqn o l r n s p) in
      let swap :=
        if bool_decide (symbol o = OP_MIN) then
          nr ← py_neg r; o' ← operator_new OP_ADD false; rest nr l o'
        else rest r l o in
      if (p <? 4) && negb (sym_in (symbol o) [OP_DIV; OP_MOD]) then
        if _is_top l then Ok (l, Some o)
        else if _is_top r then Ok (r, Some o)
        else if _is_cst l then
          if _is_cst r then x ← operator_call2 o l r; Ok (x, Some o)
          else swap
        else if negb (_is_cst r) then
          lh ← symbols_str l;
          rh ← symbols_str r;
          if String.ltb rh lh then swap else rest l r o
        else rest l r o
      else rest l r o
  | _ => Raise AttributeError
  end.

(** uop.simplify *)
Definition uop_simplify (k : kargs) (self : exp) : res exp :=
  match self with
  | Uop o r n s p =>
      r ← simp k r;
      if _is_top r then Ok r else eqn1_helpers o r n s p
  | _ => Raise AttributeError
  end.

(** simplify: dispatch on the class of the receiver *)
Definition simplify (k : kargs) (e : exp) : res (exp * option operator) :=
  match e with
  | Comp _ _ _ _ => x ← comp_simplify k e; Ok (x, None)
  | Mem _ _ _ _ _ => x ← mem_simplify k e; Ok (x, None)
  | Ptr _ _ _ _ _ => x ← ptr_simplify k e; Ok (x, None)
  | Slc _ _ _ _ _ _ => x ← slc_simplify k e; Ok (x, None)
  | Tst _ _ _ _ _ => x ← tst_simplify k e; Ok (x, None)
  | Op _ _ _ _ _ _ => op_simplify k e
  | Uop o _ _ _ _ => x ← uop_simplify k e; Ok (x, Some o)
  | Vec _ _ _ => x ← vec_simplify k e; Ok (x, None)
  | Top _ _ | Void _ _ | Cst _ _ _ _ | Reg _ _ _ _ _ _ | Vecw _ _ _ =>
      Ok (e, None)
  end.
End Engine.

(** ** Tying the recursion *)

Fixpoint engine_at (cfg : config) (fuel : nat) : engine :=
  match fuel with
  | O => Engine (fun _ _ => OutOfFuel) (fun _ _ => OutOfFuel)
                (fun _ _ _ => OutOfFuel)
  | S n =>
      let E := engine_at cfg n in
      Engine (simplify cfg E) (getitem E) (setitem E)
  end.

(** [e.simplify()] with keyword arguments [k], [e[i]], the receiver after [e[i] = v] and
    [oper(s, l, r)] with recursion depth at most [fuel] *)
Definition py_simplify (cfg : config) (fuel : nat) (k : kargs) (e : exp)
  : res exp :=
  simp (engine_at cfg fuel) k e.

Definition py_getitem (cfg : config) (fuel : nat) (e : exp) (i : pyarg)
  : res exp :=
  r_getitem (engine_at cfg fuel) e i.

Definition py_setitem (cfg : config) (fuel : nat) (e : exp) (i : pyarg)
           (v : exp) : res exp :=
  r_setitem (engine_at cfg fuel) e i v.

Definition py_oper (cfg : config) (fuel : nat) (s : opsym) (l r : exp)
  : res exp :=
  oper (engine_at cfg fuel) s l r.

Definition py_ptr (cfg : config) (fuel : nat) (base : exp) (seg : option exp)
           (disp : Z) : res exp :=
  ptr_new (engine_at cfg fuel) base seg disp.

(** ** An object store for constants and conditionals

    The methods of [cst] assign to the [sf] attribute of their operands,
    and [tst(t, l, r)] may return one of its arguments: both are about
    object identity.  Here objects live in a store and are named by their
    location.  Only the classes [cst] and [tst] have their fields in the
    store; an object of another class is known by its etype, size and
    sign flag.  Where a method of [cst] meets an operand that is not a
    constant it builds an operator node through [oper]: that is the
    business of the engine above, and the store model answers [Outside]. *)
Module Store.

Abbreviation loc := nat.

Inductive obj : Set :=
| OCst (v size : Z) (sf : bool)
| OTst (t l r : loc) (size : Z) (sf : bool)
| OExp (et size : Z) (sf : bool).

Abbreviation heap := (gmap nat obj).

Definition osize (o : obj) : Z :=
  match o with OCst _ n _ | OTst _ _ _ n _ | OExp _ n _ => n end.

Definition osf (o : obj) : bool :=
  match o with OCst _ _ s | OTst _ _ _ _ s | OExp _ _ s => s end.

(** the assignment [o.sf = b] *)
Definition oset_sf (b : bool) (o : obj) : obj :=
  match o with
  | OCst v n _ => OCst v n b
  | OTst t l r n _ => OTst t l r n b
  | OExp et n _ => OExp et n b
  end.

Definition oetype (o : obj) : Z :=
  match o with
  | OCst _ _ _ => et_cst
  | OTst _ _ _ _ _ => et_tst
  | OExp et _ _ => et
  end.

Definition o_is_cst (o : obj) : bool := negb (Z.land et_cst (oetype o) =? 0).

(** the fields of an object other than [sf] *)
Definition pattern (o : obj) : obj := oset_sf false o.

(** a constant of the store as an expression, and back *)
Definition cst_exp (v n : Z) (s : bool) : exp := Cst v n s None.

Definition exp_obj (e : exp) : option obj :=
  match e with
  | Cst v n s _ => Some (OCst v n s)
  | _ => None
  end.

(** Computations on the store: the store is kept when a call raises. *)
Definition M (A : Type) : Type := heap -> res A * heap.

Definition munit {A : Type} (a : A) : M A := fun h => (Ok a, h).

Definition mbind' {A B : Type} (m : M A) (f : A -> M B) : M B :=
  fun h =>
    match m h with
    | (Ok a, h') => f a h'
    | (Raise e, h') => (Raise e, h')
    | (OutOfFuel, h') => (OutOfFuel, h')
    | (Outside, h') => (Outside, h')
    end.

Notation "x <- m ;; k" := (mbind' m (fun x => k))
  (at level 100, m at next level, right associativity).

Definition lift {A : Type} (r : res A) : M A := fun h => (r, h).

(** reading an attribute of the object at [l] *)
Definition get_obj (l : loc) : M obj :=
  fun h => match h !! l with
           | Some o => (Ok o, h)
           | None => (Outside, h)
           end.

(** writing the fields of the object at [l] *)
Definition set_obj (l : loc) (o : obj) : M unit :=
  fun h => (Ok tt, <[l := o]> h).

(** a new object *)
Definition new_obj (o : obj) : M loc :=
  fun h => let l := fresh (dom h) in (Ok l, <[l := o]> h).

(** cst(v, size) *)
Definition cst_new (v n : Z) : M loc :=
  e <- lift (cst v n) ;;
  match exp_obj e with
  | Some o => new_obj o
  | None => lift Outside
  end.

(** cst(b) for a Python bool *)
Definition cst_of_bool (b : bool) : M loc :=
  new_obj (OCst (if b then 1 else 0) 1 false).

(** [l.sf = b] *)
Definition assign_sf (l : loc) (b : bool) : M unit :=
  o <- get_obj l ;; set_obj l (oset_sf b o).

(** [self.value] *)
Definition value_at (l : loc) : M Z :=
  o <- get_obj l ;;
  match o with
  | OCst v n s => lift (cst_value v n s)
  | _ => lift (Raise AttributeError)
  end.

(** cst.zeroextend *)
Definition zeroextend (self : loc) (n : Z) : M loc :=
  o <- get_obj self ;;
  match o with
  | OCst v sz _ => cst_new v (Z.max n sz)
  | _ => lift Outside
  end.

(** cst.signextend *)
Definition signextend (self : loc) (n : Z) : M loc :=
  o <- get_obj self ;;
  match o with
  | OCst _ sz s =>
      _ <- assign_sf self true ;;
      v <- value_at self ;;
      _ <- assign_sf self s ;;
      cst_new v (Z.max n sz)
  | _ => lift Outside
  end.

(** the assignment to [self.sf] that opens cst.__rshift__ and
    cst.__floordiv__ *)
Definition dunder_assign_sf (d : dunder) (self : loc) : M unit :=
  match d with
  | D_rshift => assign_sf self false
  | D_floordiv => assign_sf self true
  | _ => munit tt
  end.

(** the new constant that a binary method of cst returns when the
    operand [n] is a constant *)
Definition cst_result (d : dunder) (self n : loc) : M loc :=
  a <- get_obj self ;;
  b <- get_obj n ;;
  match a, b with
  | OCst va sa fa, OCst vb sb fb =>
      e <- lift (cst_compute d (cst_exp va sa fa) (cst_exp vb sb fb)) ;;
      match exp_obj e with
      | Some o => new_obj o
      | None => lift Outside
      end
  | _, _ => lift Outside
  end.

(** a binary method of class cst, on the receiver [self] and the
    operand [n] *)
Definition cst_method (d : dunder) (self n : loc) : M loc :=
  a <- get_obj self ;;
  b <- get_obj n ;;
  match a with
  | OCst _ _ _ =>
      if dunder_checks_sizes d
         && (negb (osize a =? osize b)
             && ((0 <? osize a) && (0 <? osize b)))
      then lift (Raise ValueError)
      else
        _ <- dunder_assign_sf d self ;;
        if o_is_cst b then cst_result d self n else lift Outside
  | _ => lift Outside
  end.

(** [-c] and [~c] on a constant *)
Definition cst_neg (self : loc) : M loc :=
  o <- get_obj self ;;
  match o with
  | OCst v sz s => a <- lift (cst_value v sz s) ;; cst_new (- a) sz
  | _ => lift Outside
  end.

Definition cst_invert (self : loc) : M loc :=
  o <- get_obj self ;;
  match o with
  | OCst v sz _ => m <- lift (mask sz) ;; cst_new (Z.land (Z.lnot v) m) sz
  | _ => lift Outside
  end.

(** [k - n] for a Python integer [k] and a constant [n] *)
Definition cst_rsub_int (k : Z) (n : loc) : M loc :=
  o <- get_obj n ;;
  c <- cst_new k (osize o) ;;
  cst_method D_sub c n.

(** ror, rol, ltu, geu on constants *)
Definition cst_ror (x n : loc) : M loc :=
  a <- cst_method D_rshift x n ;;
  o <- get_obj x ;;
  k <- cst_rsub_int (osize o) n ;;
  b <- cst_method D_lshift x k ;;
  cst_method D_or a b.

Definition cst_rol (x n : loc) : M loc :=
  a <- cst_method D_lshift x n ;;
  o <- get_obj x ;;
  k <- cst_rsub_int (osize o) n ;;
  b <- cst_method D_rshift x k ;;
  cst_method D_or a b.

Definition cst_unsigned_cmp (d : dunder) (x y : loc) : M loc :=
  ox <- get_obj x ;;
  oy <- get_obj y ;;
  if negb (o_is_cst ox && o_is_cst oy) then lift Outside
  else
    _ <- assign_sf x true ;;
    _ <- assign_sf y true ;;
    cst_method d x y.

(** _operator.__call__(l, r) for a binary operator, on constants *)
Definition operator_call2 (o : operator) (l r : loc) : M loc :=
  _ <- (if op_unsigned o
        then (_ <- assign_sf l false ;; assign_sf r false)
        else munit tt) ;;
  if unary o && in_OP_ARITH (symbol o) then lift (Raise TypeError)
  else
    match symbol o with
    | OP_ADD => cst_method D_add l r
    | OP_MIN => cst_method D_sub l r
    | OP_MUL => cst_method D_mul l r
    | OP_MUL2 => cst_method D_pow l r
    | OP_DIV => cst_method D_truediv l r
    | OP_MOD => cst_method D_mod l r
    | OP_AND => cst_method D_and l r
    | OP_OR => cst_method D_or l r
    | OP_XOR => cst_method D_xor l r
    | OP_NOT => lift (Raise TypeError)
    | OP_EQ => cst_method D_eq l r
    | OP_NEQ => cst_method D_ne l r
    | OP_LE => cst_method D_le l r
    | OP_GE => cst_method D_ge l r
    | OP_GEU => cst_unsigned_cmp D_ge l r
    | OP_LT => cst_method D_lt l r
    | OP_LTU => cst_unsigned_cmp D_lt l r
    | OP_GT => cst_method D_gt l r
    | OP_LSR => cst_method D_rshift l r
    | OP_LSL => cst_method D_lshift l r
    | OP_ASR => cst_method D_floordiv l r
    | OP_ROR => cst_ror l r
    | OP_ROL => cst_rol l r
    end.

(** *** tst(t, l, r) *)

(** the condition passed to the constructor: a Python bool or an
    expression *)
Inductive cond : Set := CBool (b : bool) | CObj (t : loc).

(** the first lines of tst.__new__ and of tst.__init__ *)
Definition cond_obj (t : cond) : M loc :=
  match t with
  | CBool b => cst_of_bool b
  | CObj l => munit l
  end.

(** tst.__new__: [inl] is an argument returned as it is, [inr] a new,
    still empty, instance of tst *)
Definition tst___new__ (t : cond) (l r : loc) : M (loc + loc) :=
  t <- cond_obj t ;;
  ot <- get_obj t ;;
  let fresh_node := (x <- new_obj (OTst t l r 0 false) ;; munit (inr x)) in
  if o_is_cst ot && (osize ot =? 1) then
    v <- value_at t ;;
    if v =? 1 then munit (inl l)
    else if v =? 0 then munit (inl r)
    else fresh_node
  else fresh_node.

(** tst.__init__ *)
Definition tst___init__ (self : loc) (t : cond) (l r : loc) : M unit :=
  t <- cond_obj t ;;
  o <- get_obj self ;;
  ol <- get_obj l ;;
  or <- get_obj r ;;
  match o with
  | OTst _ l0 r0 n s =>
      _ <- set_obj self (OTst t l0 r0 n s) ;;
      if negb (osize ol =? osize or) then lift (Raise ValueError)
      else set_obj self (OTst t l r (osize ol) false)
  | _ => lift Outside
  end.

(** the call [tst(t, l, r)]: __new__, then __init__ when the object
    that __new__ returned is an instance of tst *)
Definition tst_call (t : cond) (l r : loc) : M loc :=
  x <- tst___new__ t l r ;;
  let x := match x with inl a => a | inr a => a end in
  o <- get_obj x ;;
  match o with
  | OTst _ _ _ _ _ => _ <- tst___init__ x t l r ;; munit x
  | _ => munit x
  end.

End Store.

(** * The words of the specification *)

(** "0 <= start < stop <= size" *)
Definition in_bounds (a b n : Z) : bool := (0 <=? a) && (a <? b) && (b <=? n).

(** the classes that slice through exp.__getitem__ or cst.__getitem__
    and that [slicer] does not send back to a __getitem__ of their own:
    Top, the undefined placeholder, constants and symbols, registers,
    pointers, conditionals and operator nodes *)
Definition plain_slicing (e : exp) : bool :=
  match e with
  | Top _ _ | Void _ _ | Cst _ _ _ _ | Reg _ _ _ _ _ _ | Ptr _ _ _ _ _
  | Tst _ _ _ _ _ | Op _ _ _ _ _ _ | Uop _ _ _ _ _ =>
      negb (_is_mem e || _is_cmp e)
  | _ => false
  end.

(** a bit pattern of [n] bits read as an unsigned, and as a signed
    (two's complement), integer *)
Definition unsigned_interp (v n : Z) : Z := v mod 2 ^ n.

Definition signed_interp (v n : Z) : Z :=
  let u := v mod 2 ^ n in
  if u <? 2 ^ (n - 1) then u else u - 2 ^ n.

(** the leaves of the algebra: the classes that inherit exp.simplify *)
Definition is_leaf (e : exp) : bool :=
  match e with
  | Top _ _ | Void _ _ | Cst _ _ _ _ | Reg _ _ _ _ _ _ | Vecw _ _ _ => true
  | _ => false
  end.



(** the expression that [reg("a",32) * 4 + 1 - 1] evaluates to *)
Definition c3_offset_expr : exp :=
  Op (Operator OP_MIN false)
     (Op (Operator OP_MUL false) (reg "a" 32) (Cst 4 32 false None) 32 false 1)
     (Cst 0 32 false None) 32 false 1.

(** a part that tests as a constant is an instance of cst with a
    non-negative width *)
Definition wf_part (p : exp) : bool :=
  if _is_cst p then
    match p with
    | Cst _ n _ _ => 0 <=? n
    | _ => false
    end
  else true.

Definition wf_parts (parts : list (key * exp)) : bool :=
  forallb (fun kp => wf_part kp.2) parts.



(** no two consecutive ranges can be merged *)
Definition no_merge_applies (parts : list (key * exp)) : Prop :=
  forall l1 ra rb l2 na nb,
    sort_keys (dict_keys parts) = (l1 ++ ra :: rb :: l2)%list ->
    ra.2 = rb.1 ->
    dict_get ra parts = Some na ->
    dict_get rb parts = Some nb ->
    _is_cst na && _is_cst nb = false /\ _is_def na || _is_def nb = true.

(** a part fits its range: the range is not empty, the part is as wide
    as the range, and a part that tests as a constant is an instance of
    cst whose pattern is within its width *)
Definition part_fits (k : key) (p : exp) : Prop :=
  0 <= k.1 < k.2 /\ size p = k.2 - k.1
  /\ (_is_cst p = true ->
      exists v s r, p = Cst v (k.2 - k.1) s r /\ 0 <= v < 2 ^ (k.2 - k.1)).

(** the dictionary of a composite as comp.__setitem__ keeps it: distinct
    keys, parts that fit their ranges, ranges that do not overlap *)
Definition parts_ok (parts : list (key * exp)) : Prop :=
  NoDup (dict_keys parts)
  /\ (forall k p, dict_get k parts = Some p -> part_fits k p)
  /\ (forall k1 k2 p1 p2,
        dict_get k1 parts = Some p1 -> dict_get k2 parts = Some p2 ->
        k1 <> k2 -> k1.2 <= k2.1 \/ k2.2 <= k1.1).

(** one merge of comp.restruct: two ranges [ra], [rb] that follow each
    other in the sorted keys and touch, both constants (then the new part
    is their merged constant) or both undefined (then it is top), are
    replaced by the one range that spans both; the other parts stay *)
Inductive merge_step (parts : list (key * exp)) : list (key * exp) -> Prop :=
| merge_step_intro (l1 l2 : list key) (ra rb : key) (na nb c : exp) :
    sort_keys (dict_keys parts) = (l1 ++ ra :: rb :: l2)%list ->
    ra.2 = rb.1 ->
    dict_get ra parts = Some na ->
    dict_get rb parts = Some nb ->
    (_is_cst na && _is_cst nb = true /\ merge_cst na nb = Ok c)
    \/ (_is_cst na && _is_cst nb = false /\ _is_def na || _is_def nb = false
        /\ c = top (rb.2 - ra.1)) ->
    merge_step parts
               (dict_del rb (dict_del ra (dict_set (ra.1, rb.2) c parts))).

(** the part [p'] at [k'] holds what the part [p] at [k] held: a
    constant is inside a constant with the same bits at the same
    positions, a defined part that is not a constant is the same part at
    the same range, an undefined part is inside an undefined part *)
Definition part_within (k : key) (p : exp) (k' : key) (p' : exp) : Prop :=
  k'.1 <= k.1 /\ k.2 <= k'.2
  /\ if _is_cst p then
       exists v n s r v' n' s' r',
         p = Cst v n s r /\ p' = Cst v' n' s' r'
         /\ forall i, k.1 <= i < k.2 ->
                      Z.testbit v' (i - k'.1) = Z.testbit v (i - k.1)
     else if _is_def p then k' = k /\ p' = p
     else _is_def p' = false /\ _is_cst p' = false.

(** every part of [parts] is held by a part of [parts'] *)
Definition same_content (parts parts' : list (key * exp)) : Prop :=
  forall k p, dict_get k parts = Some p ->
              exists k' p', dict_get k' parts' = Some p'
                            /\ part_within k p k' p'.

(** the parts lie within [[0, n)] and every bit of it belongs to a part *)
Definition parts_cover (n : Z) (parts : list (key * exp)) : Prop :=
  (forall k p, dict_get k parts = Some p -> k.2 <= n)
  /\ (forall i, 0 <= i < n ->
                exists k p, dict_get k parts = Some p /\ k.1 <= i < k.2).

(** every part tests as a constant *)
Definition all_cst (parts : list (key * exp)) : Prop :=
  forall k p, dict_get k parts = Some p -> _is_cst p = true.

(** the words used to state what a computation does to the store *)
Module StoreSpec.
Import Store.

(** a relation between the store before and after a computation that
    holds of every step holds of the whole computation *)
Definition preserves {A : Type} (P : heap -> heap -> Prop) (m : M A) : Prop :=
  forall h, P h (m h).2.

(** every object of the store is still there, with the same fields
    except maybe [sf] *)
Definition same_patterns (h h' : heap) : Prop :=
  forall l o, h !! l = Some o ->
              exists o', h' !! l = Some o' /\ pattern o' = pattern o.

(** every object of the store is still there, unchanged *)
Definition unchanged (h h' : heap) : Prop :=
  forall l o, h !! l = Some o -> h' !! l = Some o.

(** every object of the store but the one at [self] is unchanged *)
Definition unchanged_but (self : loc) (h h' : heap) : Prop :=
  forall l o, l <> self -> h !! l = Some o -> h' !! l = Some o.

(** a computation that returns a new constant *)
Definition allocates (m : M loc) : Prop :=
  forall h x, (m h).1 = Ok x ->
              h !! x = None /\ exists v sz s, (m h).2 !! x = Some (OCst v sz s).

(** what [tst(t, l, r)] does when __new__ hands back the existing
    object [x] (one of [l], [r]): nothing if [x] is not a conditional;
    otherwise __init__ runs on [x] *)
Definition reinit (t l r x : loc) (h : heap) : heap :=
  match h !! x, h !! l with
  | Some (OTst _ _ _ _ _), Some ol => <[x := OTst t l r (osize ol) false]> h
  | _, _ => h
  end.

End StoreSpec.

(** the complexity threshold [conf.Cas.complexity] leaves operands of
    complexity at most [c] alone: it is switched off (not positive) or at
    least [c] *)
Definition threshold_allows (cfg : config) (c : Z) : Prop :=
  cas_complexity cfg <= 0 \/ c <= cas_complexity cfg.

(** the bit-ownership index [smask] of a composite of width [n] agrees
    with its dictionary: it has one entry per bit, and a bit that names a
    key lies in the range of that key, which is in the dictionary and
    within the width *)
Definition smask_ok (n : Z) (smask : list (option key))
           (parts : list (key * exp)) : Prop :=
  Z.of_nat (length smask) = n
  /\ forall (i : nat) (k : key),
       smask !! i = Some (Some k) ->
       is_Some (dict_get k parts)
       /\ 0 <= k.1 <= Z.of_nat i /\ Z.of_nat i < k.2 <= n.

Definition comp_ok (e : exp) : Prop :=
  match e with
  | Comp n _ smask parts => smask_ok n smask parts
  | _ => False
  end.

(** the same up to the positions excused by [X], while comp.cut is at
    work *)
Definition index_inv (n : Z) (X : nat -> key -> Prop)
           (smask : list (option key)) (parts : list (key * exp)) : Prop :=
  Z.of_nat (length smask) = n
  /\ forall (i : nat) (k : key),
       smask !! i = Some (Some k) ->
       (0 <= k.1 <= Z.of_nat i /\ Z.of_nat i < k.2 <= n)
       /\ (is_Some (dict_get k parts) \/ X i k).

(** * Properties *)

(** ** Slicing (C9, C10) *)

Lemma checkarg_slice_spec (R : Type) (f : exp -> pyslice -> res R)
      (e : exp) (a b : Z) :
  checkarg_slice f e (slice_of a b)
  = if in_bounds a b (size e) then f e (Slice (Some a) (Some b) None)
    else Raise ValueError.
Proof.
  unfold checkarg_slice, slice_of, in_bounds; simpl.
  destruct (Z.ltb_spec a 0), (Z.ltb_spec (size e) b), (Z.leb_spec b a),
    (Z.leb_spec 0 a), (Z.ltb_spec a b), (Z.leb_spec b (size e));
    simpl; try reflexivity; lia.
Qed.

Lemma mask_ok (n : Z) : 0 <= n -> mask n = Ok (2 ^ n - 1).
Proof.
  intros Hn. unfold mask, py_lshift.
  destruct (Z.ltb_spec n 0); [lia |]. simpl.
  by rewrite Z.shiftl_1_l.
Qed.

Lemma plain_getitem_ok (E : engine) (e : exp) (a b : Z) :
  in_bounds a b (size e) = true -> plain_slicing e = true ->
  exists r, getitem_body E e e (Slice (Some a) (Some b) None) = Ok r.
Proof.
  unfold in_bounds. intros Hin Hplain.
  apply andb_prop in Hin as [Hin Hb]. apply andb_prop in Hin as [Ha Hab].
  apply Z.leb_le in Ha. apply Z.ltb_lt in Hab.
  assert (Hslicer : forall x, plain_slicing x = true ->
            match x with Cst _ _ _ _ => False | _ => True end ->
            exists r, slicer E x a (b - a) = Ok r).
  { intros x Hx Hc. unfold slicer.
    destruct (negb (_is_def x)); [eauto |].
    destruct ((a =? 0) && (b - a =? size x)); [eauto |].
    destruct x; try discriminate Hx; try contradiction;
      unfold plain_slicing in Hx; try apply negb_true_iff in Hx;
      rewrite ?Hx; unfold slc_new; simpl; eauto.
    destruct (_is_reg _); simpl; eauto. }
  destruct e; try discriminate Hplain;
    try (apply Hslicer; [exact Hplain | exact I]).
  unfold getitem_body, cst_getitem; simpl.
  assert (Ea : match a with 0 => 0 | _ => a end = a) by (by destruct a).
  assert (Eb : match b with 0 => size0 | _ => b end = b)
    by (destruct b; [lia | done | done]).
  rewrite Ea, Eb. unfold py_rshift.
  destruct (Z.ltb_spec a 0); [lia |]. simpl.
  unfold cst. rewrite mask_ok by lia. simpl. eauto.
Qed.

(** X25. The bounds check of _checkarg_slice.  For every expression
    [e] of width [n], [e[start:stop]] raises ValueError whenever
    [start < 0], [stop > n] or [stop <= start], whatever the class of
    [e], and the check passes exactly when
    [0 <= start < stop <= n]: the decorator then hands the slice over to
    the method (for the base class, to [slicer]).  The check runs before
    the method body, so nothing is built when it fails.  For the classes
    that slice through exp.__getitem__ or cst.__getitem__ the method then
    returns an expression. *)
Theorem slice_bounds_check (E : engine) (e : exp) (a b : Z) :
  (forall (R : Type) (f : exp -> pyslice -> res R),
      checkarg_slice f e (slice_of a b)
      = if in_bounds a b (size e) then f e (Slice (Some a) (Some b) None)
        else Raise ValueError)
  /\ getitem E e (slice_of a b)
     = (if in_bounds a b (size e)
        then getitem_body E e e (Slice (Some a) (Some b) None)
        else Raise ValueError)
  /\ checkarg_slice (exp_getitem E) e (slice_of a b)
     = (if in_bounds a b (size e) then slicer E e a (b - a)
        else Raise ValueError)
  /\ (in_bounds a b (size e) = false <-> a < 0 \/ size e < b \/ b <= a)
  /\ (in_bounds a b (size e) = true -> plain_slicing e = true ->
      exists r, getitem E e (slice_of a b) = Ok r).
Proof.
  split; [| split; [| split; [| split; [split |]]]].
  - intros R f. apply checkarg_slice_spec.
  - unfold getitem. apply checkarg_slice_spec.
  - rewrite checkarg_slice_spec. reflexivity.
  - unfold in_bounds. intros H.
    destruct (Z.leb_spec 0 a), (Z.ltb_spec a b), (Z.leb_spec b (size e));
      simpl in H; try discriminate; lia.
  - unfold in_bounds. intros H.
    destruct (Z.leb_spec 0 a), (Z.ltb_spec a b), (Z.leb_spec b (size e));
      simpl; try reflexivity; lia.
  - intros Hin Hplain. unfold getitem.
    rewrite checkarg_slice_spec, Hin.
    by apply plain_getitem_ok.
Qed.

Lemma slice_bounds_check_witness :
  in_bounds 8 16 (size (reg "a" 32)) = true
  /\ plain_slicing (reg "a" 32) = true
  /\ exists r,
      getitem (engine_at (ascii_config 0) 0) (reg "a" 32) (slice_of 8 16)
      = Ok r.
Proof.
  split; [reflexivity | split; [reflexivity |]].
  apply (slice_bounds_check
           (engine_at (ascii_config 0) 0) (reg "a" 32) 8 16); reflexivity.
Defined.

(** the loop of comp.__getitem__ over bits that no part owns: it walks
    to the end of the range and builds nothing *)
Lemma comp_getitem_loop_gap (E : engine) (fuel : nat)
      (smask : list (option key)) (parts : list (key * exp))
      (sto : Z) (r : exp) (b sta l : Z) :
  0 <= b -> 0 <= sta -> l - b <= Z.of_nat fuel ->
  (forall i : nat, sta <= Z.of_nat i < sta + (l - b) ->
                   smask !! i = Some None) ->
  comp_getitem_loop E fuel smask parts sto r b sta l
  = Ok (r, sta + Z.max 0 (l - b)).
Proof.
  revert b sta. induction fuel as [| fuel IH]; intros b sta Hb Hsta Hf Hnone.
  - cbn [comp_getitem_loop]. destruct (Z.ltb_spec b l); [lia |].
    do 2 f_equal. lia.
  - cbn [comp_getitem_loop]. destruct (Z.ltb_spec b l) as [Hlt | Hge].
    + unfold list_index. destruct (Z.ltb_spec sta 0); [lia |].
      destruct (Z.ltb_spec sta 0); [lia |].
      rewrite (Hnone (Z.to_nat sta)) by lia. cbn [mbind res_bind].
      rewrite IH; [| lia | lia | lia |].
      * do 2 f_equal. lia.
      * intros i Hi. apply Hnone. lia.
    + do 2 f_equal. lia.
Qed.

(** C9, on a composite with bits that no part owns.  For a range
    [a:b] within bounds that is not the whole composite, is not the key of
    a part and covers unassigned bits only, comp.__getitem__ leaves its
    loop with [start] moved to [stop] and calls
    [slicer(self, start, stop - start)], which takes the empty slice
    [self[b:b]]: the bounds check of that inner slice raises ValueError.
    So a slice within bounds raises the bounds error. *)
Theorem C9_composite_gap_raises (cfg : config) (fuel : nat) (n : Z) (s : bool)
        (smask : list (option key)) (parts : list (key * exp)) (a b : Z) :
  in_bounds a b n = true -> (a, b) <> (0, n) ->
  dict_get (a, b) parts = None ->
  (forall i : nat, a <= Z.of_nat i < b -> smask !! i = Some None) ->
  in_bounds a b (size (Comp n s smask parts)) = true
  /\ py_getitem cfg (S (S fuel)) (Comp n s smask parts) (slice_of a b)
     = Raise ValueError.
Proof.
  intros Hin Hne Hkey Hnone. split; [exact Hin |].
  unfold py_getitem.
  change (r_getitem (engine_at cfg (S (S fuel))))
    with (getitem (engine_at cfg (S fuel))).
  unfold getitem. rewrite checkarg_slice_spec. cbn [size]. rewrite Hin.
  unfold in_bounds in Hin.
  apply andb_prop in Hin as [[Ha%Z.leb_le Hab%Z.ltb_lt]%andb_prop Hb%Z.leb_le].
  cbn [getitem_body comp_getitem start stop].
  assert (or_else (Some b) n = b) as ->
    by (destruct b; [lia | done | done]).
  assert (or_else (Some a) 0 = a) as -> by (by destruct a).
  rewrite Hkey.
  assert (Hfull : (a =? 0) && (b =? n) = false).
  { apply andb_false_iff.
    destruct (Z.eqb_spec a 0) as [-> |]; [| by left].
    destruct (Z.eqb_spec b n) as [-> |]; [| by right]. done. }
  rewrite Hfull.
  rewrite comp_getitem_loop_gap; [| lia | lia | lia |].
  2: { intros i Hi. apply Hnone. lia. }
  cbn [mbind res_bind set_sf comp comp_restruct].
  unfold restruct_fuel. cbn [length restruct restruct_scan dict_keys map
                              sort_keys foldr mbind res_bind].
  replace (a + Z.max 0 (b - a - 0)) with b by lia.
  unfold slicer.
  change (_is_def (Comp n s smask parts)) with true. cbn [negb].
  assert (Hb0 : (b =? 0) && (b - b =? size (Comp n s smask parts)) = false).
  { apply andb_false_iff. left. apply Z.eqb_neq. lia. }
  rewrite Hb0.
  change (_is_mem (Comp n s smask parts) || _is_cmp (Comp n s smask parts))
    with true.
  cbv iota.
  change (r_getitem (engine_at cfg (S fuel)))
    with (getitem (engine_at cfg fuel)).
  unfold getitem, checkarg_slice, slice_of.
  cbn [step start stop size].
  destruct (Z.ltb_spec b 0); [lia |].
  destruct (Z.ltb_spec n (b + (b - b))); [lia |].
  by destruct (Z.leb_spec (b + (b - b)) b); [| lia].
Qed.

(** the composite of 16 bits with the register [al] written at [0:8]:
    the slice [8:16] raises *)
Lemma C9_failing_input :
  let c := Comp 16 false
                (list_repeat (Some (0, 8)) 8 ++ list_repeat None 8)%list
                [((0, 8), reg "al" 8)] in
  py_setitem (ascii_config 0) 2 (comp 16) (slice_of 0 8) (reg "al" 8) = Ok c
  /\ (in_bounds 8 16 16 = true /\ (8, 16) <> (0, 16))
  /\ py_getitem (ascii_config 0) 2 c (slice_of 8 16) = Raise ValueError.
Proof.
  intros c. split; [reflexivity |].
  split; [split; [reflexivity | discriminate] |].
  apply (C9_composite_gap_raises (ascii_config 0) 0 16 false _ _ 8 16);
    [reflexivity | discriminate | reflexivity |].
  intros i Hi.
  do 16 (destruct i as [| i]; [first [reflexivity | lia] |]). lia.
Defined.

(** C10. For every expression [x] that is not defined (etype 0 or
    negative: an undefined placeholder, Top, a widened vector) and every
    position and width, [slicer(x, pos, size)] is [top(size)], also when
    the slice covers the whole of [x]. *)
Theorem C10_slicer_undefined_is_top (E : engine) (x : exp) (pos n : Z) :
  _is_def x = false -> slicer E x pos n = Ok (top n).
Proof.
  intros H. unfold slicer. rewrite H. reflexivity.
Qed.

Lemma C10_witness :
  _is_def (void 8) = false
  /\ slicer (engine_at (ascii_config 0) 0) (void 8) 0 8 = Ok (top 8).
Proof.
  split; [reflexivity | apply C10_slicer_undefined_is_top; reflexivity].
Defined.

(** ** Boolean coercion (C7) *)

(** C7, as stated, fails: a vector whose only alternative is the 1-bit
    constant 1 is not a constant, and coerces to True. *)
Lemma C7_counterexample :
  vec_new [bit1] = Ok (Vec [bit1] 1 false)
  /\ _is_cst (Vec [bit1] 1 false) = false
  /\ py_bool (Vec [bit1] 1 false) = true.
Proof. repeat split. Qed.

(** C7, amended.  Boolean coercion yields True exactly for a 1-bit
    constant of pattern 1 and for a vector all of whose alternatives
    coerce to True (the empty vector included); it yields False for every
    other expression. *)
Theorem C7_bool_coercion (e : exp) :
  py_bool e = true
  <-> (exists s r, e = Cst 1 1 s r)
      \/ (exists l n s, e = Vec l n s /\ Forall (fun x => py_bool x = true) l).
Proof.
  split.
  - destruct e; simpl; try discriminate.
    + intros H. apply andb_prop in H as [H1 H2].
      apply Z.eqb_eq in H1, H2. subst. left. eauto.
    + intros H. right. exists l, size0, sf0. split; [reflexivity |].
      apply Forall_forall. intros x Hx.
      rewrite forallb_forall in H. apply H. by apply list_elem_of_In.
  - intros [(s & r & ->) | (l & n & s & -> & H)]; simpl; [reflexivity |].
    apply forallb_forall. intros x Hx.
    rewrite Forall_forall in H. apply H. by apply list_elem_of_In.
Qed.

(** ** Top absorption (C1) *)

(** The operator node built for [Top(n) ** r] with a register [r] of
    width [n] has width [2n]. *)
Lemma op_new_pow_size (n : Z) (r : string) :
  op_new OP_MUL2 (top n) (reg r n)
  = Ok (Op (Operator OP_MUL2 false) (top n) (reg r n) (n * 2) false 1).
Proof.
  unfold op_new; simpl. rewrite Z.eqb_refl. reflexivity.
Qed.

(** C1, at the failing inputs [oper("**", top(n), reg(r, n))] and
    [oper("**", reg(r, n), top(n))]: op.simplify returns the Top operand
    itself, of width [n], although the node has width [2n]; for [*] the
    same path gives the right width [n], and for a comparison
    eqn2_helpers gives [top(e.size)], of width 1. *)
Theorem C1_pow_returns_operand_width (cfg : config) (fuel : nat)
        (n : Z) (r : string) :
  py_oper cfg (S (S fuel)) OP_MUL2 (top n) (reg r n) = Ok (top n)
  /\ py_oper cfg (S (S fuel)) OP_MUL2 (reg r n) (top n) = Ok (top n)
  /\ py_oper cfg (S (S fuel)) OP_MUL (top n) (reg r n) = Ok (top n)
  /\ py_oper cfg (S (S fuel)) OP_EQ (top n) (reg r n) = Ok (top 1)
  /\ (x ← op_new OP_MUL2 (top n) (reg r n); Ok (size x)) = Ok (n * 2).
Proof.
  unfold py_oper, oper, op_new; simpl.
  rewrite Z.eqb_refl; simpl.
  split; [| split; [| split; [| split]]]; try reflexivity.
  unfold simp; simpl. unfold eqn2_helpers, eqn2_threshold; simpl.
  destruct (0 <? cas_complexity cfg); simpl; [| reflexivity].
  destruct (negb (Qle_bool _ _)); simpl; reflexivity.
Qed.

(** ** Idempotence of simplify (C2) *)


(** the classes that inherit exp.simplify get their receiver back *)
Lemma simplify_leaf (cfg : config) (fuel : nat) (k : kargs) (e : exp) :
  is_leaf e = true -> py_simplify cfg (S fuel) k e = Ok e.
Proof.
  destruct e; simpl; try discriminate; reflexivity.
Qed.

(** ** Pointers (C3) *)

(** C3, at the failing input [ptr(a * 4 + 1 - 1)]: the operators build
    [((a*0x4)-0x0)], that is a base minus the constant 0; extract_offset
    simplifies it to [(a*0x4)] and then reads the operator of the
    expression it was given ([-]) instead of the operator of the
    simplified one ([*]): the pointer gets base [a] and displacement
    [-4]. *)
Theorem C3_extract_offset_wrong_operator :
  let cfg := ascii_config 10000 in
  (x ← py_oper cfg 8 OP_MUL (reg "a" 32) (Cst 4 32 false None);
   y ← py_oper cfg 8 OP_ADD x (Cst 1 32 false None);
   py_oper cfg 8 OP_MIN y (Cst 1 32 false None)) = Ok c3_offset_expr
  /\ str cfg c3_offset_expr = Ok "((a*0x4)-0x0)"
  /\ (x ← py_simplify cfg 8 no_kargs c3_offset_expr; str cfg x)
     = Ok "(a*0x4)"
  /\ py_ptr cfg 8 c3_offset_expr None 0
     = Ok (Ptr (reg "a" 32) (-4) None 32 false)
  /\ (p ← py_ptr cfg 8 c3_offset_expr None 0; str cfg p) = Ok "(a-4)".
Proof. vm_compute. repeat split. Qed.

(** ** Arithmetic of constants *)

Lemma cst_ok (v n : Z) :
  0 <= n -> cst v n = Ok (Cst (v mod 2 ^ n) n (v <? 0) None).
Proof.
  intros Hn. unfold cst. rewrite (mask_ok n Hn). simpl.
  replace (2 ^ n - 1) with (Z.ones n) by (rewrite Z.ones_equiv; lia).
  by rewrite Z.land_ones.
Qed.

Lemma lxor_ones_low (v n : Z) :
  0 <= n -> 0 <= v < 2 ^ n -> Z.lxor v (2 ^ n - 1) = 2 ^ n - 1 - v.
Proof.
  intros Hn Hv.
  replace (2 ^ n - 1) with (Z.ones n) by (rewrite Z.ones_equiv; lia).
  rewrite Z.sub_nocarry_ldiff.
  - apply Z.bits_inj'. intros i Hi.
    rewrite Z.lxor_spec, Z.ldiff_spec.
    destruct (Z.ltb_spec i n).
    + rewrite Z.ones_spec_low by lia. by destruct (Z.testbit v i).
    + rewrite Z.ones_spec_high by lia.
      assert (Z.testbit v i = false) as ->; [| reflexivity].
      destruct (Z.eq_dec v 0) as [-> | Hv0]; [apply Z.bits_0 |].
      apply Z.bits_above_log2; [lia |].
      apply Z.log2_lt_pow2; [lia |].
      eapply Z.lt_le_trans; [apply Hv |]. apply Z.pow_le_mono_r; lia.
  - apply Z.bits_inj'. intros i Hi.
    rewrite Z.ldiff_spec, Z.bits_0.
    destruct (Z.ltb_spec i n).
    + rewrite Z.ones_spec_low by lia. apply andb_false_r.
    + assert (Z.testbit v i = false) as ->; [| reflexivity].
      destruct (Z.eq_dec v 0) as [-> | Hv0]; [apply Z.bits_0 |].
      apply Z.bits_above_log2; [lia |].
      apply Z.log2_lt_pow2; [lia |].
      eapply Z.lt_le_trans; [apply Hv |]. apply Z.pow_le_mono_r; lia.
Qed.

Lemma pow2_split (n : Z) : 1 <= n -> 2 ^ n = 2 * 2 ^ (n - 1).
Proof.
  intros Hn. replace n with (1 + (n - 1)) at 1 by lia.
  rewrite Z.pow_add_r by lia. reflexivity.
Qed.

Lemma cst_value_signed (v n : Z) :
  1 <= n -> 0 <= v < 2 ^ n -> cst_value v n true = Ok (signed_interp v n).
Proof.
  intros Hn Hv. unfold cst_value, py_rshift, signed_interp.
  destruct (Z.ltb_spec (n - 1) 0); [lia |]. simpl.
  rewrite Z.shiftr_div_pow2 by lia.
  rewrite (Z.mod_small v) by lia.
  pose proof (pow2_split n Hn) as Hp.
  assert (0 < 2 ^ (n - 1)) by (apply Z.pow_pos_nonneg; lia).
  destruct (Z.ltb_spec v (2 ^ (n - 1))).
  - rewrite Z.div_small by lia. reflexivity.
  - assert (v / 2 ^ (n - 1) = 1) as ->.
    { symmetry. apply (Z.div_unique v (2 ^ (n - 1)) 1 (v - 2 ^ (n - 1))); lia. }
    simpl. rewrite (mask_ok n) by lia. simpl.
    rewrite lxor_ones_low by lia. f_equal. lia.
Qed.

Lemma signed_interp_range (v n : Z) :
  1 <= n -> - 2 ^ (n - 1) <= signed_interp v n < 2 ^ (n - 1).
Proof.
  intros Hn. unfold signed_interp.
  pose proof (pow2_split n Hn).
  assert (0 < 2 ^ (n - 1)) by (apply Z.pow_pos_nonneg; lia).
  pose proof (Z.mod_pos_bound v (2 ^ n) ltac:(lia)).
  destruct (Z.ltb_spec (v mod 2 ^ n) (2 ^ (n - 1))); lia.
Qed.

(** the value of [cst(x, m)] is [x] when [x] fits in [m] signed bits *)
Lemma cst_value_of_cst (x m : Z) :
  1 <= m -> - 2 ^ (m - 1) <= x < 2 ^ (m - 1) ->
  cst_value (x mod 2 ^ m) m (x <? 0) = Ok x.
Proof.
  intros Hm Hx. pose proof (pow2_split m Hm).
  destruct (Z.ltb_spec x 0).
  - assert (Hp : x mod 2 ^ m = x + 2 ^ m).
    { symmetry. apply (Z.mod_unique x (2 ^ m) (-1)); lia. }
    rewrite cst_value_signed by (rewrite ?Hp; lia).
    unfold signed_interp. rewrite Zmod_mod, Hp.
    destruct (Z.ltb_spec (x + 2 ^ m) (2 ^ (m - 1))); [lia |]. f_equal. lia.
  - simpl. rewrite Z.mod_small by lia. reflexivity.
Qed.

(** ** Constants and conditionals in the store (C4, C6, C8) *)

Module StoreFacts.
Import Store StoreSpec.

Section Preservation.
Variable P : heap -> heap -> Prop.
Hypothesis P_refl : forall h, P h h.
Hypothesis P_trans : forall h1 h2 h3, P h1 h2 -> P h2 h3 -> P h1 h3.

Lemma preserves_unit {A : Type} (a : A) : preserves P (munit a).
Proof. intros h. apply P_refl. Qed.

Lemma preserves_lift {A : Type} (r : res A) : preserves P (lift r).
Proof. intros h. apply P_refl. Qed.

Lemma preserves_get (l : loc) : preserves P (get_obj l).
Proof. intros h. unfold get_obj. destruct (h !! l); apply P_refl. Qed.

Lemma preserves_bind {A B : Type} (m : M A) (f : A -> M B) :
  preserves P m -> (forall a, preserves P (f a)) -> preserves P (mbind' m f).
Proof.
  intros Hm Hf h. unfold mbind'. specialize (Hm h).
  destruct (m h) as [[a | e | |] h']; simpl in *; try assumption.
  eapply P_trans; [exact Hm | apply Hf].
Qed.
End Preservation.

Lemma same_patterns_refl h : same_patterns h h.
Proof. intros l o H. eauto. Qed.

Lemma same_patterns_trans h1 h2 h3 :
  same_patterns h1 h2 -> same_patterns h2 h3 -> same_patterns h1 h3.
Proof.
  intros H1 H2 l o Hl.
  destruct (H1 l o Hl) as (o' & Hl' & E1).
  destruct (H2 l o' Hl') as (o'' & Hl'' & E2).
  exists o''. split; [assumption | congruence].
Qed.

Lemma unchanged_refl h : unchanged h h.
Proof. intros l o H. exact H. Qed.

Lemma unchanged_trans h1 h2 h3 :
  unchanged h1 h2 -> unchanged h2 h3 -> unchanged h1 h3.
Proof. intros H1 H2 l o Hl. eauto. Qed.

Lemma unchanged_but_refl self h : unchanged_but self h h.
Proof. intros l o _ H. exact H. Qed.

Lemma unchanged_but_trans self h1 h2 h3 :
  unchanged_but self h1 h2 -> unchanged_but self h2 h3 ->
  unchanged_but self h1 h3.
Proof. intros H1 H2 l o Hne Hl. eauto. Qed.

Lemma fresh_lookup (h : heap) : h !! fresh (dom h) = None.
Proof. apply not_elem_of_dom. apply is_fresh. Qed.

Lemma unchanged_new (o : obj) : preserves unchanged (new_obj o).
Proof.
  intros h l o' Hl. unfold new_obj; simpl.
  rewrite lookup_insert_ne; [assumption |].
  intros <-. rewrite fresh_lookup in Hl. discriminate.
Qed.

Lemma unchanged_same_patterns h h' : unchanged h h' -> same_patterns h h'.
Proof. intros H l o Hl. exists o. split; [by apply H | reflexivity]. Qed.

Lemma unchanged_unchanged_but self h h' :
  unchanged h h' -> unchanged_but self h h'.
Proof. intros H l o _ Hl. by apply H. Qed.

Lemma same_patterns_new (o : obj) : preserves same_patterns (new_obj o).
Proof. intros h. apply unchanged_same_patterns, unchanged_new. Qed.

Lemma unchanged_but_new self (o : obj) :
  preserves (unchanged_but self) (new_obj o).
Proof. intros h. apply unchanged_unchanged_but, unchanged_new. Qed.

Lemma pattern_oset_sf (b : bool) (o : obj) : pattern (oset_sf b o) = pattern o.
Proof. destruct o; reflexivity. Qed.

Lemma same_patterns_assign_sf (l : loc) (b : bool) :
  preserves same_patterns (assign_sf l b).
Proof.
  intros h x o Hx. unfold assign_sf, mbind', get_obj, set_obj.
  destruct (h !! l) as [ol |] eqn:Hl; simpl; [| eauto].
  destruct (decide (x = l)) as [-> | Hne].
  - rewrite lookup_insert_eq. rewrite Hl in Hx. injection Hx as ->.
    eexists. split; [reflexivity | apply pattern_oset_sf].
  - rewrite lookup_insert_ne by congruence. eauto.
Qed.

Lemma unchanged_but_assign_sf (l : loc) (b : bool) :
  preserves (unchanged_but l) (assign_sf l b).
Proof.
  intros h x o Hne Hx. unfold assign_sf, mbind', get_obj, set_obj.
  destruct (h !! l) as [ol |] eqn:Hl; simpl; [| assumption].
  rewrite lookup_insert_ne by congruence. assumption.
Qed.

Lemma mbind_ok {A B : Type} (m : M A) (f : A -> M B) (h h1 : heap) (a : A) :
  m h = (Ok a, h1) -> mbind' m f h = f a h1.
Proof. intros H. unfold mbind'. rewrite H. reflexivity. Qed.

Lemma get_obj_ok (l : loc) (h : heap) (o : obj) :
  h !! l = Some o -> get_obj l h = (Ok o, h).
Proof. intros H. unfold get_obj. rewrite H. reflexivity. Qed.

Lemma assign_sf_ok (l : loc) (b : bool) (h : heap) (o : obj) :
  h !! l = Some o -> assign_sf l b h = (Ok tt, <[l := oset_sf b o]> h).
Proof.
  intros H. unfold assign_sf. rewrite (mbind_ok _ _ _ _ _ (get_obj_ok _ _ _ H)).
  reflexivity.
Qed.

Ltac pres_step refl trans :=
  first
    [ apply same_patterns_assign_sf | apply unchanged_but_assign_sf
    | apply same_patterns_new | apply unchanged_new | apply unchanged_but_new
    | apply (preserves_unit _ refl)
    | apply (preserves_lift _ refl)
    | apply (preserves_get _ refl)
    | apply (preserves_bind _ trans); [| intros ?]
    | match goal with
      | |- preserves _ (match ?x with _ => _ end) => destruct x
      end ].

Lemma cst_new_same_patterns v n : preserves same_patterns (cst_new v n).
Proof.
  unfold cst_new. repeat pres_step same_patterns_refl same_patterns_trans.
Qed.

Lemma cst_result_unchanged d self n : preserves unchanged (cst_result d self n).
Proof.
  unfold cst_result. repeat pres_step unchanged_refl unchanged_trans.
Qed.

Lemma cst_method_same_patterns d self n :
  preserves same_patterns (cst_method d self n).
Proof.
  unfold cst_method, cst_result, dunder_assign_sf.
  repeat pres_step same_patterns_refl same_patterns_trans.
Qed.

Lemma cst_method_unchanged_but d self n :
  preserves (unchanged_but self) (cst_method d self n).
Proof.
  unfold cst_method, cst_result, dunder_assign_sf.
  repeat pres_step (unchanged_but_refl self) (unchanged_but_trans self).
Qed.

Lemma cst_method_unchanged d self n :
  d <> D_rshift -> d <> D_floordiv ->
  preserves unchanged (cst_method d self n).
Proof.
  intros H1 H2. unfold cst_method, cst_result, dunder_assign_sf.
  destruct d; try congruence;
    repeat pres_step unchanged_refl unchanged_trans.
Qed.

(** after [self >> n] the receiver is unsigned, after [self // n] it is
    signed *)
Lemma cst_method_self_sf (d : dunder) (b : bool) (self n : loc) (h : heap)
      (v sz : Z) (s : bool) (on : obj) :
  (d = D_rshift /\ b = false) \/ (d = D_floordiv /\ b = true) ->
  h !! self = Some (OCst v sz s) ->
  h !! n = Some on ->
  (cst_method d self n h).2 !! self = Some (OCst v sz b).
Proof.
  intros Hd Ha Hb. unfold cst_method.
  rewrite (mbind_ok _ _ _ _ _ (get_obj_ok _ _ _ Ha)).
  rewrite (mbind_ok _ _ _ _ _ (get_obj_ok _ _ _ Hb)).
  assert (Hc : dunder_checks_sizes d = false)
    by (destruct Hd as [[-> _] | [-> _]]; reflexivity).
  rewrite Hc. simpl.
  assert (Hs : dunder_assign_sf d self h
               = (Ok tt, <[self := OCst v sz b]> h)).
  { destruct Hd as [[-> ->] | [-> ->]]; simpl;
      rewrite (assign_sf_ok _ _ _ _ Ha); reflexivity. }
  rewrite (mbind_ok _ _ _ _ _ Hs).
  destruct (o_is_cst on).
  - apply cst_result_unchanged. apply lookup_insert_eq.
  - apply lookup_insert_eq.
Qed.

Lemma allocates_lift_raise (r : res loc) :
  (forall x, r <> Ok x) -> allocates (lift r).
Proof. intros H h x Hx. simpl in Hx. by apply H in Hx. Qed.

Lemma allocates_new (v sz : Z) (s : bool) : allocates (new_obj (OCst v sz s)).
Proof.
  intros h x Hx. simpl in Hx. injection Hx as <-. split.
  - apply fresh_lookup.
  - exists v, sz, s. simpl. apply lookup_insert_eq.
Qed.

Lemma allocates_bind {A : Type} (m : M A) (f : A -> M loc) :
  preserves same_patterns m -> (forall a, allocates (f a)) ->
  allocates (mbind' m f).
Proof.
  intros Hm Hf h x. unfold mbind'. specialize (Hm h).
  destruct (m h) as [[a | e | |] h1]; simpl in *; try discriminate.
  intros Hx. destruct (Hf a h1 x Hx) as [Hn Hv]. split; [| exact Hv].
  destruct (h !! x) as [o |] eqn:Ho; [| reflexivity].
  destruct (Hm x o Ho) as (o' & Ho' & _). congruence.
Qed.

Ltac alloc_basic :=
  first
    [ apply allocates_new
    | apply allocates_lift_raise; discriminate
    | apply allocates_bind;
      [ repeat pres_step same_patterns_refl same_patterns_trans | intros ? ] ].

Lemma exp_obj_allocates (e : exp) :
  allocates (match exp_obj e with
             | Some o => new_obj o
             | None => lift Outside
             end).
Proof. destruct e; simpl; alloc_basic. Qed.

Ltac alloc_step :=
  first
    [ apply exp_obj_allocates
    | alloc_basic
    | match goal with
      | |- allocates (match ?x with _ => _ end) => destruct x
      end ].

Lemma cst_result_allocates d self n : allocates (cst_result d self n).
Proof. unfold cst_result. repeat alloc_step. Qed.

Lemma cst_method_allocates d self n : allocates (cst_method d self n).
Proof.
  unfold cst_method, dunder_assign_sf. repeat alloc_step;
    apply cst_result_allocates.
Qed.


Ltac pres_store refl trans :=
  first
    [ apply cst_method_same_patterns | apply cst_new_same_patterns
    | pres_step refl trans ].

Lemma operator_call2_same_patterns o l r :
  preserves same_patterns (operator_call2 o l r).
Proof.
  unfold operator_call2, cst_unsigned_cmp, cst_ror, cst_rol, cst_rsub_int.
  repeat pres_store same_patterns_refl same_patterns_trans.
Qed.

Lemma operator_call2_allocates o l r : allocates (operator_call2 o l r).
Proof.
  unfold operator_call2, cst_unsigned_cmp, cst_ror, cst_rol, cst_rsub_int.
  repeat first
    [ apply cst_method_allocates
    | apply allocates_lift_raise; discriminate
    | apply allocates_bind;
      [ repeat pres_store same_patterns_refl same_patterns_trans | intros ? ]
    | match goal with
      | |- allocates (match ?x with _ => _ end) => destruct x
      end ].
Qed.

(** a bitwise operator applied through _operator.__call__ leaves both
    operands unsigned *)
Lemma operator_call2_logic_sf (o : operator) (l r : loc) (h : heap)
      (ol or : obj) :
  symbol o = OP_AND \/ symbol o = OP_OR \/ symbol o = OP_XOR ->
  h !! l = Some ol -> h !! r = Some or ->
  osf <$> (operator_call2 o l r h).2 !! l = Some false
  /\ osf <$> (operator_call2 o l r h).2 !! r = Some false.
Proof.
  intros Hs Hl Hr. unfold operator_call2.
  assert (Hu : op_unsigned o = true)
    by (unfold op_unsigned; destruct Hs as [-> | [-> | ->]]; reflexivity).
  assert (Ha : unary o && in_OP_ARITH (symbol o) = false)
    by (destruct Hs as [-> | [-> | ->]]; apply andb_false_r).
  rewrite Hu, Ha.
  set (h1 := <[l := oset_sf false ol]> h).
  assert (exists or', h1 !! r = Some or' /\ osf (oset_sf false or') = false)
    as (or' & Hr1 & _).
  { subst h1. destruct (decide (l = r)) as [-> | Hne].
    - rewrite lookup_insert_eq. eexists. split; [reflexivity |].
      by destruct ol.
    - rewrite lookup_insert_ne by done. exists or. split; [done |].
      by destruct or. }
  set (h2 := <[r := oset_sf false or']> h1).
  assert (Hseq : (_ <- assign_sf l false ;; assign_sf r false) h = (Ok tt, h2)).
  { rewrite (mbind_ok _ _ _ _ _ (assign_sf_ok _ _ _ _ Hl)).
    fold h1. by rewrite (assign_sf_ok _ _ _ _ Hr1). }
  rewrite (mbind_ok _ _ _ _ _ Hseq).
  assert (H2l : exists o', h2 !! l = Some o' /\ osf o' = false).
  { subst h2. destruct (decide (r = l)) as [-> | Hne].
    - rewrite lookup_insert_eq. eexists. split; [reflexivity |].
      by destruct or'.
    - rewrite lookup_insert_ne by done. subst h1. rewrite lookup_insert_eq.
      eexists. split; [reflexivity |]. by destruct ol. }
  assert (H2r : exists o', h2 !! r = Some o' /\ osf o' = false).
  { subst h2. rewrite lookup_insert_eq. eexists. split; [reflexivity |].
    by destruct or'. }
  destruct H2l as (o1 & H2l & Hf1), H2r as (o2 & H2r & Hf2).
  assert (Hm : forall d, d <> D_rshift -> d <> D_floordiv ->
                    osf <$> (cst_method d l r h2).2 !! l = Some false
                    /\ osf <$> (cst_method d l r h2).2 !! r = Some false).
  { intros d H1 H2. pose proof (cst_method_unchanged d l r H1 H2 h2) as Hp.
    rewrite (Hp _ _ H2l), (Hp _ _ H2r). simpl. by rewrite Hf1, Hf2. }
  destruct Hs as [-> | [-> | ->]]; apply Hm; discriminate.
Qed.

(** C8, as stated, fails: [cst(-1, 8) >> cst(1, 8)] returns the new
    constant 0x7f and leaves its receiver with [sf] False instead of
    True. *)
Lemma C8_counterexample :
  let h : heap := {[ 0%nat := OCst 255 8 true; 1%nat := OCst 1 8 false ]} in
  cst (-1) 8 = Ok (Cst 255 8 true None)
  /\ h !! 0%nat = Some (OCst 255 8 true)
  /\ (cst_method D_rshift 0 1 h).1 = Ok 2%nat
  /\ (cst_method D_rshift 0 1 h).2 !! 2%nat = Some (OCst 127 8 false)
  /\ (cst_method D_rshift 0 1 h).2 !! 0%nat = Some (OCst 255 8 false).
Proof. vm_compute. repeat split. Qed.

(** C8, amended.  Every arithmetic, bitwise, shift and comparison method
    of cst applied to constants returns a new constant and never changes
    the pattern [v] nor the [size] of an object; [sf] is left as it was,
    except that [__rshift__] leaves its receiver unsigned and
    [__floordiv__] leaves it signed.  _operator.__call__ keeps [v] and
    [size] as well, returns a new constant, and for a bitwise operator
    leaves both operands unsigned. *)
Theorem C8_cst_operations_keep_pattern (h : heap) :
  (forall d self n,
      same_patterns h (cst_method d self n h).2
      /\ unchanged_but self h (cst_method d self n h).2
      /\ (d <> D_rshift -> d <> D_floordiv ->
          unchanged h (cst_method d self n h).2)
      /\ (forall x, (cst_method d self n h).1 = Ok x ->
                    h !! x = None
                    /\ exists v sz s,
                        (cst_method d self n h).2 !! x = Some (OCst v sz s)))
  /\ (forall self n v sz s on,
         h !! self = Some (OCst v sz s) -> h !! n = Some on ->
         (cst_method D_rshift self n h).2 !! self = Some (OCst v sz false)
         /\ (cst_method D_floordiv self n h).2 !! self = Some (OCst v sz true))
  /\ (forall o l r,
         same_patterns h (operator_call2 o l r h).2
         /\ (forall x, (operator_call2 o l r h).1 = Ok x ->
                       h !! x = None
                       /\ exists v sz s,
                           (operator_call2 o l r h).2 !! x
                           = Some (OCst v sz s))
         /\ (forall ol or,
                symbol o = OP_AND \/ symbol o = OP_OR \/ symbol o = OP_XOR ->
                h !! l = Some ol -> h !! r = Some or ->
                osf <$> (operator_call2 o l r h).2 !! l = Some false
                /\ osf <$> (operator_call2 o l r h).2 !! r = Some false)).
Proof.
  split; [| split].
  - intros d self n. split; [| split; [| split]].
    + apply cst_method_same_patterns.
    + apply cst_method_unchanged_but.
    + intros H1 H2. by apply cst_method_unchanged.
    + intros x Hx. by apply cst_method_allocates.
  - intros self n v sz s on Ha Hb. split.
    + eapply cst_method_self_sf; eauto.
    + eapply cst_method_self_sf; eauto.
  - intros o l r. split; [| split].
    + apply operator_call2_same_patterns.
    + intros x Hx. by apply operator_call2_allocates.
    + intros ol or Hs Hl Hr. eapply operator_call2_logic_sf; eauto.
Qed.

Lemma C8_witness :
  let h : heap := {[ 0%nat := OCst 255 8 true; 1%nat := OCst 1 8 false ]} in
  h !! 0%nat = Some (OCst 255 8 true)
  /\ h !! 1%nat = Some (OCst 1 8 false)
  /\ (cst_method D_rshift 0 1 h).2 !! 0%nat = Some (OCst 255 8 false).
Proof.
  intros h. split; [reflexivity | split; [reflexivity |]].
  apply (proj1 (proj2 (C8_cst_operations_keep_pattern h)) 0%nat 1%nat
               255 8 true (OCst 1 8 false)); reflexivity.
Defined.


Lemma cst_new_ok (x m : Z) (h : heap) :
  0 <= m ->
  cst_new x m h
  = (Ok (fresh (dom h)),
     <[fresh (dom h) := OCst (x mod 2 ^ m) m (x <? 0)]> h).
Proof.
  intros Hm. unfold cst_new.
  assert (Hl : lift (cst x m) h = (Ok (Cst (x mod 2 ^ m) m (x <? 0) None), h))
    by (unfold lift; by rewrite cst_ok).
  rewrite (mbind_ok _ _ _ _ _ Hl). reflexivity.
Qed.

Lemma value_at_ok (l : loc) (h : heap) (v n : Z) (s : bool) :
  h !! l = Some (OCst v n s) -> value_at l h = (cst_value v n s, h).
Proof.
  intros H. unfold value_at.
  rewrite (mbind_ok _ _ _ _ _ (get_obj_ok _ _ _ H)). reflexivity.
Qed.

(** C6, as stated, fails at width 0: [cst(0, 0).signextend(0)] raises
    ValueError (a negative shift count in [cst.value]), and leaves the
    constant signed; [zeroextend] returns a constant of value 0. *)
Lemma C6_counterexample :
  let h : heap := {[ 0%nat := OCst 0 0 false ]} in
  cst 0 0 = Ok (Cst 0 0 false None)
  /\ (signextend 0 (0 + 0) h).1 = Raise ValueError
  /\ (signextend 0 (0 + 0) h).2 !! 0%nat = Some (OCst 0 0 true)
  /\ (zeroextend 0 (0 + 0) h).1 = Ok 1%nat.
Proof. vm_compute. repeat split. Qed.

(** C6, amended.  For every constant [c] of width [n] and pattern [v],
    and every [k >= 0]: [c.zeroextend(n+k)] is a new constant of width
    [n+k] whose value is [v] read as an unsigned integer; when [n >= 1],
    [c.signextend(n+k)] is a new constant of width [n+k] whose value is
    [v] read as a signed integer.  Both leave [c] as it was. *)
Theorem C6_extend_value (h : heap) (c : loc) (v n k : Z) (s : bool) :
  h !! c = Some (OCst v n s) ->
  0 <= v < 2 ^ n ->
  0 <= n ->
  0 <= k ->
  (exists c',
      zeroextend c (n + k) h = (Ok c', <[c' := OCst v (n + k) false]> h)
      /\ h !! c' = None
      /\ (value_at c' (<[c' := OCst v (n + k) false]> h)).1
         = Ok (unsigned_interp v n))
  /\ (1 <= n ->
      exists c' o,
        signextend c (n + k) h = (Ok c', <[c' := o]> h)
        /\ h !! c' = None
        /\ osize o = n + k
        /\ (value_at c' (<[c' := o]> h)).1 = Ok (signed_interp v n)).
Proof.
  intros Hc Hv Hn Hk. split.
  - exists (fresh (dom h)). unfold zeroextend.
    rewrite (mbind_ok _ _ _ _ _ (get_obj_ok _ _ _ Hc)).
    rewrite Z.max_l by lia. rewrite cst_new_ok by lia.
    assert (2 ^ n <= 2 ^ (n + k)) by (apply Z.pow_le_mono_r; lia).
    rewrite (Z.mod_small v) by lia.
    destruct (Z.ltb_spec v 0); [lia |].
    split; [reflexivity | split; [apply fresh_lookup |]].
    rewrite (value_at_ok _ _ v (n + k) false) by apply lookup_insert_eq.
    simpl. unfold unsigned_interp. by rewrite Z.mod_small by lia.
  - intros Hn1.
    set (x := signed_interp v n).
    exists (fresh (dom h)), (OCst (x mod 2 ^ (n + k)) (n + k) (x <? 0)).
    unfold signextend.
    rewrite (mbind_ok _ _ _ _ _ (get_obj_ok _ _ _ Hc)).
    rewrite (mbind_ok _ _ _ _ _ (assign_sf_ok _ _ _ _ Hc)). simpl.
    assert (Hval : value_at c (<[c := OCst v n true]> h)
                   = (Ok x, <[c := OCst v n true]> h)).
    { rewrite (value_at_ok _ _ v n true) by apply lookup_insert_eq.
      by rewrite cst_value_signed by lia. }
    rewrite (mbind_ok _ _ _ _ _ Hval).
    assert (Hback : assign_sf c s (<[c := OCst v n true]> h) = (Ok tt, h)).
    { rewrite (assign_sf_ok _ _ _ (OCst v n true)) by apply lookup_insert_eq.
      simpl. by rewrite insert_insert_eq, insert_id. }
    rewrite (mbind_ok _ _ _ _ _ Hback).
    rewrite Z.max_l by lia. rewrite cst_new_ok by lia.
    split; [reflexivity | split; [apply fresh_lookup | split; [reflexivity |]]].
    rewrite (value_at_ok _ _ (x mod 2 ^ (n + k)) (n + k) (x <? 0))
      by apply lookup_insert_eq.
    simpl. apply cst_value_of_cst; [lia |].
    pose proof (signed_interp_range v n Hn1) as Hr. fold x in Hr.
    assert (2 ^ (n - 1) <= 2 ^ (n + k - 1)) by (apply Z.pow_le_mono_r; lia).
    lia.
Qed.

Lemma C6_witness :
  let h : heap := {[ 0%nat := OCst 255 8 false ]} in
  h !! 0%nat = Some (OCst 255 8 false)
  /\ 0 <= 255 < 2 ^ 8
  /\ 0 <= 8
  /\ 1 <= 8
  /\ exists c' o,
      signextend 0 (8 + 8) h = (Ok c', <[c' := o]> h)
      /\ h !! c' = None
      /\ osize o = 8 + 8
      /\ (value_at c' (<[c' := o]> h)).1 = Ok (signed_interp 255 8).
Proof.
  intros h.
  assert (H1 : h !! 0%nat = Some (OCst 255 8 false)) by reflexivity.
  assert (H2 : 0 <= 255 < 2 ^ 8) by (simpl; lia).
  assert (H3 : 0 <= 8) by lia.
  assert (H4 : 1 <= 8) by lia.
  split; [exact H1 | split; [exact H2 | split; [exact H3 | split; [exact H4 |]]]].
  exact (proj2 (C6_extend_value h 0%nat 255 8 8 false H1 H2 H3 H3) H4).
Defined.

(** ** The constructor of conditionals (C4) *)

Lemma dom_insert_present (h : heap) (l : loc) (o o' : obj) :
  h !! l = Some o -> dom (<[l := o']> h) = dom h.
Proof.
  intros H. rewrite dom_insert_L.
  apply subseteq_union_1_L, singleton_subseteq_l.
  by eapply elem_of_dom_2.
Qed.

Lemma tst_init_ok (t l r x : loc) (h : heap) (ol or : obj)
      (t0 l0 r0 : loc) (n0 : Z) (s0 : bool) :
  h !! x = Some (OTst t0 l0 r0 n0 s0) ->
  h !! l = Some ol -> h !! r = Some or -> osize ol = osize or ->
  tst___init__ x (CObj t) l r h
  = (Ok tt, <[x := OTst t l r (osize ol) false]> h).
Proof.
  intros Hx Hl Hr Hsz. unfold tst___init__. simpl.
  rewrite (mbind_ok _ _ _ _ _ (eq_refl : munit t h = (Ok t, h))).
  rewrite (mbind_ok _ _ _ _ _ (get_obj_ok _ _ _ Hx)).
  rewrite (mbind_ok _ _ _ _ _ (get_obj_ok _ _ _ Hl)).
  rewrite (mbind_ok _ _ _ _ _ (get_obj_ok _ _ _ Hr)).
  unfold mbind', set_obj. simpl.
  rewrite Hsz, Z.eqb_refl. simpl.
  by rewrite insert_insert_eq.
Qed.

Lemma tst_call_existing (t l r x : loc) (h : heap) (ol or ox : obj) :
  h !! l = Some ol -> h !! r = Some or -> h !! x = Some ox ->
  osize ol = osize or ->
  tst___new__ (CObj t) l r h = (Ok (inl x), h) ->
  tst_call (CObj t) l r h = (Ok x, reinit t l r x h)
  /\ dom (reinit t l r x h) = dom h.
Proof.
  intros Hl Hr Hx Hsz Hnew. unfold tst_call.
  rewrite (mbind_ok _ _ _ _ _ Hnew).
  rewrite (mbind_ok _ _ _ _ _ (get_obj_ok _ _ _ Hx)).
  unfold reinit. rewrite Hx, Hl.
  destruct ox as [| t0 l0 r0 n0 s0 |]; try (split; reflexivity).
  rewrite (mbind_ok _ _ _ _ _
             (tst_init_ok t l r x h ol or _ _ _ _ _ Hx Hl Hr Hsz)).
  split; [reflexivity |].
  by eapply dom_insert_present.
Qed.

(** X26. The short circuit of tst.__new__.  For all objects [l] and [r] of
    equal width: with a condition that is a 1-bit constant of value 1,
    [tst(t, l, r)] returns the object [l] itself, with a 1-bit constant of
    value 0 the object [r] itself; in both cases the store has no new
    object, and it is unchanged when the object returned is not itself a
    conditional.  With a condition that is not a constant, or not 1 bit
    wide, the call returns a new conditional node with fields [t], [l],
    [r], the width of [l] and [sf] False. *)
Theorem tst_short_circuit (h : heap) (t l r : loc) (ot ol or : obj) :
  h !! t = Some ot -> h !! l = Some ol -> h !! r = Some or ->
  osize ol = osize or ->
  (forall s, ot = OCst 1 1 s -> cst_value 1 1 s = Ok 1 ->
             (tst_call (CObj t) l r h).1 = Ok l
             /\ dom (tst_call (CObj t) l r h).2 = dom h
             /\ match ol with
                | OTst _ _ _ _ _ => True
                | _ => (tst_call (CObj t) l r h).2 = h
                end)
  /\ (forall s, ot = OCst 0 1 s ->
                (tst_call (CObj t) l r h).1 = Ok r
                /\ dom (tst_call (CObj t) l r h).2 = dom h
                /\ match or with
                   | OTst _ _ _ _ _ => True
                   | _ => (tst_call (CObj t) l r h).2 = h
                   end)
  /\ (o_is_cst ot = false \/ osize ot <> 1 ->
      h !! fresh (dom h) = None
      /\ tst_call (CObj t) l r h
         = (Ok (fresh (dom h)),
            <[fresh (dom h) := OTst t l r (osize ol) false]> h)).
Proof.
  intros Ht Hl Hr Hsz. split; [| split].
  - intros s -> Hv.
    assert (Hnew : tst___new__ (CObj t) l r h = (Ok (inl l), h)).
    { unfold tst___new__. simpl.
      rewrite (mbind_ok _ _ _ _ _ (eq_refl : munit t h = (Ok t, h))).
      rewrite (mbind_ok _ _ _ _ _ (get_obj_ok _ _ _ Ht)). simpl.
      rewrite (mbind_ok _ _ _ _ _
                 (eq_trans (value_at_ok _ _ _ _ _ Ht)
                           (f_equal (fun x => (x, h)) Hv))).
      reflexivity. }
    destruct (tst_call_existing t l r l h ol or ol Hl Hr Hl Hsz Hnew)
      as [-> Hd].
    split; [reflexivity | split; [exact Hd |]].
    unfold reinit. rewrite Hl. by destruct ol.
  - intros s ->.
    assert (Hv : cst_value 0 1 s = Ok 0) by (destruct s; reflexivity).
    assert (Hnew : tst___new__ (CObj t) l r h = (Ok (inl r), h)).
    { unfold tst___new__. simpl.
      rewrite (mbind_ok _ _ _ _ _ (eq_refl : munit t h = (Ok t, h))).
      rewrite (mbind_ok _ _ _ _ _ (get_obj_ok _ _ _ Ht)). simpl.
      rewrite (mbind_ok _ _ _ _ _
                 (eq_trans (value_at_ok _ _ _ _ _ Ht)
                           (f_equal (fun x => (x, h)) Hv))).
      reflexivity. }
    destruct (tst_call_existing t l r r h ol or or Hl Hr Hr Hsz Hnew)
      as [-> Hd].
    split; [reflexivity | split; [exact Hd |]].
    unfold reinit. rewrite Hr, Hl. by destruct or.
  - intros Hc. split; [apply fresh_lookup |].
    set (x := fresh (dom h)).
    assert (Hx : h !! x = None) by apply fresh_lookup.
    assert (Hnew : tst___new__ (CObj t) l r h
                   = (Ok (inr x), <[x := OTst t l r 0 false]> h)).
    { unfold tst___new__. simpl.
      rewrite (mbind_ok _ _ _ _ _ (eq_refl : munit t h = (Ok t, h))).
      rewrite (mbind_ok _ _ _ _ _ (get_obj_ok _ _ _ Ht)).
      assert (o_is_cst ot && (osize ot =? 1) = false) as ->.
      { destruct Hc as [-> | Hne]; [reflexivity |].
        apply andb_false_iff. right. by apply Z.eqb_neq. }
      reflexivity. }
    assert (Hne : forall y o, h !! y = Some o -> x <> y)
      by (intros y o Hy ->; congruence).
    unfold tst_call. rewrite (mbind_ok _ _ _ _ _ Hnew).
    rewrite (mbind_ok _ _ _ _ _
               (get_obj_ok _ _ _ (lookup_insert_eq _ _ _))).
    set (h1 := <[x := OTst t l r 0 false]> h).
    assert (Hl1 : h1 !! l = Some ol)
      by (subst h1; rewrite lookup_insert_ne by eauto; done).
    assert (Hr1 : h1 !! r = Some or)
      by (subst h1; rewrite lookup_insert_ne by eauto; done).
    rewrite (mbind_ok _ _ _ _ _
               (tst_init_ok t l r x h1 ol or _ _ _ _ _
                  (lookup_insert_eq _ _ _) Hl1 Hr1 Hsz)).
    subst h1. unfold munit. by rewrite insert_insert_eq.
Qed.

Lemma tst_short_circuit_witness :
  let h : heap :=
    {[ 0%nat := OCst 1 1 false; 1%nat := OExp et_reg 32 false;
       2%nat := OExp et_reg 32 false ]} in
  h !! 0%nat = Some (OCst 1 1 false)
  /\ h !! 1%nat = Some (OExp et_reg 32 false)
  /\ h !! 2%nat = Some (OExp et_reg 32 false)
  /\ osize (OExp et_reg 32 false) = osize (OExp et_reg 32 false)
  /\ cst_value 1 1 false = Ok 1
  /\ (tst_call (CObj 0%nat) 1%nat 2%nat h).1 = Ok 1%nat
  /\ dom (tst_call (CObj 0%nat) 1%nat 2%nat h).2 = dom h
  /\ (tst_call (CObj 0%nat) 1%nat 2%nat h).2 = h.
Proof.
  intros h.
  assert (H0 : h !! 0%nat = Some (OCst 1 1 false)) by reflexivity.
  assert (H1 : h !! 1%nat = Some (OExp et_reg 32 false)) by reflexivity.
  assert (H2 : h !! 2%nat = Some (OExp et_reg 32 false)) by reflexivity.
  split; [exact H0 | split; [exact H1 | split; [exact H2 |]]].
  split; [reflexivity | split; [reflexivity |]].
  exact (proj1 (tst_short_circuit h 0%nat 1%nat 2%nat _ _ _ H0 H1 H2
                  eq_refl) false eq_refl eq_refl).
Defined.

(** C4, where the branch returned is itself a conditional.  tst.__new__
    hands back the argument [l] (condition 1) or [r] (condition 0); the
    object is an instance of tst, so the call goes on with tst.__init__
    on it, with the arguments of the call: the conditional that was the
    branch now has the constant as its condition and itself as its own
    branch.  No object is allocated, but the true-branch that the caller
    passed is not what the caller gets back. *)
Theorem C4_branch_conditional_reinitialised (h : heap) (t l r : loc)
        (ol or : obj) :
  h !! l = Some ol -> h !! r = Some or -> osize ol = osize or ->
  (forall t0 l0 r0 n0 s0,
      h !! t = Some (OCst 1 1 false) -> ol = OTst t0 l0 r0 n0 s0 ->
      tst_call (CObj t) l r h = (Ok l, <[l := OTst t l r n0 false]> h))
  /\ (forall s t0 l0 r0 n0 s0,
        h !! t = Some (OCst 0 1 s) -> or = OTst t0 l0 r0 n0 s0 ->
        tst_call (CObj t) l r h = (Ok r, <[r := OTst t l r n0 false]> h)).
Proof.
  intros Hl Hr Hsz. split.
  - intros t0 l0 r0 n0 s0 Ht ->.
    assert (Hnew : tst___new__ (CObj t) l r h = (Ok (inl l), h)).
    { unfold tst___new__. simpl.
      rewrite (mbind_ok _ _ _ _ _ (eq_refl : munit t h = (Ok t, h))).
      rewrite (mbind_ok _ _ _ _ _ (get_obj_ok _ _ _ Ht)). simpl.
      rewrite (mbind_ok _ _ _ _ _ (value_at_ok _ _ _ _ _ Ht)).
      reflexivity. }
    destruct (tst_call_existing t l r l h _ or _ Hl Hr Hl Hsz Hnew)
      as [-> _].
    unfold reinit. by rewrite Hl.
  - intros s t0 l0 r0 n0 s0 Ht ->.
    assert (Hv : cst_value 0 1 s = Ok 0) by (destruct s; reflexivity).
    assert (Hnew : tst___new__ (CObj t) l r h = (Ok (inl r), h)).
    { unfold tst___new__. simpl.
      rewrite (mbind_ok _ _ _ _ _ (eq_refl : munit t h = (Ok t, h))).
      rewrite (mbind_ok _ _ _ _ _ (get_obj_ok _ _ _ Ht)). simpl.
      rewrite (mbind_ok _ _ _ _ _
                 (eq_trans (value_at_ok _ _ _ _ _ Ht)
                           (f_equal (fun x => (x, h)) Hv))).
      reflexivity. }
    destruct (tst_call_existing t l r r h ol _ _ Hl Hr Hr Hsz Hnew)
      as [-> _].
    unfold reinit. rewrite Hr, Hl. simpl in Hsz. by rewrite Hsz.
Qed.

(** [tst(bit1, (c ? a : b), r)]: the conditional [(c ? a : b)] at
    location 4 comes back as [(1 ? itself : r)] *)
Lemma C4_failing_input :
  let h : heap :=
    {[ 0%nat := OCst 1 1 false; 1%nat := OExp et_reg 1 false;
       2%nat := OExp et_reg 32 false; 3%nat := OExp et_reg 32 false;
       4%nat := OTst 1%nat 2%nat 3%nat 32 false;
       5%nat := OExp et_reg 32 false ]} in
  (h !! 4%nat = Some (OTst 1%nat 2%nat 3%nat 32 false)
   /\ h !! 5%nat = Some (OExp et_reg 32 false)
   /\ osize (OTst 1%nat 2%nat 3%nat 32 false) = osize (OExp et_reg 32 false)
   /\ h !! 0%nat = Some (OCst 1 1 false))
  /\ tst_call (CObj 0%nat) 4%nat 5%nat h
     = (Ok 4%nat, <[4%nat := OTst 0%nat 4%nat 5%nat 32 false]> h).
Proof.
  intros h.
  assert (H4 : h !! 4%nat = Some (OTst 1%nat 2%nat 3%nat 32 false))
    by reflexivity.
  assert (H5 : h !! 5%nat = Some (OExp et_reg 32 false)) by reflexivity.
  assert (H0 : h !! 0%nat = Some (OCst 1 1 false)) by reflexivity.
  split; [split_and!; (assumption || reflexivity) |].
  exact (proj1 (C4_branch_conditional_reinitialised h 0%nat 4%nat 5%nat
                  _ _ H4 H5 eq_refl) _ _ _ _ _ H0 eq_refl).
Defined.

End StoreFacts.

(** ** Composite: restruct (C5) *)

Section DictFacts.
Context {V : Type}.
Implicit Types (d : list (key * V)) (k : key) (v : V).

Lemma dict_get_set_eq k v d : dict_get k (dict_set k v d) = Some v.
Proof.
  induction d as [| [k' v'] d IH]; simpl.
  - by rewrite bool_decide_true.
  - destruct (decide (k = k')) as [-> | Hne].
    + rewrite bool_decide_true by done. simpl. by rewrite bool_decide_true.
    + rewrite bool_decide_false by done. simpl.
      by rewrite bool_decide_false.
Qed.

Lemma dict_get_set_ne k k0 v d :
  k0 <> k -> dict_get k0 (dict_set k v d) = dict_get k0 d.
Proof.
  intros Hne. induction d as [| [k' v'] d IH]; simpl.
  - by rewrite bool_decide_false.
  - destruct (decide (k = k')) as [-> | Hk].
    + rewrite bool_decide_true by done. simpl.
      by rewrite !bool_decide_false.
    + rewrite (bool_decide_false (k = k')) by done. simpl.
      by rewrite IH.
Qed.

Lemma dict_get_del_ne k k0 d :
  k0 <> k -> dict_get k0 (dict_del k d) = dict_get k0 d.
Proof.
  intros Hne. induction d as [| [k' v'] d IH]; simpl; [done |].
  destruct (decide (k = k')) as [-> | Hk].
  - rewrite bool_decide_true by done. by rewrite bool_decide_false.
  - rewrite (bool_decide_false (k = k')) by done. simpl. by rewrite IH.
Qed.

Lemma dict_set_length k v d : (length (dict_set k v d) <= S (length d))%nat.
Proof.
  induction d as [| [k' v'] d IH]; simpl; [lia |].
  destruct (bool_decide (k = k')); simpl; lia.
Qed.

Lemma dict_del_length k v d :
  dict_get k d = Some v -> S (length (dict_del k d)) = length d.
Proof.
  induction d as [| [k' v'] d IH]; simpl; [done |].
  destruct (bool_decide (k = k')); simpl; [done |].
  intros H. by rewrite IH.
Qed.

Lemma dict_get_keys k d : is_Some (dict_get k d) <-> k ∈ dict_keys d.
Proof.
  induction d as [| [k' v'] d IH]; simpl.
  - split; [by intros [? ?] | by intros ?%elem_of_nil].
  - destruct (decide (k = k')) as [-> | Hk].
    + rewrite bool_decide_true by done. split; [intros _; left | eauto].
    + rewrite bool_decide_false by done. rewrite IH.
      split; [by right | intros [? | ?]%elem_of_cons; done].
Qed.

Lemma dict_get_elem k v d : dict_get k d = Some v -> (k, v) ∈ d.
Proof.
  induction d as [| [k' v'] d IH]; simpl; [done |].
  destruct (decide (k = k')) as [-> | Hk].
  - rewrite bool_decide_true by done. intros [= ->]. left.
  - rewrite bool_decide_false by done. intros H. right. by apply IH.
Qed.

Lemma dict_keys_set k v d :
  dict_keys (dict_set k v d)
  = if bool_decide (k ∈ dict_keys d) then dict_keys d
    else (dict_keys d ++ [k])%list.
Proof.
  unfold dict_keys.
  induction d as [| [k' v'] d IH]; cbn [dict_set map fst app].
  - rewrite bool_decide_false; [done | apply not_elem_of_nil].
  - destruct (decide (k = k')) as [-> | Hk].
    + rewrite bool_decide_true by done. cbn [map fst].
      rewrite bool_decide_true; [done | left].
    + rewrite (bool_decide_false (k = k')) by done. cbn [map fst].
      rewrite IH.
      destruct (decide (k ∈ map fst d)) as [Hin | Hin].
      * rewrite !bool_decide_true; [done | by right | done].
      * rewrite !bool_decide_false; [done | | done].
        by intros [? | ?]%elem_of_cons.
Qed.

Lemma dict_keys_del_sublist k d : sublist (dict_keys (dict_del k d)) (dict_keys d).
Proof.
  induction d as [| [k' v'] d IH]; simpl; [done |].
  destruct (bool_decide (k = k')); simpl.
  - by apply sublist_cons.
  - by apply sublist_skip.
Qed.

Lemma dict_set_NoDup k v d :
  NoDup (dict_keys d) -> NoDup (dict_keys (dict_set k v d)).
Proof.
  intros H. rewrite dict_keys_set. case_bool_decide; [done |].
  apply NoDup_app. split; [done | split].
  - intros x Hx ?%list_elem_of_singleton. by subst.
  - apply NoDup_singleton.
Qed.

Lemma dict_del_NoDup k d :
  NoDup (dict_keys d) -> NoDup (dict_keys (dict_del k d)).
Proof.
  intros H. eapply sublist_NoDup; [done | apply dict_keys_del_sublist].
Qed.

Lemma dict_del_elem k kv d : kv ∈ dict_del k d -> kv ∈ d.
Proof.
  induction d as [| [k' v'] d IH]; simpl; [done |].
  destruct (bool_decide (k = k')); simpl.
  - by right.
  - intros [-> | ?]%elem_of_cons; [left | right; by apply IH].
Qed.

Lemma dict_set_elem k v kv d : kv ∈ dict_set k v d -> kv = (k, v) \/ kv ∈ d.
Proof.
  induction d as [| [k' v'] d IH]; simpl.
  - intros ?%list_elem_of_singleton. by left.
  - destruct (bool_decide (k = k')); simpl.
    + intros [-> | ?]%elem_of_cons; [by left | right; by right].
    + intros [-> | H]%elem_of_cons; [right; left |].
      destruct (IH H); [by left | right; by right].
Qed.
End DictFacts.

(** *** The sort *)

Lemma sort_insert_perm (k : key) (l : list key) : sort_insert k l ≡ₚ k :: l.
Proof.
  induction l as [| h t IH]; simpl; [done |].
  destruct (k.1 <=? h.1); [done |].
  rewrite IH. apply Permutation_swap.
Qed.

Lemma sort_keys_perm (l : list key) : sort_keys l ≡ₚ l.
Proof.
  induction l as [| h t IH]; simpl; [done |].
  rewrite sort_insert_perm. by rewrite IH.
Qed.

Lemma NoDup_consecutive {A : Type} (l1 l2 : list A) (a b : A) :
  NoDup (l1 ++ a :: b :: l2) -> a <> b.
Proof.
  intros H ->. apply NoDup_app in H as (_ & _ & H).
  apply NoDup_cons in H as [H _]. apply H. left.
Qed.

(** *** The scan *)

Lemma wf_parts_get (parts : list (key * exp)) (k : key) (p : exp) :
  wf_parts parts = true -> dict_get k parts = Some p -> wf_part p = true.
Proof.
  intros Hwf Hg. unfold wf_parts in Hwf. rewrite forallb_forall in Hwf.
  apply dict_get_elem, list_elem_of_In in Hg. by apply (Hwf _ Hg).
Qed.

Lemma merge_cst_total (na nb : exp) :
  wf_part na = true -> wf_part nb = true ->
  _is_cst na && _is_cst nb = true ->
  exists c, merge_cst na nb = Ok c /\ wf_part c = true.
Proof.
  intros Ha Hb Hc. apply andb_prop in Hc as [Ca Cb].
  unfold wf_part in Ha, Hb. rewrite Ca in Ha. rewrite Cb in Hb.
  destruct na as [| | va sa fa ra | | | | | | | | | |]; try discriminate.
  destruct nb as [| | vb sb fb rb | | | | | | | | | |]; try discriminate.
  apply Z.leb_le in Ha, Hb. unfold merge_cst, py_lshift.
  destruct (Z.ltb_spec sa 0); [lia |]. simpl.
  rewrite cst_ok by lia. eexists. split; [reflexivity |].
  unfold wf_part. simpl. apply Z.leb_le. lia.
Qed.

Lemma restruct_scan_cons (parts : list (key * exp)) (ra rb : key)
      (rest : list key) :
  restruct_scan parts (ra :: rb :: rest)
  = if ra.2 =? rb.1 then
      match dict_get ra parts, dict_get rb parts with
      | Some na, Some nb =>
          if _is_cst na && _is_cst nb then
            c ← merge_cst na nb; Ok (Some (ra, rb, c))
          else if negb (_is_def na || _is_def nb) then
            Ok (Some (ra, rb, top (rb.2 - ra.1)))
          else restruct_scan parts (rb :: rest)
      | _, _ => Raise KeyError
      end
    else restruct_scan parts (rb :: rest).
Proof. reflexivity. Qed.

Lemma restruct_scan_total (parts : list (key * exp)) (part : list key) :
  wf_parts parts = true ->
  (forall k, k ∈ part -> is_Some (dict_get k parts)) ->
  exists o, restruct_scan parts part = Ok o.
Proof.
  intros Hwf. induction part as [| ra rest IH]; intros Hin; [by eexists |].
  destruct rest as [| rb rest]; [by eexists |].
  rewrite restruct_scan_cons.
  assert (IH' : exists o, restruct_scan parts (rb :: rest) = Ok o).
  { apply IH. intros k Hk. apply Hin. by right. }
  set (R := restruct_scan parts (rb :: rest)) in *.
  destruct (ra.2 =? rb.1); [| exact IH'].
  destruct (Hin ra ltac:(left)) as [na Hna].
  destruct (Hin rb ltac:(right; left)) as [nb Hnb].
  rewrite Hna, Hnb.
  destruct (_is_cst na && _is_cst nb) eqn:Hc.
  - destruct (merge_cst_total na nb (wf_parts_get _ _ _ Hwf Hna)
                (wf_parts_get _ _ _ Hwf Hnb) Hc) as (c & -> & _).
    by eexists.
  - destruct (negb (_is_def na || _is_def nb)); [by eexists | exact IH'].
Qed.

(** the pair that the scan found *)
Lemma restruct_scan_found (parts : list (key * exp)) (part : list key)
      (ra rb : key) (c : exp) :
  wf_parts parts = true ->
  restruct_scan parts part = Ok (Some (ra, rb, c)) ->
  (exists l1 l2, part = (l1 ++ ra :: rb :: l2)%list)
  /\ is_Some (dict_get ra parts) /\ is_Some (dict_get rb parts)
  /\ wf_part c = true.
Proof.
  intros Hwf. induction part as [| k rest IH]; [discriminate |].
  destruct rest as [| k' rest]; [discriminate |].
  rewrite restruct_scan_cons.
  set (R := restruct_scan parts (k' :: rest)) in *.
  assert (IH' : R = Ok (Some (ra, rb, c)) ->
                (exists l1 l2, k :: k' :: rest = (l1 ++ ra :: rb :: l2)%list)
                /\ is_Some (dict_get ra parts) /\ is_Some (dict_get rb parts)
                /\ wf_part c = true).
  { intros H. destruct (IH H) as ((l1 & l2 & E) & ?). split; [| done].
    exists (k :: l1), l2. by rewrite E. }
  destruct (k.2 =? k'.1); [| exact IH'].
  destruct (dict_get k parts) as [na |] eqn:Hna; [| discriminate].
  destruct (dict_get k' parts) as [nb |] eqn:Hnb; [| discriminate].
  destruct (_is_cst na && _is_cst nb) eqn:Hc.
  - destruct (merge_cst_total na nb (wf_parts_get _ _ _ Hwf Hna)
                (wf_parts_get _ _ _ Hwf Hnb) Hc) as (c' & E & Hwc).
    rewrite E. simpl. intros [= <- <- <-].
    split; [by exists [], rest |]. rewrite Hna, Hnb. eauto.
  - destruct (negb (_is_def na || _is_def nb)); [| exact IH'].
    intros [= <- <- <-].
    split; [by exists [], rest |]. rewrite Hna, Hnb. eauto.
Qed.

(** when the scan finds nothing, no merge applies *)
Lemma restruct_scan_none (parts : list (key * exp)) (part : list key) :
  restruct_scan parts part = Ok None ->
  forall l1 ra rb l2 na nb,
    part = (l1 ++ ra :: rb :: l2)%list ->
    ra.2 = rb.1 ->
    dict_get ra parts = Some na ->
    dict_get rb parts = Some nb ->
    _is_cst na && _is_cst nb = false /\ _is_def na || _is_def nb = true.
Proof.
  induction part as [| k rest IH]; intros Hs l1 ra rb l2 na nb E Hadj Hna Hnb.
  - by destruct l1.
  - destruct rest as [| k' rest]; [by destruct l1 as [| ? [| ? ?]] |].
    rewrite restruct_scan_cons in Hs.
    set (R := restruct_scan parts (k' :: rest)) in *.
    destruct l1 as [| x l1]; simpl in E.
    + injection E as -> -> ->.
      rewrite (proj2 (Z.eqb_eq _ _) Hadj), Hna, Hnb in Hs.
      destruct (_is_cst na && _is_cst nb).
      * destruct (merge_cst na nb); discriminate.
      * split; [done |].
        destruct (_is_def na || _is_def nb); [done | discriminate].
    + injection E as -> E.
      assert (HR : R = Ok None).
      { destruct (x.2 =? k'.1); [| done].
        destruct (dict_get x parts) as [a |]; [| discriminate].
        destruct (dict_get k' parts) as [b |]; [| discriminate].
        destruct (_is_cst a && _is_cst b).
        - destruct (merge_cst a b); discriminate.
        - destruct (negb (_is_def a || _is_def b)); [discriminate | done]. }
      by apply (IH HR l1 ra rb l2 na nb).
Qed.

(** *** The recursion *)

Lemma restruct_unfold (fuel : nat) (smask : list (option key))
      (parts : list (key * exp)) :
  restruct fuel smask parts
  = (found ← restruct_scan parts (sort_keys (dict_keys parts));
     match found with
     | None => Ok (smask, parts)
     | Some (ra, rb, n) =>
         let k := (ra.1, rb.2) in
         let parts1 := dict_del rb (dict_del ra (dict_set k n parts)) in
         let smask1 :=
           list_set_slice smask ra.1 rb.2
                          (list_repeat (Some k) (rb.2 - ra.1)) in
         match fuel with
         | O => OutOfFuel
         | S fuel' => restruct fuel' smask1 parts1
         end
     end).
Proof. destruct fuel; reflexivity. Qed.

Lemma wf_parts_forall (parts : list (key * exp)) :
  wf_parts parts = true <-> forall kp, kp ∈ parts -> wf_part kp.2 = true.
Proof.
  unfold wf_parts. rewrite forallb_forall.
  split; intros H kp Hin; apply H; by apply list_elem_of_In.
Qed.

(** one merge keeps the invariants of the dictionary and shortens it *)
Lemma restruct_merge_step (parts : list (key * exp)) (ra rb : key) (c : exp) :
  wf_parts parts = true ->
  NoDup (dict_keys parts) ->
  restruct_scan parts (sort_keys (dict_keys parts)) = Ok (Some (ra, rb, c)) ->
  let parts1 := dict_del rb (dict_del ra (dict_set (ra.1, rb.2) c parts)) in
  wf_parts parts1 = true
  /\ NoDup (dict_keys parts1)
  /\ (S (length parts1) <= length parts)%nat.
Proof.
  intros Hwf Hnd Hscan parts1.
  destruct (restruct_scan_found _ _ _ _ _ Hwf Hscan)
    as ((l1 & l2 & E) & [na Hna] & [nb Hnb] & Hc).
  assert (Hne : ra <> rb).
  { apply (NoDup_consecutive l1 l2). rewrite <- E.
    by rewrite sort_keys_perm. }
  split; [| split].
  - apply wf_parts_forall. intros kp Hin. subst parts1.
    apply dict_del_elem, dict_del_elem, dict_set_elem in Hin as [-> | Hin];
      [done |].
    by apply (proj1 (wf_parts_forall parts) Hwf).
  - by apply dict_del_NoDup, dict_del_NoDup, dict_set_NoDup.
  - set (parts0 := dict_set (ra.1, rb.2) c parts).
    assert (Ha : is_Some (dict_get ra parts0)).
    { subst parts0. destruct (decide (ra = (ra.1, rb.2))) as [<- | Hk].
      - rewrite dict_get_set_eq. eauto.
      - rewrite dict_get_set_ne by done. eauto. }
    assert (Hb : is_Some (dict_get rb (dict_del ra parts0))).
    { rewrite dict_get_del_ne by done. subst parts0.
      destruct (decide (rb = (ra.1, rb.2))) as [<- | Hk].
      - rewrite dict_get_set_eq. eauto.
      - rewrite dict_get_set_ne by done. eauto. }
    destruct Ha as [va Ha], Hb as [vb Hb].
    pose proof (dict_del_length _ _ _ Ha) as L1.
    pose proof (dict_del_length _ _ _ Hb) as L2.
    pose proof (dict_set_length (ra.1, rb.2) c parts) as L3.
    subst parts1. fold parts0. fold parts0 in L3. lia.
Qed.

(** comp.restruct returns, with recursion depth at most the number of
    parts, and leaves a dictionary on which no merge applies *)
Lemma restruct_total (fuel : nat) :
  forall (smask : list (option key)) (parts : list (key * exp)),
    wf_parts parts = true ->
    NoDup (dict_keys parts) ->
    (length parts <= S fuel)%nat ->
    exists smask' parts',
      restruct fuel smask parts = Ok (smask', parts')
      /\ restruct_scan parts' (sort_keys (dict_keys parts')) = Ok None
      /\ wf_parts parts' = true
      /\ NoDup (dict_keys parts').
Proof.
  induction fuel as [| fuel IH]; intros smask parts Hwf Hnd Hlen;
    rewrite restruct_unfold;
    (destruct (restruct_scan_total parts (sort_keys (dict_keys parts)) Hwf)
      as [[[[ra rb] c] |] Hscan];
     [ intros k Hk; apply dict_get_keys; by rewrite <- (sort_keys_perm _)
     | | rewrite Hscan; simpl; by exists smask, parts ]);
    rewrite Hscan; simpl;
    destruct (restruct_merge_step parts ra rb c Hwf Hnd Hscan)
      as (Hwf1 & Hnd1 & Hlen1).
  - destruct (restruct_scan_found _ _ _ _ _ Hwf Hscan)
      as ((l1 & l2 & E) & _).
    apply (f_equal length) in E.
    rewrite (Permutation_length (sort_keys_perm _)) in E.
    unfold dict_keys in E. rewrite length_map, length_app in E.
    simpl in E. lia.
  - apply IH; [done | done | lia].
Qed.

(** *** The merged constant *)

Lemma testbit_above (v n i : Z) :
  0 <= n -> 0 <= v < 2 ^ n -> n <= i -> Z.testbit v i = false.
Proof.
  intros Hn Hv Hi.
  destruct (Z.eq_dec v 0) as [-> | Hv0]; [apply Z.bits_0 |].
  apply Z.bits_above_log2; [lia |].
  apply Z.log2_lt_pow2; [lia |].
  eapply Z.lt_le_trans; [apply Hv |]. apply Z.pow_le_mono_r; lia.
Qed.

(** two adjacent constants merge into one constant whose low bits are
    those of the lower range *)
Lemma merge_cst_little_endian (va sa vb sb : Z) (fa fb : bool)
      (ra rb : option string) :
  0 <= sa -> 0 <= sb -> 0 <= va < 2 ^ sa -> 0 <= vb < 2 ^ sb ->
  merge_cst (Cst va sa fa ra) (Cst vb sb fb rb)
  = Ok (Cst (va + vb * 2 ^ sa) (sa + sb) false None)
  /\ forall i, 0 <= i ->
               Z.testbit (va + vb * 2 ^ sa) i
               = if i <? sa then Z.testbit va i else Z.testbit vb (i - sa).
Proof.
  intros Hsa Hsb Hva Hvb.
  assert (Hlor : Z.lor (Z.shiftl vb sa) va = va + vb * 2 ^ sa).
  { rewrite <- Z.shiftl_mul_pow2 by lia.
    rewrite Z.add_comm. symmetry. apply Z.add_nocarry_lor.
    apply Z.bits_inj'. intros i Hi. rewrite Z.land_spec, Z.bits_0.
    destruct (Z.ltb_spec i sa).
    - rewrite Z.shiftl_spec_low by lia. reflexivity.
    - rewrite (testbit_above va sa i) by lia. apply andb_false_r. }
  assert (Hpow : 2 ^ (sa + sb) = 2 ^ sa * 2 ^ sb)
    by (rewrite Z.pow_add_r; lia).
  assert (0 < 2 ^ sa) by (apply Z.pow_pos_nonneg; lia).
  split.
  - unfold merge_cst, py_lshift.
    destruct (Z.ltb_spec sa 0); [lia |]. simpl.
    rewrite cst_ok by lia. rewrite Hlor.
    rewrite Z.mod_small by nia.
    destruct (Z.ltb_spec (va + vb * 2 ^ sa) 0); [nia | reflexivity].
  - intros i Hi. rewrite <- Hlor, Z.lor_spec.
    destruct (Z.ltb_spec i sa).
    + rewrite Z.shiftl_spec_low by lia. reflexivity.
    + rewrite Z.shiftl_spec by lia.
      rewrite (testbit_above va sa i) by lia. apply orb_false_r.
Qed.

(** *** simplify on a composite of leaves *)

Lemma mapM_simp_leaves (cfg : config) (fuel : nat) (k : kargs)
      (parts : list (key * exp)) :
  forallb (fun kp => is_leaf kp.2) parts = true ->
  mapM (fun '(nk, nv) => x ← simp (engine_at cfg (S fuel)) k nv; Ok (nk, x))
       parts
  = Ok parts.
Proof.
  induction parts as [| [nk nv] parts IH]; [done |].
  cbn [forallb]. intros [Hl Hr]%andb_prop.
  pose proof (simplify_leaf cfg fuel k nv Hl) as Hs.
  unfold py_simplify in Hs.
  cbn [mapM]. rewrite (IH Hr). simpl in Hl. rewrite Hs. reflexivity.
Qed.

Lemma py_simplify_S (cfg : config) (fuel : nat) (k : kargs) (e : exp) :
  py_simplify cfg (S fuel) k e
  = ('(x, _) ← simplify cfg (engine_at cfg fuel) k e; Ok x).
Proof. reflexivity. Qed.

(** *** What a merge keeps *)

Lemma dict_get_del_eq {V : Type} (k : key) (d : list (key * V)) :
  NoDup (dict_keys d) -> dict_get k (dict_del k d) = None.
Proof.
  induction d as [| [k' v] d IH]; [done |].
  cbn [dict_keys map fst]. intros [Hk Hd]%NoDup_cons. cbn [dict_del].
  destruct (decide (k = k')) as [<- | Hne].
  - rewrite bool_decide_true by done.
    destruct (dict_get k d) eqn:E; [| done].
    exfalso. apply Hk. apply dict_get_keys. eauto.
  - rewrite bool_decide_false by done. cbn [dict_get].
    rewrite bool_decide_false by done. by apply IH.
Qed.

(** the dictionary after one merge, key by key *)
Lemma dict_get_merged (parts : list (key * exp)) (ra rb knew : key)
      (c : exp) (k : key) :
  NoDup (dict_keys parts) -> knew <> ra -> knew <> rb ->
  dict_get k (dict_del rb (dict_del ra (dict_set knew c parts)))
  = if decide (k = knew) then Some c
    else if decide (k = ra) then None
    else if decide (k = rb) then None
    else dict_get k parts.
Proof.
  intros Hnd Ha Hb.
  assert (Hnd1 : NoDup (dict_keys (dict_set knew c parts)))
    by (by apply dict_set_NoDup).
  assert (Hnd2 : NoDup (dict_keys (dict_del ra (dict_set knew c parts))))
    by (by apply dict_del_NoDup).
  destruct (decide (k = rb)) as [-> | Hkb].
  - rewrite dict_get_del_eq by done.
    destruct (decide (rb = knew)); [congruence |].
    by destruct (decide (rb = ra)).
  - rewrite dict_get_del_ne by done.
    destruct (decide (k = ra)) as [-> | Hka].
    + rewrite dict_get_del_eq by done.
      by destruct (decide (ra = knew)); [congruence |].
    + rewrite dict_get_del_ne by done.
      destruct (decide (k = knew)) as [-> | Hkn].
      * apply dict_get_set_eq.
      * by rewrite dict_get_set_ne.
Qed.

(** the pair that the scan found, with what it found there *)
Lemma restruct_scan_spec (parts : list (key * exp)) (part : list key)
      (ra rb : key) (c : exp) :
  restruct_scan parts part = Ok (Some (ra, rb, c)) ->
  exists l1 l2 na nb,
    part = (l1 ++ ra :: rb :: l2)%list
    /\ ra.2 = rb.1
    /\ dict_get ra parts = Some na /\ dict_get rb parts = Some nb
    /\ ((_is_cst na && _is_cst nb = true /\ merge_cst na nb = Ok c)
        \/ (_is_cst na && _is_cst nb = false
            /\ _is_def na || _is_def nb = false
            /\ c = top (rb.2 - ra.1))).
Proof.
  induction part as [| k rest IH]; [discriminate |].
  destruct rest as [| k' rest]; [discriminate |].
  rewrite restruct_scan_cons.
  set (R := restruct_scan parts (k' :: rest)) in *.
  assert (IH' : R = Ok (Some (ra, rb, c)) ->
                exists l1 l2 na nb,
                  k :: k' :: rest = (l1 ++ ra :: rb :: l2)%list
                  /\ ra.2 = rb.1
                  /\ dict_get ra parts = Some na
                  /\ dict_get rb parts = Some nb
                  /\ ((_is_cst na && _is_cst nb = true
                       /\ merge_cst na nb = Ok c)
                      \/ (_is_cst na && _is_cst nb = false
                          /\ _is_def na || _is_def nb = false
                          /\ c = top (rb.2 - ra.1)))).
  { intros H. destruct (IH H) as (l1 & l2 & na & nb & E & Hrest).
    exists (k :: l1), l2, na, nb. by rewrite E. }
  destruct (Z.eqb_spec k.2 k'.1) as [Hadj |]; [| exact IH'].
  destruct (dict_get k parts) as [na |] eqn:Hna; [| discriminate].
  destruct (dict_get k' parts) as [nb |] eqn:Hnb; [| discriminate].
  destruct (_is_cst na && _is_cst nb) eqn:Hc.
  - destruct (merge_cst na nb) as [c' | | |] eqn:Hm; try discriminate.
    cbn [mbind res_bind]. intros [= <- <- <-].
    exists [], rest, na, nb. split_and!; try done. by left.
  - destruct (_is_def na || _is_def nb) eqn:Hd; cbn [negb]; [exact IH' |].
    intros [= <- <- <-].
    exists [], rest, na, nb. split_and!; try done. by right.
Qed.

Lemma parts_ok_wf (parts : list (key * exp)) :
  parts_ok parts -> wf_parts parts = true /\ NoDup (dict_keys parts).
Proof.
  intros (Hnd & Hfit & _). split; [| done].
  apply wf_parts_forall. intros [k p] Hin. cbn [snd].
  assert (Hg : dict_get k parts = Some p).
  { clear Hfit. induction parts as [| [k0 p0] parts IH];
      [by apply elem_of_nil in Hin |].
    cbn [dict_keys map fst] in Hnd. apply NoDup_cons in Hnd as [Hk Hnd].
    cbn [dict_get]. apply elem_of_cons in Hin as [[= -> ->] | Hin].
    - by rewrite bool_decide_true.
    - rewrite bool_decide_false; [by apply IH |].
      intros ->. apply Hk. apply list_elem_of_fmap. by exists (k0, p). }
  destruct (Hfit k p Hg) as (Hr & Hsz & Hc). unfold wf_part.
  destruct (_is_cst p) eqn:Ec; [| done].
  destruct (Hc eq_refl) as (v & s & r & -> & _). apply Z.leb_le. lia.
Qed.

(** the constant that two adjacent constants merge into fits the range
    that spans both, and holds the bits of both *)
Lemma merge_cst_fits (ra rb : key) (na nb c : exp) :
  part_fits ra na -> part_fits rb nb -> ra.2 = rb.1 ->
  _is_cst na && _is_cst nb = true -> merge_cst na nb = Ok c ->
  part_fits (ra.1, rb.2) c /\ _is_cst c = true
  /\ part_within ra na (ra.1, rb.2) c /\ part_within rb nb (ra.1, rb.2) c.
Proof.
  intros (Hra & Hsa & Hca) (Hrb & Hsb & Hcb) Hadj [Ca Cb]%andb_prop Hm.
  destruct (Hca Ca) as (va & fa & rfa & -> & Hva).
  destruct (Hcb Cb) as (vb & fb & rfb & -> & Hvb).
  destruct (merge_cst_little_endian va (ra.2 - ra.1) vb (rb.2 - rb.1)
              fa fb rfa rfb) as [Hc Hbits]; [lia | lia | done | done |].
  rewrite Hc in Hm. injection Hm as <-.
  assert (Hw : ra.2 - ra.1 + (rb.2 - rb.1) = rb.2 - ra.1) by lia.
  assert (Hpa : 0 < 2 ^ (ra.2 - ra.1)) by (apply Z.pow_pos_nonneg; lia).
  assert (Hbound : 0 <= va + vb * 2 ^ (ra.2 - ra.1) < 2 ^ (rb.2 - ra.1)).
  { rewrite <- Hw, Z.pow_add_r by lia. nia. }
  split_and!.
  - split_and!; cbn [fst snd size]; [lia | lia | lia |].
    intros _. rewrite Hw. eauto.
  - reflexivity.
  - unfold part_within. cbn [fst snd]. split_and!; [lia | lia |].
    change (_is_cst (Cst va (ra.2 - ra.1) fa rfa)) with true. cbv iota.
    do 8 eexists. split_and!; [reflexivity | reflexivity |].
    intros i Hi. rewrite Hbits by lia.
    by destruct (Z.ltb_spec (i - ra.1) (ra.2 - ra.1)); [| lia].
  - unfold part_within. cbn [fst snd]. split_and!; [lia | lia |].
    change (_is_cst (Cst vb (rb.2 - rb.1) fb rfb)) with true. cbv iota.
    do 8 eexists. split_and!; [reflexivity | reflexivity |].
    intros i Hi. rewrite Hbits by lia.
    destruct (Z.ltb_spec (i - ra.1) (ra.2 - ra.1)); [lia |].
    f_equal. lia.
Qed.

Lemma part_within_refl (k : key) (p : exp) :
  part_fits k p -> part_within k p k p.
Proof.
  intros (Hr & Hs & Hc). unfold part_within. split_and!; [lia | lia |].
  destruct (_is_cst p) eqn:Ec.
  - destruct (Hc eq_refl) as (v & s & r & -> & _). by do 8 eexists.
  - by destruct (_is_def p).
Qed.

Lemma part_within_trans (k k' k'' : key) (p p' p'' : exp) :
  part_within k p k' p' -> part_within k' p' k'' p'' ->
  part_within k p k'' p''.
Proof.
  intros (H1 & H2 & Hp) (H1' & H2' & Hp'). unfold part_within.
  split_and!; [lia | lia |].
  destruct (_is_cst p) eqn:Ec.
  - destruct Hp as (v & n & s & r & v' & n' & s' & r' & -> & -> & Hb).
    change (_is_cst (Cst v' n' s' r')) with true in Hp'. cbv iota in Hp'.
    destruct Hp' as (w & m & t & u & w' & m' & t' & u' & [= <- <- <- <-]
                     & -> & Hb').
    do 8 eexists. split_and!; [reflexivity | reflexivity |].
    intros i Hi. rewrite Hb' by lia. by apply Hb.
  - destruct (_is_def p) eqn:Ed.
    + destruct Hp as [-> ->]. by rewrite Ec, Ed in Hp'.
    + destruct Hp as [Hd' Hc']. by rewrite Hc', Hd' in Hp'.
Qed.

(** one merge keeps the dictionary well formed and keeps what every
    part held *)
Lemma merge_step_ok (parts parts1 : list (key * exp)) :
  parts_ok parts -> merge_step parts parts1 ->
  parts_ok parts1 /\ same_content parts parts1.
Proof.
  intros (Hnd & Hfit & Hdis) Hstep.
  destruct Hstep as [l1 l2 ra rb na nb c E Hadj Hna Hnb Hcase].
  pose proof (Hfit ra na Hna) as Fa. pose proof (Hfit rb nb Hnb) as Fb.
  pose proof Fa as (Hra & _ & Hca). pose proof Fb as (Hrb & _ & Hcb).
  assert (Hc : part_fits (ra.1, rb.2) c
               /\ part_within ra na (ra.1, rb.2) c
               /\ part_within rb nb (ra.1, rb.2) c).
  { destruct Hcase as [[Hcst Hm] | (Hcst & Hdef & ->)].
    - destruct (merge_cst_fits ra rb na nb c Fa Fb Hadj Hcst Hm)
        as (? & _ & ? & ?). done.
    - apply orb_false_iff in Hdef as [Da Db].
      assert (Ca : _is_cst na = false).
      { destruct (_is_cst na) eqn:Ec; [| done].
        destruct (Hca eq_refl) as (? & ? & ? & -> & _). discriminate. }
      assert (Cb : _is_cst nb = false).
      { destruct (_is_cst nb) eqn:Ec; [| done].
        destruct (Hcb eq_refl) as (? & ? & ? & -> & _). discriminate. }
      split_and!.
      + split_and!; cbn [fst snd size top]; [lia | lia | lia |].
        intros Hx. discriminate.
      + unfold part_within. cbn [fst snd]. rewrite Ca, Da.
        split_and!; [lia | lia | done | done].
      + unfold part_within. cbn [fst snd]. rewrite Cb, Db.
        split_and!; [lia | lia | done | done]. }
  destruct Hc as (Fc & Wa & Wb).
  remember (ra.1, rb.2) as knew eqn:Eknew.
  assert (Hk1 : knew.1 = ra.1) by (by subst knew).
  assert (Hk2 : knew.2 = rb.2) by (by subst knew).
  clear Eknew.
  assert (Hka : knew <> ra) by (intros Hx; rewrite Hx in Hk2; lia).
  assert (Hkb : knew <> rb) by (intros Hx; rewrite Hx in Hk1; lia).
  assert (Hab : ra <> rb) by (intros Hx; rewrite Hx in Hadj; lia).
  assert (Hget : forall k,
            dict_get k (dict_del rb (dict_del ra (dict_set knew c parts)))
            = if decide (k = knew) then Some c
              else if decide (k = ra) then None
              else if decide (k = rb) then None
              else dict_get k parts)
    by (intros k; by apply dict_get_merged).
  assert (Hfar : forall k p, dict_get k parts = Some p ->
                             k <> ra -> k <> rb ->
                             k.2 <= knew.1 \/ knew.2 <= k.1).
  { intros k p Hk Hkra Hkrb.
    pose proof (Hfit k p Hk) as (Hr & _).
    destruct (Hdis k ra p na Hk Hna Hkra), (Hdis k rb p nb Hk Hnb Hkrb); lia. }
  split; [split_and! |].
  - by apply dict_del_NoDup, dict_del_NoDup, dict_set_NoDup.
  - intros k p. rewrite Hget.
    destruct (decide (k = knew)) as [Hx | ?];
      [intros [= <-]; by rewrite Hx |].
    destruct (decide (k = ra)); [done |].
    destruct (decide (k = rb)); [done |]. apply Hfit.
  - intros k1 k2 p1 p2. rewrite !Hget.
    destruct (decide (k1 = knew)) as [E1 | N1];
      destruct (decide (k2 = knew)) as [E2 | N2].
    + intros _ _ Hne. congruence.
    + intros _. destruct (decide (k2 = ra)); [done |].
      destruct (decide (k2 = rb)); [done |]. intros H2 _. rewrite E1.
      destruct (Hfar k2 p2 H2) as [? | ?]; [done | done | |]; lia.
    + destruct (decide (k1 = ra)); [done |].
      destruct (decide (k1 = rb)); [done |]. intros H1 _ _. rewrite E2.
      destruct (Hfar k1 p1 H1) as [? | ?]; [done | done | |]; lia.
    + destruct (decide (k1 = ra)); [done |].
      destruct (decide (k1 = rb)); [done |].
      destruct (decide (k2 = ra)); [done |].
      destruct (decide (k2 = rb)); [done |]. apply Hdis.
  - intros k p Hk.
    destruct (decide (k = ra)) as [Hx | Hkra].
    { exists knew, c. rewrite Hget, decide_True by done.
      rewrite Hx, Hna in Hk. injection Hk as <-. by rewrite Hx. }
    destruct (decide (k = rb)) as [Hx | Hkrb].
    { exists knew, c. rewrite Hget, decide_True by done.
      rewrite Hx, Hnb in Hk. injection Hk as <-. by rewrite Hx. }
    assert (Hkn : k <> knew).
    { intros Hx. pose proof (Hfit k p Hk) as (Hr & _).
      destruct (Hfar k p Hk Hkra Hkrb); rewrite Hx in *; lia. }
    exists k, p. rewrite Hget.
    rewrite decide_False, decide_False, decide_False by done.
    split; [done |]. by apply part_within_refl, Hfit.
Qed.

Lemma same_content_refl (parts : list (key * exp)) :
  parts_ok parts -> same_content parts parts.
Proof.
  intros (_ & Hfit & _) k p Hk. exists k, p. split; [done |].
  by apply part_within_refl, Hfit.
Qed.

Lemma same_content_trans (a b c : list (key * exp)) :
  same_content a b -> same_content b c -> same_content a c.
Proof.
  intros Hab Hbc k p Hk.
  destruct (Hab k p Hk) as (k' & p' & Hk' & W).
  destruct (Hbc k' p' Hk') as (k'' & p'' & Hk'' & W').
  exists k'', p''. split; [done |]. by eapply part_within_trans.
Qed.

(** comp.restruct returns, within as many recursive calls as there are
    parts; the dictionary it leaves comes from the one given by merges,
    no merge applies to it, and it holds what the one given held *)
Lemma restruct_merges (fuel : nat) :
  forall (smask : list (option key)) (parts : list (key * exp)),
    parts_ok parts ->
    (length parts <= S fuel)%nat ->
    exists smask' parts',
      restruct fuel smask parts = Ok (smask', parts')
      /\ rtc merge_step parts parts'
      /\ restruct_scan parts' (sort_keys (dict_keys parts')) = Ok None
      /\ parts_ok parts'
      /\ same_content parts parts'.
Proof.
  induction fuel as [| fuel IH]; intros smask parts Hok Hlen;
    destruct (parts_ok_wf parts Hok) as [Hwf Hnd];
    rewrite restruct_unfold;
    (destruct (restruct_scan_total parts (sort_keys (dict_keys parts)) Hwf)
      as [[[[ra rb] c] |] Hscan];
     [ intros k Hk; apply dict_get_keys; by rewrite <- (sort_keys_perm _)
     | | rewrite Hscan; cbn [mbind res_bind]; exists smask, parts;
         split_and!; [done | done | done | done
                      | by apply same_content_refl] ]);
    rewrite Hscan; cbn [mbind res_bind];
    destruct (restruct_merge_step parts ra rb c Hwf Hnd Hscan)
      as (_ & _ & Hlen1);
    destruct (restruct_scan_spec _ _ _ _ _ Hscan)
      as (l1 & l2 & na & nb & E & Hadj & Hna & Hnb & Hcase);
    pose proof (merge_step_intro parts l1 l2 ra rb na nb c E Hadj Hna Hnb
                  Hcase) as Hstep;
    destruct (merge_step_ok _ _ Hok Hstep) as [Hok1 Hsame1].
  - apply (f_equal length) in E.
    rewrite (Permutation_length (sort_keys_perm _)) in E.
    unfold dict_keys in E. rewrite length_map, length_app in E.
    cbn [length] in E. lia.
  - destruct (IH (list_set_slice smask ra.1 rb.2
                    (list_repeat (Some (ra.1, rb.2)) (rb.2 - ra.1)))
                 _ Hok1 ltac:(lia))
      as (smask' & parts' & Hr & Hrtc & Hnone & Hok' & Hsame').
    exists smask', parts'. split_and!; [done | | done | done |].
    + by eapply rtc_l.
    + by eapply same_content_trans.
Qed.

(** *** A dictionary of constants that own every bit *)

(** sort_insert keeps a list sorted by start position *)
Lemma sort_insert_sorted (k : key) (l : list key) :
  StronglySorted (fun a b : key => a.1 <= b.1) l ->
  StronglySorted (fun a b : key => a.1 <= b.1) (sort_insert k l).
Proof.
  induction l as [| h t IH]; intros Hs; cbn [sort_insert].
  - repeat constructor.
  - apply StronglySorted_inv in Hs as [Ht Hh].
    destruct (Z.leb_spec k.1 h.1) as [Hle | Hgt].
    + constructor; [by constructor |].
      constructor; [done |].
      eapply Forall_impl; [exact Hh |]. intros x Hx. cbn beta in *. lia.
    + constructor; [by apply IH |].
      apply Forall_forall. intros x Hx.
      rewrite (sort_insert_perm k t) in Hx.
      apply elem_of_cons in Hx as [-> | Hx]; [lia |].
      rewrite Forall_forall in Hh. by apply Hh.
Qed.

Lemma sort_keys_sorted (l : list key) :
  StronglySorted (fun a b : key => a.1 <= b.1) (sort_keys l).
Proof.
  induction l as [| h t IH]; cbn [sort_keys foldr]; [constructor |].
  by apply sort_insert_sorted.
Qed.

(** in a list sorted by start position, with distinct start positions,
    two members with no member starting between them are neighbours *)
Lemma sorted_neighbours (l : list key) (a b : key) :
  StronglySorted (fun x y : key => x.1 <= y.1) l -> NoDup l ->
  (forall x y, x ∈ l -> y ∈ l -> x.1 = y.1 -> x = y) ->
  a ∈ l -> b ∈ l -> a.1 < b.1 ->
  (forall c, c ∈ l -> ~ (a.1 < c.1 < b.1)) ->
  exists l1 l2, l = (l1 ++ a :: b :: l2)%list.
Proof.
  induction l as [| h t IH]; intros Hs Hnd Hinj Ha Hb Hab Hmid;
    [by apply elem_of_nil in Ha |].
  apply NoDup_cons in Hnd as [Hnh Hnd].
  apply StronglySorted_inv in Hs as [Ht Hh]. rewrite Forall_forall in Hh.
  assert (Hh' : forall x, x ∈ t -> h.1 <= x.1)
    by (intros x Hx; by apply Hh).
  apply elem_of_cons in Ha as [-> | Ha].
  - apply elem_of_cons in Hb as [-> | Hb]; [lia |].
    destruct t as [| h' t']; [by apply elem_of_nil in Hb |].
    exists [], t'. cbn [app]. do 2 f_equal.
    apply StronglySorted_inv in Ht as [_ Hh2]. rewrite Forall_forall in Hh2.
    destruct (decide (h' = b)) as [| Hne]; [done |].
    exfalso. apply elem_of_cons in Hb as [-> | Hb]; [done |].
    apply (Hmid h'); [right; left |].
    pose proof (Hh' h' ltac:(left)) as H1.
    pose proof (Hh2 b Hb) as H2.
    assert (h.1 <> h'.1).
    { intros Hx. pose proof (Hinj h h' ltac:(left) ltac:(right; left) Hx)
        as ->.
      apply Hnh. left. }
    assert (h'.1 <> b.1).
    { intros Hx. apply Hne.
      apply Hinj; [right; left | by right; right | done]. }
    lia.
  - apply elem_of_cons in Hb as [-> | Hb].
    { pose proof (Hh' a Ha). lia. }
    destruct (IH Ht Hnd) as (l1 & l2 & ->); try done.
    + intros x y Hx Hy. apply Hinj; by right.
    + intros c Hc. apply Hmid. by right.
    + by exists (h :: l1), l2.
Qed.

(** one merge of constants leaves constants, within the same bounds *)
Lemma merge_step_cst (n : Z) (parts parts1 : list (key * exp)) :
  parts_ok parts -> all_cst parts ->
  (forall k p, dict_get k parts = Some p -> k.2 <= n) ->
  merge_step parts parts1 ->
  all_cst parts1 /\ (forall k p, dict_get k parts1 = Some p -> k.2 <= n).
Proof.
  intros (Hnd & Hfit & Hdis) Hcst Hbound Hstep.
  destruct Hstep as [l1 l2 ra rb na nb c E Hadj Hna Hnb Hcase].
  pose proof (Hfit ra na Hna) as Fa. pose proof (Hfit rb nb Hnb) as Fb.
  pose proof Fa as (Hra & _). pose proof Fb as (Hrb & _).
  assert (Hc : _is_cst c = true).
  { destruct Hcase as [[Hc Hm] | (Hc & _)].
    - by destruct (merge_cst_fits ra rb na nb c Fa Fb Hadj Hc Hm)
        as (_ & ? & _).
    - by rewrite (Hcst ra na Hna), (Hcst rb nb Hnb) in Hc. }
  assert (Hget : forall k,
            dict_get k (dict_del rb
                          (dict_del ra (dict_set (ra.1, rb.2) c parts)))
            = if decide (k = (ra.1, rb.2)) then Some c
              else if decide (k = ra) then None
              else if decide (k = rb) then None
              else dict_get k parts).
  { intros k. apply dict_get_merged; [done | |].
    - intros Hx. apply (f_equal snd) in Hx. cbn [snd] in Hx. lia.
    - intros Hx. apply (f_equal fst) in Hx. cbn [fst] in Hx. lia. }
  split; intros k p; rewrite Hget;
    (destruct (decide (k = (ra.1, rb.2))) as [Hx | ?];
     [intros [= <-] |
      destruct (decide (k = ra)); [done |];
      destruct (decide (k = rb)); [done |]]).
  - done.
  - apply Hcst.
  - rewrite Hx. cbn [snd]. by apply (Hbound rb nb).
  - apply Hbound.
Qed.

Lemma rtc_merge_cst (n : Z) (parts parts' : list (key * exp)) :
  rtc merge_step parts parts' ->
  parts_ok parts -> all_cst parts ->
  (forall k p, dict_get k parts = Some p -> k.2 <= n) ->
  all_cst parts' /\ (forall k p, dict_get k parts' = Some p -> k.2 <= n).
Proof.
  induction 1 as [| parts parts1 parts' Hstep _ IH]; intros Hok Hc Hb;
    [done |].
  destruct (merge_step_cst n _ _ Hok Hc Hb Hstep) as [Hc1 Hb1].
  destruct (merge_step_ok _ _ Hok Hstep) as [Hok1 _].
  by apply IH.
Qed.

(** constants that own every bit of [[0, n)], none of which can be
    merged with its neighbour: there is one constant, at [(0, n)] *)
Lemma single_constant (n : Z) (parts : list (key * exp)) :
  0 < n -> parts_ok parts -> all_cst parts -> parts_cover n parts ->
  no_merge_applies parts ->
  exists c, parts = [((0, n), c)].
Proof.
  intros Hn (Hnd & Hfit & Hdis) Hcst [Hbound Hcov] Hno.
  assert (Hmem : forall k, k ∈ sort_keys (dict_keys parts)
                           <-> is_Some (dict_get k parts)).
  { intros k. rewrite (sort_keys_perm _). symmetry. apply dict_get_keys. }
  destruct (Hcov 0 ltac:(lia)) as (k0 & p0 & Hk0 & Hi0).
  pose proof (Hfit k0 p0 Hk0) as (Hr0 & _).
  assert (Hend : k0.2 = n).
  { pose proof (Hbound k0 p0 Hk0).
    destruct (Z.eq_dec k0.2 n) as [| Hlt]; [done |]. exfalso.
    destruct (Hcov k0.2 ltac:(lia)) as (k1 & p1 & Hk1 & Hi1).
    pose proof (Hfit k1 p1 Hk1) as (Hr1 & _).
    assert (Hne : k0 <> k1) by (intros ->; lia).
    assert (Htouch : k0.2 = k1.1)
      by (destruct (Hdis k0 k1 p0 p1 Hk0 Hk1 Hne); lia).
    destruct (sorted_neighbours (sort_keys (dict_keys parts)) k0 k1)
      as (l1 & l2 & E).
    - apply sort_keys_sorted.
    - by rewrite (sort_keys_perm _).
    - intros x y [px Hx]%Hmem [py Hy]%Hmem Hxy.
      destruct (decide (x = y)) as [| Hd]; [done |]. exfalso.
      pose proof (Hfit x px Hx) as (? & _).
      pose proof (Hfit y py Hy) as (? & _).
      destruct (Hdis x y px py Hx Hy Hd); lia.
    - apply Hmem. eauto.
    - apply Hmem. eauto.
    - lia.
    - intros c [pc Hc]%Hmem Hmid.
      pose proof (Hfit c pc Hc) as (? & _).
      assert (Hd : c <> k0) by (intros ->; lia).
      destruct (Hdis c k0 pc p0 Hc Hk0 Hd); lia.
    - destruct (Hno l1 k0 k1 l2 p0 p1 E Htouch Hk0 Hk1) as [Hx _].
      by rewrite (Hcst k0 p0 Hk0), (Hcst k1 p1 Hk1) in Hx. }
  assert (Hk : k0 = (0, n)) by (destruct k0; cbn [fst snd] in *; f_equal; lia).
  subst k0. exists p0.
  assert (Honly : forall k p, dict_get k parts = Some p -> k = (0, n)).
  { intros k p Hk. destruct (decide (k = (0, n))) as [| Hd]; [done |].
    exfalso. pose proof (Hfit k p Hk) as (? & _).
    pose proof (Hbound k p Hk).
    destruct (Hdis k (0, n) p p0 Hk Hk0 Hd); cbn [fst snd] in *; lia. }
  destruct parts as [| [k p] [| [k2 p2] t]].
  - discriminate.
  - cbn [dict_get] in Hk0.
    destruct (decide ((0, n) = k)) as [<- | Hd].
    + rewrite bool_decide_true in Hk0 by done. by injection Hk0 as ->.
    + by rewrite bool_decide_false in Hk0.
  - exfalso.
    assert (H1 : k = (0, n)).
    { apply (Honly k p). cbn [dict_get]. by rewrite bool_decide_true. }
    assert (H2 : k2 = (0, n)).
    { destruct (decide (k2 = k)) as [-> | Hd]; [done |].
      apply (Honly k2 p2). cbn [dict_get].
      rewrite bool_decide_false by done. by rewrite bool_decide_true. }
    cbn [dict_keys map fst] in Hnd. apply NoDup_cons in Hnd as [Hx _].
    apply Hx. rewrite H1, H2. left.
Qed.

(** a dictionary of constants that own every bit of [[0, n)] is merged
    into the one constant whose bit [i] is the bit of the part that
    owned bit [i] *)
Lemma restruct_constants (n : Z) (smask : list (option key))
      (parts : list (key * exp)) :
  0 < n -> parts_ok parts -> all_cst parts -> parts_cover n parts ->
  exists smask' v s r,
    restruct (restruct_fuel parts) smask parts
    = Ok (smask', [((0, n), Cst v n s r)])
    /\ 0 <= v < 2 ^ n
    /\ forall k w m t u i,
         dict_get k parts = Some (Cst w m t u) -> k.1 <= i < k.2 ->
         Z.testbit v i = Z.testbit w (i - k.1).
Proof.
  intros Hn Hok Hcst [Hbound Hcov].
  destruct (restruct_merges (restruct_fuel parts) smask parts Hok)
    as (smask' & parts' & Hr & Hrtc & Hnone & Hok' & Hsame);
    [unfold restruct_fuel; lia |].
  destruct (rtc_merge_cst n _ _ Hrtc Hok Hcst Hbound) as [Hcst' Hbound'].
  assert (Hcov' : parts_cover n parts').
  { split; [done |]. intros i Hi.
    destruct (Hcov i Hi) as (k & p & Hk & Hik).
    destruct (Hsame k p Hk) as (k' & p' & Hk' & (? & ? & _)).
    exists k', p'. split; [done | lia]. }
  destruct (single_constant n parts' Hn Hok' Hcst' Hcov') as [c ->].
  { intros l1 ra rb l2 na nb. by apply restruct_scan_none. }
  destruct Hok' as (_ & Hfit' & _).
  assert (Hc : dict_get (0, n) [((0, n), c)] = Some c)
    by (cbn [dict_get]; by rewrite bool_decide_true).
  destruct (Hfit' _ _ Hc) as (_ & _ & Hcc).
  destruct (Hcc (Hcst' _ _ Hc)) as (v & s & r & -> & Hv).
  cbn [fst snd] in Hv, Hr, Hsame. rewrite Z.sub_0_r in Hv, Hr, Hsame.
  exists smask', v, s, r.
  split; [exact Hr | split; [exact Hv |]].
  intros k w m t u i Hk Hi.
  destruct (Hsame _ _ Hk) as (k' & p' & Hk' & (_ & _ & Hw)).
  cbn [dict_get] in Hk'.
  destruct (decide (k' = (0, n))) as [-> | Hd];
    [| by rewrite bool_decide_false in Hk'].
  rewrite bool_decide_true in Hk' by done. injection Hk' as <-.
  change (_is_cst (Cst w m t u)) with true in Hw. cbv iota in Hw.
  destruct Hw as (? & ? & ? & ? & v' & ? & ? & ? & [= <- <- <- <-]
                  & [= <- <- <- <-] & Hbits).
  rewrite <- (Hbits i Hi). cbn [fst]. f_equal. lia.
Qed.

Lemma dict_elem_get (parts : list (key * exp)) (k : key) (p : exp) :
  NoDup (dict_keys parts) -> (k, p) ∈ parts -> dict_get k parts = Some p.
Proof.
  induction parts as [| [k0 p0] parts IH]; intros Hnd Hin;
    [by apply elem_of_nil in Hin |].
  cbn [dict_keys map fst] in Hnd. apply NoDup_cons in Hnd as [Hk Hnd].
  cbn [dict_get]. apply elem_of_cons in Hin as [[= -> ->] | Hin].
  - by rewrite bool_decide_true.
  - rewrite bool_decide_false; [by apply IH |].
    intros ->. apply Hk. apply list_elem_of_fmap. by exists (k0, p).
Qed.

Lemma all_cst_leaves (parts : list (key * exp)) :
  parts_ok parts -> all_cst parts ->
  forallb (fun kp => is_leaf kp.2) parts = true.
Proof.
  intros (Hnd & Hfit & _) Hcst. apply forallb_forall. intros [k p] Hin.
  apply list_elem_of_In in Hin.
  pose proof (dict_elem_get _ _ _ Hnd Hin) as Hg.
  destruct (Hfit k p Hg) as (_ & _ & Hc).
  by destruct (Hc (Hcst k p Hg)) as (? & ? & ? & -> & _).
Qed.

(** C5. comp.restruct returns, and the dictionary it leaves comes from
    the one given by merges of two ranges that follow each other and
    touch, both constants or both undefined, the other parts staying as
    they are; no such merge applies to it any more; every part given is
    held by a part left: a constant inside a constant with the same bits
    at the same positions (the lower range in the low bits), any other
    defined part unchanged at its range.  So constants that own every
    bit of [[0, size)] become the one constant whose bit [i] is the bit
    of the part that owned bit [i], and simplify returns it.  For any
    composite, once its parts are simplified, simplify returns the part
    that spans [[0, size)] after restruct when there is one, and the
    restructured composite otherwise.  The composite of width 32 with
    [0:8)=cst(0x9d,8) and [8:32)=cst(0,24) simplifies to cst(0x9d,32). *)
Theorem C5_restruct_merges_constants :
  (forall (smask : list (option key)) (parts : list (key * exp)),
      wf_parts parts = true ->
      NoDup (dict_keys parts) ->
      exists smask' parts',
        restruct (restruct_fuel parts) smask parts = Ok (smask', parts')
        /\ no_merge_applies parts')
  /\ (forall (smask : list (option key)) (parts : list (key * exp)),
        parts_ok parts ->
        exists smask' parts',
          restruct (restruct_fuel parts) smask parts = Ok (smask', parts')
          /\ rtc merge_step parts parts'
          /\ no_merge_applies parts'
          /\ parts_ok parts'
          /\ same_content parts parts')
  /\ (forall va sa vb sb fa fb ra rb,
         0 <= sa -> 0 <= sb -> 0 <= va < 2 ^ sa -> 0 <= vb < 2 ^ sb ->
         merge_cst (Cst va sa fa ra) (Cst vb sb fb rb)
         = Ok (Cst (va + vb * 2 ^ sa) (sa + sb) false None)
         /\ forall i, 0 <= i ->
                      Z.testbit (va + vb * 2 ^ sa) i
                      = if i <? sa then Z.testbit va i
                        else Z.testbit vb (i - sa))
  /\ (forall n smask parts,
         0 < n -> parts_ok parts -> all_cst parts -> parts_cover n parts ->
         exists smask' v s r,
           restruct (restruct_fuel parts) smask parts
           = Ok (smask', [((0, n), Cst v n s r)])
           /\ 0 <= v < 2 ^ n
           /\ (forall k w m t u i,
                 dict_get k parts = Some (Cst w m t u) -> k.1 <= i < k.2 ->
                 Z.testbit v i = Z.testbit w (i - k.1))
           /\ forall cfg fuel k sf,
                py_simplify cfg (S (S fuel)) k (Comp n sf smask parts)
                = Ok (Cst v n s r))
  /\ (forall cfg fuel k n s smask parts parts1,
         mapM (fun '(nk, nv) => x ← simp (engine_at cfg fuel) k nv; Ok (nk, x))
              parts = Ok parts1 ->
         wf_parts parts1 = true ->
         NoDup (dict_keys parts1) ->
         exists smask' parts',
           restruct (restruct_fuel parts1) smask parts1 = Ok (smask', parts')
           /\ no_merge_applies parts'
           /\ py_simplify cfg (S fuel) k (Comp n s smask parts)
              = Ok (match dict_get (0, n) parts' with
                    | Some p => p
                    | None => Comp n s smask' parts'
                    end))
  /\ (forall cfg fuel k n s smask parts,
         forallb (fun kp => is_leaf kp.2) parts = true ->
         wf_parts parts = true ->
         NoDup (dict_keys parts) ->
         exists smask' parts',
           restruct (restruct_fuel parts) smask parts = Ok (smask', parts')
           /\ py_simplify cfg (S (S fuel)) k (Comp n s smask parts)
              = Ok (match dict_get (0, n) parts' with
                    | Some p => p
                    | None => Comp n s smask' parts'
                    end))
  /\ (c ← py_setitem (ascii_config 10000) 8 (comp 32) (slice_of 0 8)
                     (Cst 0x9d 8 false None);
      c ← py_setitem (ascii_config 10000) 8 c (slice_of 8 32)
                     (Cst 0 24 false None);
      py_simplify (ascii_config 10000) 8 no_kargs c)
     = Ok (Cst 0x9d 32 false None).
Proof.
  split_and!.
  - intros smask parts Hwf Hnd.
    destruct (restruct_total (restruct_fuel parts) smask parts Hwf Hnd)
      as (smask' & parts' & Hr & Hs & _); [unfold restruct_fuel; lia |].
    exists smask', parts'. split; [exact Hr |].
    intros l1 ra rb l2 na nb. by apply restruct_scan_none.
  - intros smask parts Hok.
    destruct (restruct_merges (restruct_fuel parts) smask parts Hok)
      as (smask' & parts' & Hr & Hrtc & Hnone & Hok' & Hsame);
      [unfold restruct_fuel; lia |].
    exists smask', parts'. split_and!; try done.
    intros l1 ra rb l2 na nb. by apply restruct_scan_none.
  - intros. by apply merge_cst_little_endian.
  - intros n smask parts Hn Hok Hcst Hcov.
    destruct (restruct_constants n smask parts Hn Hok Hcst Hcov)
      as (smask' & v & s & r & Hr & Hv & Hbits).
    exists smask', v, s, r.
    split; [exact Hr | split; [exact Hv | split; [exact Hbits |]]].
    intros cfg fuel k sf.
    rewrite py_simplify_S. unfold simplify, comp_simplify.
    rewrite (mapM_simp_leaves cfg fuel k parts)
      by (by apply all_cst_leaves).
    cbn [mbind res_bind]. rewrite Hr. cbn [mbind res_bind dict_get].
    by rewrite bool_decide_true.
  - intros cfg fuel k n s smask parts parts1 Hmap Hwf Hnd.
    destruct (restruct_total (restruct_fuel parts1) smask parts1 Hwf Hnd)
      as (smask' & parts' & Hr & Hs & _); [unfold restruct_fuel; lia |].
    exists smask', parts'. split; [exact Hr |]. split.
    { intros l1 ra rb l2 na nb. by apply restruct_scan_none. }
    rewrite py_simplify_S. unfold simplify, comp_simplify.
    rewrite Hmap. cbn [mbind res_bind]. rewrite Hr. cbn [mbind res_bind].
    by destruct (dict_get (0, n) parts').
  - intros cfg fuel k n s smask parts Hleaf Hwf Hnd.
    destruct (restruct_total (restruct_fuel parts) smask parts Hwf Hnd)
      as (smask' & parts' & Hr & _); [unfold restruct_fuel; lia |].
    exists smask', parts'. split; [exact Hr |].
    rewrite py_simplify_S. unfold simplify, comp_simplify.
    rewrite (mapM_simp_leaves cfg fuel k parts Hleaf).
    cbn [mbind res_bind]. rewrite Hr. cbn [mbind res_bind].
    by destruct (dict_get (0, n) parts').
  - vm_compute. reflexivity.
Qed.

Lemma C5_witness :
  let parts := [((0, 8), Cst 0x9d 8 false None);
                ((8, 32), Cst 0 24 false None)] in
  (0 < 32 /\ parts_ok parts /\ all_cst parts /\ parts_cover 32 parts)
  /\ exists smask' v s r,
      restruct (restruct_fuel parts) (list_repeat None 32) parts
      = Ok (smask', [((0, 32), Cst v 32 s r)])
      /\ Z.testbit v 0 = Z.testbit 0x9d (0 - 0).
Proof.
  intros parts.
  assert (Hget : forall k p, dict_get k parts = Some p ->
            (k = (0, 8) /\ p = Cst 0x9d 8 false None)
            \/ (k = (8, 32) /\ p = Cst 0 24 false None)).
  { intros k p H. cbn [parts dict_get] in H.
    destruct (decide (k = (0, 8))) as [-> | ?].
    - rewrite bool_decide_true in H by done. left. by injection H as <-.
    - rewrite bool_decide_false in H by done.
      destruct (decide (k = (8, 32))) as [-> | ?].
      + rewrite bool_decide_true in H by done. right. by injection H as <-.
      + by rewrite bool_decide_false in H. }
  assert (Hok : parts_ok parts).
  { split_and!.
    - apply (bool_decide_unpack (NoDup (dict_keys parts))).
      vm_compute. exact I.
    - intros k p [[-> ->] | [-> ->]]%Hget;
        (split_and!; cbn [fst snd size]; [lia | lia | lia |]);
        intros _; do 3 eexists; (split; [reflexivity | lia]).
    - intros k1 k2 p1 p2 [[-> _] | [-> _]]%Hget [[-> _] | [-> _]]%Hget Hne;
        cbn [fst snd]; first [done | lia]. }
  assert (Hcst : all_cst parts)
    by (by intros k p [[_ ->] | [_ ->]]%Hget).
  assert (Hcov : parts_cover 32 parts).
  { split.
    - intros k p [[-> _] | [-> _]]%Hget; cbn [snd]; lia.
    - intros i Hi. destruct (Z.lt_ge_cases i 8).
      + exists (0, 8), (Cst 0x9d 8 false None). split; [reflexivity |].
        cbn [fst snd]. lia.
      + exists (8, 32), (Cst 0 24 false None). split; [reflexivity |].
        cbn [fst snd]. lia. }
  split; [split_and!; (done || lia) |].
  destruct (proj1 (proj2 (proj2 (proj2 C5_restruct_merges_constants)))
              32 (list_repeat None 32) parts ltac:(lia) Hok Hcst Hcov)
    as (smask' & v & s & r & Hr & _ & Hbits & _).
  exists smask', v, s, r. split; [exact Hr |].
  apply (Hbits (0, 8) 0x9d 8 false None 0); [reflexivity |].
  cbn [fst snd]. lia.
Defined.

(** ** Idempotence of simplify on leaves and composites of leaves (C2) *)








(** * Further properties of the code *)

(** ** Constants: construction, value and arithmetic *)

(** the value of a constant is congruent to its pattern *)
Lemma cst_value_mod (v n : Z) (s : bool) :
  1 <= n -> 0 <= v < 2 ^ n ->
  exists a, cst_value v n s = Ok a /\ a mod 2 ^ n = v.
Proof.
  intros Hn Hv. pose proof (pow2_split n Hn) as Hp.
  assert (0 < 2 ^ (n - 1)) by (apply Z.pow_pos_nonneg; lia).
  destruct s.
  - rewrite cst_value_signed by done. eexists. split; [reflexivity |].
    unfold signed_interp. rewrite (Z.mod_small v) by lia.
    destruct (Z.ltb_spec v (2 ^ (n - 1))).
    + rewrite Z.mod_small by lia. lia.
    + symmetry. apply (Z.mod_unique _ _ (-1)); lia.
  - exists v. simpl. split; [done |]. rewrite Z.mod_small by lia. lia.
Qed.

(** a non-negative integer without bits from [n] upwards is below [2^n] *)
Lemma bits_bound (v n : Z) :
  0 <= n -> 0 <= v -> (forall i, n <= i -> Z.testbit v i = false) ->
  v < 2 ^ n.
Proof.
  intros Hn Hv Hb.
  assert (E : v mod 2 ^ n = v).
  { rewrite <- Z.land_ones by lia. apply Z.bits_inj'. intros i Hi.
    rewrite Z.land_spec. destruct (Z.ltb_spec i n).
    - rewrite Z.ones_spec_low by lia. apply andb_true_r.
    - rewrite Z.ones_spec_high by lia. rewrite Hb by lia. reflexivity. }
  rewrite <- E. apply Z.mod_pos_bound. apply Z.pow_pos_nonneg; lia.
Qed.

Lemma bitwise_bound (f : Z -> Z -> Z) (g : bool -> bool -> bool) (a b n : Z) :
  (forall x y i, Z.testbit (f x y) i = g (Z.testbit x i) (Z.testbit y i)) ->
  g false false = false ->
  0 <= n -> 0 <= a < 2 ^ n -> 0 <= b < 2 ^ n -> 0 <= f a b ->
  0 <= f a b < 2 ^ n.
Proof.
  intros Hf Hg Hn Ha Hb H0. split; [done |].
  apply bits_bound; [done | done |]. intros i Hi.
  rewrite Hf, (testbit_above a n), (testbit_above b n) by lia. exact Hg.
Qed.

(** X1. [cst(x, n)] keeps [x] modulo [2^n] as its pattern; its value is
    [x] again when [x] lies between [-2^(n-1)] and [2^n - 1]; a negative
    width is refused (the mask is a shift by a negative count). *)
Theorem cst_value_roundtrip (x n : Z) :
  (n < 0 -> cst x n = Raise ValueError)
  /\ (1 <= n -> - 2 ^ (n - 1) <= x < 2 ^ n ->
      (c ← cst x n; value c) = Ok x)
  /\ (0 <= n ->
      exists v s, cst x n = Ok (Cst v n s None) /\ 0 <= v < 2 ^ n
                  /\ v = x mod 2 ^ n).
Proof.
  split; [| split].
  - intros Hn. unfold cst, mask, py_lshift.
    destruct (Z.ltb_spec n 0); [reflexivity | lia].
  - intros Hn Hx. rewrite cst_ok by lia. simpl.
    destruct (Z.ltb_spec x 0).
    + pose proof (pow2_split n Hn).
      pose proof (cst_value_of_cst x n Hn) as H1.
      destruct (Z.ltb_spec x 0); [| lia]. apply H1. lia.
    + simpl. rewrite Z.mod_small by lia. reflexivity.
  - intros Hn. rewrite cst_ok by lia. eexists _, _. split; [reflexivity |].
    split; [| reflexivity]. apply Z.mod_pos_bound. apply Z.pow_pos_nonneg; lia.
Qed.

Lemma cst_value_roundtrip_witness :
  (1 <= 8 /\ - 2 ^ (8 - 1) <= -3 < 2 ^ 8)
  /\ (c ← cst (-3) 8; value c) = Ok (-3).
Proof.
  split; [lia |].
  apply (proj1 (proj2 (cst_value_roundtrip (-3) 8))); lia.
Defined.

Section CstArith.
Variable cfg : config.
Variable E : engine.

(** the binary methods of cst on two constants of one width *)
Lemma cst_dunder_compute (d : dunder) (va vb n : Z) (sa sb : bool)
      (ra rb : option string) :
  (d = D_eq -> ra = None) ->
  py_dunder cfg E d (Cst va n sa ra) (Cst vb n sb rb)
  = cst_compute d (dunder_set_sf d (Cst va n sa ra)) (Cst vb n sb rb).
Proof.
  intros Hd. unfold py_dunder.
  assert (H : py_dunder2 cfg E d (Cst va n sa ra) (Cst vb n sb rb)
              = cst_dunder cfg E d (Cst va n sa ra) (Cst vb n sb rb)).
  { destruct ra, d; try reflexivity. by specialize (Hd eq_refl). }
  rewrite H. unfold cst_dunder, checkarg_sizes. simpl.
  rewrite Z.eqb_refl. simpl.
  destruct (dunder_checks_sizes d); simpl;
    by destruct (cst_compute _ _ _).
Qed.

(** the method of cst whatever the width of the operand, for the
    methods that do not compare sizes *)
Lemma cst_dunder_unchecked (d : dunder) (va vb n m : Z) (sa sb : bool)
      (ra rb : option string) :
  dunder_checks_sizes d = false ->
  py_dunder cfg E d (Cst va n sa ra) (Cst vb m sb rb)
  = cst_compute d (dunder_set_sf d (Cst va n sa ra)) (Cst vb m sb rb).
Proof.
  intros Hd. unfold py_dunder.
  assert (H : py_dunder2 cfg E d (Cst va n sa ra) (Cst vb m sb rb)
              = cst_dunder cfg E d (Cst va n sa ra) (Cst vb m sb rb))
    by (by destruct ra, d).
  rewrite H. unfold cst_dunder. rewrite Hd. simpl.
  by destruct (cst_compute _ _ _).
Qed.

Lemma cst_add_pattern (va vb n : Z) (sa sb : bool) (ra rb : option string) :
  1 <= n -> 0 <= va < 2 ^ n -> 0 <= vb < 2 ^ n ->
  exists s, py_dunder cfg E D_add (Cst va n sa ra) (Cst vb n sb rb)
            = Ok (Cst ((va + vb) mod 2 ^ n) n s None).
Proof.
  intros Hn Ha Hb.
  destruct (cst_value_mod va n sa Hn Ha) as (x & Hx & Hxm).
  destruct (cst_value_mod vb n sb Hn Hb) as (y & Hy & Hym).
  assert (Hpos : 0 < 2 ^ n) by (apply Z.pow_pos_nonneg; lia).
  rewrite cst_dunder_compute by discriminate.
  exists (x + y <? 0). simpl. rewrite Hx, Hy. simpl.
  rewrite cst_ok by lia. by rewrite Z.add_mod, Hxm, Hym by lia.
Qed.

Lemma cst_value_zero (n : Z) (s : bool) : 1 <= n -> cst_value 0 n s = Ok 0.
Proof.
  intros Hn. destruct s; [| reflexivity]. rewrite cst_value_signed.
  - unfold signed_interp. rewrite Z.mod_0_l by (apply Z.pow_nonzero; lia).
    assert (0 < 2 ^ (n - 1)) by (apply Z.pow_pos_nonneg; lia).
    destruct (Z.ltb_spec 0 (2 ^ (n - 1))); [done | lia].
  - done.
  - split; [lia |]. apply Z.pow_pos_nonneg; lia.
Qed.

(** X2. On two constants of one width [n], [+], [-] and [*] compute
    modulo [2^n] on the patterns, whatever the sign flags; [&], [|] and
    [^] are bit by bit and give an unsigned constant; [**] on unsigned
    constants gives the exact product on [2n] bits; [/] and [%] by a
    constant zero raise ZeroDivisionError. *)
Theorem cst_arith_modular (va vb n : Z) (sa sb : bool)
        (ra rb : option string) :
  1 <= n -> 0 <= va < 2 ^ n -> 0 <= vb < 2 ^ n ->
  let a := Cst va n sa ra in
  let b := Cst vb n sb rb in
  (exists s, py_dunder cfg E D_add a b
             = Ok (Cst ((va + vb) mod 2 ^ n) n s None))
  /\ (exists s, py_dunder cfg E D_sub a b
                = Ok (Cst ((va - vb) mod 2 ^ n) n s None))
  /\ (exists s, py_dunder cfg E D_mul a b
                = Ok (Cst ((va * vb) mod 2 ^ n) n s None))
  /\ py_dunder cfg E D_and a b = Ok (Cst (Z.land va vb) n false None)
  /\ py_dunder cfg E D_or a b = Ok (Cst (Z.lor va vb) n false None)
  /\ py_dunder cfg E D_xor a b = Ok (Cst (Z.lxor va vb) n false None)
  /\ (sa = false -> sb = false ->
      py_dunder cfg E D_pow a b = Ok (Cst (va * vb) (2 * n) false None))
  /\ (vb = 0 ->
      py_dunder cfg E D_truediv a b = Raise ZeroDivisionError
      /\ py_dunder cfg E D_mod a b = Raise ZeroDivisionError).
Proof.
  intros Hn Ha Hb a b.
  destruct (cst_value_mod va n sa Hn Ha) as (x & Hx & Hxm).
  destruct (cst_value_mod vb n sb Hn Hb) as (y & Hy & Hym).
  assert (Hpos : 0 < 2 ^ n) by (apply Z.pow_pos_nonneg; lia).
  assert (Hbit : forall f, 0 <= f va vb < 2 ^ n ->
            cst (f va vb) n = Ok (Cst (f va vb) n false None)).
  { intros f Hf. rewrite cst_ok by lia. rewrite Z.mod_small by lia.
    destruct (Z.ltb_spec (f va vb) 0); [lia | done]. }
  subst a b.
  split_and!; try (rewrite cst_dunder_compute by discriminate).
  - exists (x + y <? 0). simpl. rewrite Hx, Hy. simpl.
    rewrite cst_ok by lia. by rewrite Z.add_mod, Hxm, Hym by lia.
  - exists (x - y <? 0). simpl. rewrite Hx, Hy. simpl.
    rewrite cst_ok by lia. by rewrite Zminus_mod, Hxm, Hym.
  - exists (x * y <? 0). simpl. rewrite Hx, Hy. simpl.
    rewrite cst_ok by lia. by rewrite Z.mul_mod, Hxm, Hym by lia.
  - simpl. apply (Hbit Z.land).
    apply (bitwise_bound Z.land andb); try done; try lia.
    + apply Z.land_spec.
    + apply Z.land_nonneg. lia.
  - simpl. apply (Hbit Z.lor).
    apply (bitwise_bound Z.lor orb); try done; try lia.
    + apply Z.lor_spec.
    + apply Z.lor_nonneg. lia.
  - simpl. apply (Hbit Z.lxor).
    apply (bitwise_bound Z.lxor xorb); try done; try lia.
    + apply Z.lxor_spec.
    + apply Z.lxor_nonneg. lia.
  - intros -> ->. simpl.
    rewrite cst_ok by lia.
    assert (0 <= va * vb < 2 ^ (2 * n)).
    { replace (2 * n) with (n + n) by lia. rewrite Z.pow_add_r by lia. nia. }
    rewrite Z.mod_small by lia.
    destruct (Z.ltb_spec (va * vb) 0); [lia | done].
  - intros ->. rewrite !cst_dunder_compute by discriminate. simpl.
    rewrite Hx, cst_value_zero by done. simpl. done.
Qed.


(** X4. Shifts of a constant by a constant count of any width: [<<]
    multiplies modulo [2^n]; [>>] is the logical shift of the pattern,
    also for a signed constant; [//] is the arithmetic shift of the signed
    value, also for an unsigned constant; a count whose value is negative
    is refused. *)
Theorem cst_shifts (va n k m : Z) (sa : bool) (ra rk : option string) :
  1 <= n -> 0 <= va < 2 ^ n -> 0 <= k ->
  let a := Cst va n sa ra in
  let count := Cst k m false rk in
  py_dunder cfg E D_lshift (Cst va n false ra) count
  = Ok (Cst ((va * 2 ^ k) mod 2 ^ n) n false None)
  /\ py_dunder cfg E D_rshift a count = Ok (Cst (va / 2 ^ k) n false None)
  /\ py_dunder cfg E D_floordiv a count
     = Ok (Cst ((signed_interp va n / 2 ^ k) mod 2 ^ n) n
               (signed_interp va n / 2 ^ k <? 0) None)
  /\ (forall d c, 1 <= m -> 2 ^ (m - 1) <= c < 2 ^ m ->
        d = D_lshift \/ d = D_rshift \/ d = D_floordiv ->
        py_dunder cfg E d a (Cst c m true rk) = Raise ValueError).
Proof.
  intros Hn Ha Hk a count. subst a count.
  assert (Hpos : 0 < 2 ^ n) by (apply Z.pow_pos_nonneg; lia).
  assert (Hk2 : 0 < 2 ^ k) by (apply Z.pow_pos_nonneg; lia).
  split_and!.
  - rewrite cst_dunder_unchecked by done. simpl. unfold py_lshift.
    destruct (Z.ltb_spec k 0); [lia |]. simpl.
    rewrite cst_ok by lia. rewrite Z.shiftl_mul_pow2 by lia.
    assert (0 <= va * 2 ^ k) by nia.
    destruct (Z.ltb_spec (va * 2 ^ k) 0); [lia | done].
  - rewrite cst_dunder_unchecked by done. simpl. unfold py_rshift.
    destruct (Z.ltb_spec k 0); [lia |]. simpl.
    rewrite cst_ok by lia. rewrite Z.shiftr_div_pow2 by lia.
    assert (0 <= va / 2 ^ k <= va).
    { split; [apply Z.div_pos; lia |]. apply Z.div_le_upper_bound; nia. }
    rewrite Z.mod_small by lia.
    destruct (Z.ltb_spec (va / 2 ^ k) 0); [lia | done].
  - rewrite cst_dunder_unchecked by done.
    cbn [dunder_set_sf set_sf cst_compute value].
    rewrite cst_value_signed by lia.
    cbn [mbind res_bind cst_value]. unfold py_rshift.
    destruct (Z.ltb_spec k 0); [lia |]. cbn [mbind res_bind].
    rewrite cst_ok by lia. rewrite Z.shiftr_div_pow2 by lia. done.
  - intros d c Hm Hc Hdd.
    assert (Hv : cst_value c m true = Ok (c - 2 ^ m)).
    { rewrite cst_value_signed by lia. unfold signed_interp.
      rewrite Z.mod_small by lia.
      destruct (Z.ltb_spec c (2 ^ (m - 1))); [lia | done]. }
    assert (Hneg : c - 2 ^ m < 0) by lia.
    destruct (cst_value_mod va n sa Hn Ha) as (x & Hx & _).
    destruct (cst_value_mod va n true Hn Ha) as (x' & Hx' & _).
    destruct (cst_value_mod va n false Hn Ha) as (x'' & Hx'' & _).
    destruct Hdd as [-> | [-> | ->]];
      rewrite cst_dunder_unchecked by done;
      cbn [dunder_set_sf set_sf cst_compute value];
      rewrite Hv, ?Hx, ?Hx', ?Hx''; cbn [mbind res_bind];
      unfold py_lshift, py_rshift;
      (destruct (Z.ltb_spec (c - 2 ^ m) 0); [done | lia]).
Qed.


(** X6. [~c] complements the [n] bits of the pattern and is an
    involution; [-c] negates modulo [2^n]; [c + (-c)] is zero, and [-c]
    has the pattern of [~c + 1] (two's complement). *)
Theorem cst_neg_invert (va n : Z) (sa : bool) (ra : option string) :
  1 <= n -> 0 <= va < 2 ^ n ->
  let a := Cst va n sa ra in
  py_invert E a = Ok (Cst (2 ^ n - 1 - va) n false None)
  /\ (i ← py_invert E a; py_invert E i) = Ok (Cst va n false None)
  /\ (exists s, py_neg E a = Ok (Cst ((- va) mod 2 ^ n) n s None))
  /\ (exists s, (m ← py_neg E a; py_dunder cfg E D_add a m)
                = Ok (Cst 0 n s None))
  /\ (exists s, (i ← py_invert E a;
                 py_dunder cfg E D_add i (Cst 1 n false None))
                = Ok (Cst ((- va) mod 2 ^ n) n s None)).
Proof.
  intros Hn Ha a. subst a.
  assert (Hpos : 0 < 2 ^ n) by (apply Z.pow_pos_nonneg; lia).
  assert (Hinv : forall v s r, 0 <= v < 2 ^ n ->
            py_invert E (Cst v n s r)
            = Ok (Cst (2 ^ n - 1 - v) n false None)).
  { intros v s r Hv. unfold py_invert. rewrite mask_ok by lia. simpl.
    assert (Hl : Z.land (Z.lnot v) (2 ^ n - 1) = 2 ^ n - 1 - v).
    { rewrite <- (lxor_ones_low v n) by lia.
      replace (2 ^ n - 1) with (Z.ones n) by (rewrite Z.ones_equiv; lia).
      apply Z.bits_inj'. intros i Hi.
      rewrite Z.land_spec, Z.lxor_spec, Z.lnot_spec by lia.
      destruct (Z.ltb_spec i n).
      - rewrite Z.ones_spec_low by lia.
        by destruct (Z.testbit v i).
      - rewrite Z.ones_spec_high by lia.
        rewrite (testbit_above v n i) by lia. done. }
    rewrite Hl, cst_ok by lia. rewrite Z.mod_small by lia.
    destruct (Z.ltb_spec (2 ^ n - 1 - v) 0); [lia | done]. }
  destruct (cst_value_mod va n sa Hn Ha) as (x & Hx & Hxm).
  assert (Hneg : py_neg E (Cst va n sa ra)
                 = Ok (Cst ((- va) mod 2 ^ n) n (- x <? 0) None)).
  { unfold py_neg. rewrite Hx. simpl. rewrite cst_ok by lia.
    do 2 f_equal. rewrite <- Hxm.
    replace (- x) with (0 - x) by lia.
    replace (- (x mod 2 ^ n)) with (0 - x mod 2 ^ n) by lia.
    symmetry. apply Zminus_mod_idemp_r. }
  split_and!.
  - by apply Hinv.
  - rewrite Hinv by lia. cbn [mbind res_bind]. rewrite Hinv by lia.
    do 2 f_equal. lia.
  - eauto.
  - rewrite Hneg. cbn [mbind res_bind].
    destruct (cst_add_pattern va ((- va) mod 2 ^ n) n sa
                (- x <? 0) ra None Hn Ha
                (Z.mod_pos_bound _ _ Hpos)) as [s Hs].
    exists s. rewrite Hs. do 2 f_equal.
    rewrite Zplus_mod_idemp_r. replace (va + - va) with 0 by lia.
    by apply Z.mod_0_l, Z.pow_nonzero; lia.
  - rewrite Hinv by lia. cbn [mbind res_bind].
    assert (H1 : 0 <= 1 < 2 ^ n).
    { split; [lia |]. replace 1 with (2 ^ 0) at 1 by done.
      apply Z.pow_lt_mono_r; lia. }
    destruct (cst_add_pattern (2 ^ n - 1 - va) 1 n false false
                None None Hn ltac:(lia) H1) as [s Hs].
    exists s. rewrite Hs. do 2 f_equal.
    replace (2 ^ n - 1 - va + 1) with (- va + 1 * 2 ^ n) by lia.
    by rewrite Z.mod_add by lia.
Qed.
End CstArith.

Lemma cst_arith_modular_witness :
  (1 <= 8 /\ 0 <= 200 < 2 ^ 8 /\ 0 <= 100 < 2 ^ 8)
  /\ exists s,
      py_dunder (ascii_config 0) (engine_at (ascii_config 0) 0) D_add
                (Cst 200 8 false None) (Cst 100 8 true None)
      = Ok (Cst ((200 + 100) mod 2 ^ 8) 8 s None).
Proof.
  split; [lia |].
  apply (cst_arith_modular (ascii_config 0) (engine_at (ascii_config 0) 0)
           200 100 8 false true None None); lia.
Defined.


Lemma cst_shifts_witness :
  (1 <= 8 /\ 0 <= 255 < 2 ^ 8 /\ 0 <= 1)
  /\ py_dunder (ascii_config 0) (engine_at (ascii_config 0) 0) D_rshift
               (Cst 255 8 true None) (Cst 1 32 false None)
     = Ok (Cst (255 / 2 ^ 1) 8 false None).
Proof.
  split; [lia |].
  apply (cst_shifts (ascii_config 0) (engine_at (ascii_config 0) 0)
           255 8 1 32 true None None); lia.
Defined.


Lemma cst_neg_invert_witness :
  (1 <= 8 /\ 0 <= 5 < 2 ^ 8)
  /\ py_invert (engine_at (ascii_config 0) 0) (Cst 5 8 false None)
     = Ok (Cst (2 ^ 8 - 1 - 5) 8 false None).
Proof.
  split; [lia |].
  apply (cst_neg_invert (ascii_config 0) (engine_at (ascii_config 0) 0)
           5 8 false None); lia.
Defined.

(** ** The simplifier on registers and constants *)

Lemma fgt_small (q : Q) (c t : Z) :
  Qle_bool q (inject_Z c) = true -> c <= t -> fgt (Fin q) t = false.
Proof.
  intros Hq Hc. unfold fgt. apply negb_false_iff.
  apply Qle_bool_iff. apply Qle_bool_iff in Hq.
  eapply Qle_trans; [exact Hq |]. by rewrite <- Zle_Qle.
Qed.

Lemma eqn2_threshold_small (cfg : config) (e : eqn) (ql qr : Q) (c : Z) :
  threshold_allows cfg c ->
  complexity (e_l e) = Ok (Fin ql) -> complexity (e_r e) = Ok (Fin qr) ->
  Qle_bool ql (inject_Z c) = true -> Qle_bool qr (inject_Z c) = true ->
  eqn2_threshold cfg e = Ok e.
Proof.
  intros Ht Hl Hr Hql Hqr. unfold eqn2_threshold.
  destruct (Z.ltb_spec 0 (cas_complexity cfg)); [| reflexivity].
  destruct Ht as [Ht | Ht]; [lia |].
  rewrite Hr. cbn [mbind res_bind].
  rewrite (fgt_small qr c) by done. rewrite Hl. cbn [mbind res_bind].
  by rewrite (fgt_small ql c).
Qed.

Lemma complexity_reg (r : string) (n : Z) :
  complexity (reg r n) = Ok (Fin (1 * (1 + 1))).
Proof. reflexivity. Qed.

Lemma complexity_cst (v n : Z) (s : bool) (ref : option string) :
  complexity (Cst v n s ref) = Ok (Fin (1 * (1 + 0))).
Proof. reflexivity. Qed.

Section Ident.
Variable cfg : config.
Variable fuel : nat.
Hypothesis Ht : threshold_allows cfg 2.

Lemma eqn2_threshold_reg_cst (o : operator) (r : string) (n m : Z) (v : Z)
      (s sc : bool) (ref : option string) (p : Z) :
  eqn2_threshold cfg (Eqn o (reg r n) (Cst v n sc ref) m s p)
  = Ok (Eqn o (reg r n) (Cst v n sc ref) m s p).
Proof.
  eapply (eqn2_threshold_small cfg _ _ _ 2 Ht); try apply complexity_reg;
    try apply complexity_cst; reflexivity.
Qed.

(** X7. With a register [x] and the constant 0 or 1 of its width on the
    right, [oper] applies the identities of eqn2_helpers: [x+0], [x-0],
    [x|0], [x^0] and the shifts and rotations by 0 are [x]; [x&0] and
    [x*0] are the constant 0; [x*1] and [x/1] are [x]. *)
Theorem oper_zero_one (r : string) (n : Z) :
  0 <= n ->
  let x := reg r n in
  let zero := Cst 0 n false None in
  let one := Cst 1 n false None in
  (forall s, s ∈ [OP_ADD; OP_MIN; OP_OR; OP_XOR; OP_LSL; OP_LSR; OP_ROR; OP_ROL] ->
             py_oper cfg (S (S fuel)) s x zero = Ok x)
  /\ (forall s, s ∈ [OP_AND; OP_MUL] ->
                py_oper cfg (S (S fuel)) s x zero = Ok (Cst 0 n false None))
  /\ (forall s, s ∈ [OP_MUL; OP_DIV] ->
                py_oper cfg (S (S fuel)) s x one = Ok x).
Proof.
  intros Hn x zero one. subst x zero one.
  split_and!; intros s Hs; repeat (apply elem_of_cons in Hs as [-> | Hs]);
    try (by apply elem_of_nil in Hs);
    unfold py_oper, oper, op_new; simpl; rewrite ?Z.eqb_refl; simpl;
    unfold simp; simpl; unfold eqn2_helpers;
    rewrite eqn2_threshold_reg_cst; simpl.
  all: try reflexivity.
  all: unfold eqn2_identities; simpl; rewrite cst_ok by lia; simpl;
    rewrite Z.mod_0_l by (apply Z.pow_nonzero; lia); reflexivity.
Qed.

Lemma string_ltb_irrefl (a : string) : String.ltb a a = false.
Proof.
  unfold String.ltb. pose proof (String.compare_antisym a a) as H.
  by destruct (String.compare a a).
Qed.

(** X8. With the same register on both sides, [oper] gives 0 for [-]
    and [^], the register for [&] and [|], true for [==], [<=], [>=] and
    false for [!=], [<], [>]. *)
Theorem oper_same_operand (r : string) (n : Z) :
  0 <= n ->
  let x := reg r n in
  (forall s, s ∈ [OP_MIN; OP_XOR] ->
             py_oper cfg (S (S fuel)) s x x = Ok (Cst 0 n false None))
  /\ (forall s, s ∈ [OP_AND; OP_OR] -> py_oper cfg (S (S fuel)) s x x = Ok x)
  /\ (forall s, s ∈ [OP_EQ; OP_LE; OP_GE] ->
                py_oper cfg (S (S fuel)) s x x = Ok bit1)
  /\ (forall s, s ∈ [OP_NEQ; OP_LT; OP_GT] ->
                py_oper cfg (S (S fuel)) s x x = Ok bit0).
Proof.
  intros Hn x. subst x.
  assert (Hth : forall o m s p,
            eqn2_threshold cfg (Eqn o (reg r n) (reg r n) m s p)
            = Ok (Eqn o (reg r n) (reg r n) m s p)).
  { intros. eapply (eqn2_threshold_small cfg _ _ _ 2 Ht);
      try apply complexity_reg; reflexivity. }
  split_and!; intros s Hs; repeat (apply elem_of_cons in Hs as [-> | Hs]);
    try (by apply elem_of_nil in Hs);
    unfold py_oper, oper, op_new; simpl; rewrite ?Z.eqb_refl; simpl;
    unfold simp; simpl; rewrite ?string_ltb_irrefl; unfold eqn2_helpers;
    rewrite Hth; simpl; unfold eqn2_same; simpl;
    rewrite bool_decide_true by done; simpl.
  all: try reflexivity.
  all: rewrite cst_ok by lia; simpl;
    rewrite Z.mod_0_l by (apply Z.pow_nonzero; lia); reflexivity.
Qed.

(** X9. A constant operand is pushed to the right: [x + c] and [c + x]
    are the same node [(x+c)], and [c - x] is [((-x)+c)], for a register
    [x] and a constant [c] whose value is not 0. *)
Theorem oper_constant_right (r : string) (n v a : Z) (sc : bool) :
  cst_value v n sc = Ok a -> a <> 0 ->
  let x := reg r n in
  let c := Cst v n sc None in
  py_oper cfg (S (S fuel)) OP_ADD x c
  = Ok (Op (Operator OP_ADD false) x c n sc 1)
  /\ py_oper cfg (S (S fuel)) OP_ADD c x
     = Ok (Op (Operator OP_ADD false) x c n sc 1)
  /\ py_oper cfg (S (S (S fuel))) OP_MIN c x
     = Ok (Op (Operator OP_ADD false)
              (Uop (Operator OP_MIN true) x n false 1) c n sc 1).
Proof.
  intros Hval Ha x c. subst x c.
  assert (Hrest : forall E l s,
    complexity l = Ok (Fin (1 * (1 + 1))) ->
    _is_top l = false -> _is_eqn l = false -> _is_ptr l = false ->
    _is_cmp l = false -> _is_cst l = false -> _is_vec l = false ->
    (exists t, str cfg l = Ok t) ->
    eqn2_helpers cfg E false false
      (Eqn (Operator OP_ADD false) l (Cst v n sc None) n s 1)
    = Ok (Op (Operator OP_ADD false) l (Cst v n sc None) n s 1,
          Some (Operator OP_ADD false))).
  { intros E l s Hc H1 H2 H3 H4 H5 H6 [t Hstr]. unfold eqn2_helpers.
    erewrite eqn2_threshold_small;
      [| exact Ht | exact Hc | apply complexity_cst
       | reflexivity | reflexivity].
    cbn [mbind res_bind e_l e_r e_op e_size]. rewrite H1. simpl.
    unfold eqn2_left_cst, eqn2_add_neg, eqn2_right_cst. simpl. rewrite H2.
    simpl. rewrite Hval. simpl.
    unfold eqn2_identities. simpl.
    destruct (Z.eqb_spec a 0); [done |]. simpl.
    rewrite andb_false_r. simpl.
    unfold eqn2_by_left. simpl. rewrite H2, H3, H4, H5, H6. simpl.
    unfold eqn2_same. simpl. rewrite Hstr, Hval. simpl.
    by destruct (bool_decide _). }
  split_and!.
  - unfold py_oper, oper, op_new; simpl; rewrite ?Z.eqb_refl; simpl.
    unfold simp; simpl. by rewrite Hrest by (try reflexivity; eauto).
  - unfold py_oper, oper, op_new; simpl; rewrite ?Z.eqb_refl; simpl.
    unfold simp; simpl. rewrite orb_false_r.
    by rewrite Hrest by (try reflexivity; eauto).
  - unfold py_oper, oper, op_new; simpl; rewrite ?Z.eqb_refl; simpl.
    unfold simp; simpl. rewrite orb_false_r.
    unfold eqn2_helpers.
    erewrite eqn2_threshold_small;
      [| exact Ht | reflexivity | apply complexity_cst
       | reflexivity | reflexivity].
    simpl. rewrite Hval. simpl. unfold eqn2_identities. simpl.
    destruct (Z.eqb_spec a 0); [done |]. simpl.
    rewrite andb_false_r. reflexivity.
Qed.

(** X10. On a register, [-(-x)] is [x]; a double inversion [~(~x)]
    is kept as it is. *)
Theorem uop_double_negation (r : string) (n : Z) :
  let x := reg r n in
  let E := engine_at cfg (S (S (S fuel))) in
  (y ← py_neg E x; py_neg E y) = Ok x
  /\ py_neg E x = Ok (Uop (Operator OP_MIN true) x n false 1)
  /\ (y ← py_invert E x; py_invert E y)
     = Ok (Uop (Operator OP_NOT true)
               (Uop (Operator OP_NOT true) x n false 2) n false 2).
Proof.
  intros x E. subst x E. split_and!; reflexivity.
Qed.

Lemma r_simplify_S (f : nat) :
  r_simplify (engine_at cfg (S f)) = simplify cfg (engine_at cfg f).
Proof. reflexivity. Qed.

Lemma r_getitem_S (f : nat) :
  r_getitem (engine_at cfg (S f)) = getitem (engine_at cfg f).
Proof. reflexivity. Qed.

Lemma r_setitem_S (f : nat) :
  r_setitem (engine_at cfg (S f)) = setitem (engine_at cfg f).
Proof. reflexivity. Qed.

#[local] Arguments engine_at : simpl never.

(** X11. The inversion of a comparison is the opposite comparison:
    [~(x == y)] is [(x != y)] for two registers of different names. *)
Theorem not_comparison_flips (a b : string) (n : Z) :
  a <> b ->
  let x := reg a n in
  let y := reg b n in
  (c ← py_oper cfg (S (S fuel)) OP_EQ x y;
   py_invert (engine_at cfg (S (S (S (S fuel))))) c)
  = py_oper cfg (S (S fuel)) OP_NEQ x y
  /\ py_oper cfg (S (S fuel)) OP_NEQ x y
     = Ok (Op (Operator OP_NEQ false) x y 1 false 4).
Proof.
  intros Hab x y. subst x y.
  assert (Hth : forall o m s p,
            eqn2_threshold cfg (Eqn o (reg a n) (reg b n) m s p)
            = Ok (Eqn o (reg a n) (reg b n) m s p)).
  { intros. eapply (eqn2_threshold_small cfg _ _ _ 2 Ht);
      try apply complexity_reg; reflexivity. }
  assert (Hsimp : forall f s, s = OP_EQ \/ s = OP_NEQ ->
            simplify cfg (engine_at cfg (S f)) no_kargs
              (Op (Operator s false) (reg a n) (reg b n) 1 false 4)
            = Ok (Op (Operator s false) (reg a n) (reg b n) 1 false 4,
                  Some (Operator s false))).
  { intros f s [-> | ->];
      unfold simplify, op_simplify, simp; rewrite !r_simplify_S; simpl;
      unfold eqn2_helpers; rewrite Hth; simpl; unfold eqn2_same; simpl;
      by rewrite bool_decide_false. }
  assert (Hop : forall f s, s = OP_EQ \/ s = OP_NEQ ->
            py_oper cfg (S (S f)) s (reg a n) (reg b n)
            = Ok (Op (Operator s false) (reg a n) (reg b n) 1 false 4)).
  { intros f s Hs. unfold py_oper, oper.
    assert (op_new s (reg a n) (reg b n)
            = Ok (Op (Operator s false) (reg a n) (reg b n) 1 false 4)) as ->
      by (by destruct Hs as [-> | ->]).
    cbn [mbind res_bind]. unfold simp. rewrite r_simplify_S, Hsimp by done.
    reflexivity. }
  split; [| by apply Hop; right].
  rewrite !Hop by auto. cbn [mbind res_bind].
  unfold py_invert, oper1, uop_new. simpl.
  unfold simp. rewrite r_simplify_S. unfold simplify, uop_simplify, simp.
  rewrite r_simplify_S, Hsimp by auto. simpl.
  unfold eqn1_helpers. simpl.
  unfold py_dunder, py_dunder2, exp_dunder, hash_eq. simpl.
  rewrite bool_decide_false by congruence. simpl.
  change (oper (engine_at cfg (S (S (S fuel)))))
    with (py_oper cfg (S (S (S fuel)))).
  rewrite Hop by auto. reflexivity.
Qed.
End Ident.

Lemma threshold_off : threshold_allows (ascii_config 0) 2.
Proof. left. simpl. lia. Defined.

Lemma oper_zero_one_witness :
  (threshold_allows (ascii_config 0) 2 /\ 0 <= 32)
  /\ py_oper (ascii_config 0) 2 OP_ADD (reg "a" 32) (Cst 0 32 false None)
     = Ok (reg "a" 32).
Proof.
  split; [split; [exact threshold_off | lia] |].
  apply (proj1 (oper_zero_one (ascii_config 0) 0 threshold_off "a" 32
                  ltac:(lia))).
  left.
Defined.

Lemma oper_same_operand_witness :
  (threshold_allows (ascii_config 0) 2 /\ 0 <= 32)
  /\ py_oper (ascii_config 0) 2 OP_XOR (reg "a" 32) (reg "a" 32)
     = Ok (Cst 0 32 false None).
Proof.
  split; [split; [exact threshold_off | lia] |].
  apply (proj1 (oper_same_operand (ascii_config 0) 0 threshold_off "a" 32
                  ltac:(lia))).
  right. left.
Defined.

Lemma oper_constant_right_witness :
  (threshold_allows (ascii_config 0) 2
   /\ cst_value 4 32 false = Ok 4 /\ 4 <> 0)
  /\ py_oper (ascii_config 0) 2 OP_ADD (Cst 4 32 false None) (reg "a" 32)
     = Ok (Op (Operator OP_ADD false) (reg "a" 32) (Cst 4 32 false None)
              32 false 1).
Proof.
  split; [split_and!; [exact threshold_off | reflexivity | lia] |].
  apply (oper_constant_right (ascii_config 0) 0 threshold_off "a" 32 4 4
           false eq_refl ltac:(lia)).
Defined.

Lemma not_comparison_flips_witness :
  (threshold_allows (ascii_config 0) 2 /\ "a" <> "b")
  /\ py_oper (ascii_config 0) 2 OP_NEQ (reg "a" 32) (reg "b" 32)
     = Ok (Op (Operator OP_NEQ false) (reg "a" 32) (reg "b" 32) 1 false 4).
Proof.
  split; [split; [exact threshold_off | discriminate] |].
  apply (not_comparison_flips (ascii_config 0) 0 threshold_off "a" "b" 32).
  discriminate.
Defined.

(** ** Slices *)

Lemma checkarg_slice_in {R : Type} (f : exp -> pyslice -> res R)
      (e : exp) (a b : Z) :
  0 <= a -> a < b -> b <= size e ->
  checkarg_slice f e (slice_of a b) = f e (Slice (Some a) (Some b) None).
Proof.
  intros Ha Hab Hb. rewrite checkarg_slice_spec. unfold in_bounds.
  destruct (Z.leb_spec 0 a); [| lia]. destruct (Z.ltb_spec a b); [| lia].
  destruct (Z.leb_spec b (size e)); [| lia]. reflexivity.
Qed.

Lemma cst_getitem_ok (E : engine) (v n : Z) (s : bool) (r : option string)
      (a b : Z) :
  0 <= a -> a < b -> b <= n ->
  getitem E (Cst v n s r) (slice_of a b)
  = Ok (Cst ((v / 2 ^ a) mod 2 ^ (b - a)) (b - a) (v / 2 ^ a <? 0) None).
Proof.
  intros Ha Hab Hb. unfold getitem.
  rewrite checkarg_slice_in by (simpl; lia).
  unfold getitem_body, cst_getitem. simpl.
  assert (Ea : match a with 0 => 0 | _ => a end = a) by (by destruct a).
  assert (Eb : match b with 0 => n | _ => b end = b)
    by (destruct b; [lia | done | done]).
  rewrite Ea, Eb. unfold py_rshift.
  destruct (Z.ltb_spec a 0); [lia |]. simpl.
  rewrite cst_ok by lia. by rewrite Z.shiftr_div_pow2 by lia.
Qed.

(** X12. Slicing a constant extracts bits: [c[a:b]] is the unsigned
    constant of width [b-a] whose bit [i] is bit [a+i] of [c]; cutting a
    constant in two at any position and merging the two pieces the way
    comp.restruct merges adjacent constants gives the pattern back. *)
Theorem cst_slice_bits (E : engine) (v n : Z) (s : bool)
        (r : option string) (a b : Z) :
  0 <= v < 2 ^ n -> 0 <= a -> a < b -> b <= n ->
  let c := Cst v n s r in
  getitem E c (slice_of a b)
  = Ok (Cst ((v / 2 ^ a) mod 2 ^ (b - a)) (b - a) false None)
  /\ (forall i, 0 <= i < b - a ->
                Z.testbit ((v / 2 ^ a) mod 2 ^ (b - a)) i
                = Z.testbit v (a + i))
  /\ (forall k, 0 < k < n ->
        (lo ← getitem E c (slice_of 0 k);
         hi ← getitem E c (slice_of k n);
         merge_cst lo hi) = Ok (Cst v n false None)).
Proof.
  intros Hv Ha Hab Hb c. subst c.
  assert (Hdiv : forall k, 0 <= k -> 0 <= v / 2 ^ k).
  { intros k Hk. apply Z.div_pos; [lia |]. apply Z.pow_pos_nonneg; lia. }
  assert (Hsf : forall k, 0 <= k -> (v / 2 ^ k <? 0) = false).
  { intros k Hk. apply Z.ltb_ge. by apply Hdiv. }
  split_and!.
  - rewrite cst_getitem_ok by lia. by rewrite Hsf.
  - intros i Hi. rewrite <- Z.land_ones by lia.
    rewrite Z.land_spec, Z.ones_spec_low, andb_true_r by lia.
    rewrite <- Z.shiftr_div_pow2 by lia. rewrite Z.shiftr_spec by lia.
    f_equal. lia.
  - intros k Hk. rewrite !cst_getitem_ok by lia. rewrite !Hsf by lia.
    cbn [mbind res_bind].
    replace (k - 0) with k by lia.
    assert (Hlo : 0 <= (v / 2 ^ 0) mod 2 ^ k < 2 ^ k)
      by (apply Z.mod_pos_bound, Z.pow_pos_nonneg; lia).
    assert (Hhi : 0 <= (v / 2 ^ k) mod 2 ^ (n - k) < 2 ^ (n - k))
      by (apply Z.mod_pos_bound, Z.pow_pos_nonneg; lia).
    destruct (merge_cst_little_endian _ k _ (n - k) false false None None
                ltac:(lia) ltac:(lia) Hlo Hhi) as [-> _].
    f_equal. replace (k + (n - k)) with n by lia. f_equal.
    rewrite Z.pow_0_r, Z.div_1_r.
    assert (Hp : 2 ^ n = 2 ^ k * 2 ^ (n - k)).
    { rewrite <- Z.pow_add_r by lia. f_equal. lia. }
    assert (0 < 2 ^ k) by (apply Z.pow_pos_nonneg; lia).
    assert (0 < 2 ^ (n - k)) by (apply Z.pow_pos_nonneg; lia).
    rewrite (Z.mod_small (v / 2 ^ k)).
    + rewrite Z.add_comm, Z.mul_comm. symmetry. apply Z.div_mod. lia.
    + split; [by apply Hdiv; lia |].
      apply Z.div_lt_upper_bound; lia.
Qed.

Lemma cst_slice_bits_witness :
  (0 <= 0xabcd < 2 ^ 16 /\ 0 <= 4 /\ 4 < 12 /\ 12 <= 16)
  /\ getitem (engine_at (ascii_config 0) 0) (Cst 0xabcd 16 false None)
             (slice_of 4 12)
     = Ok (Cst ((0xabcd / 2 ^ 4) mod 2 ^ (12 - 4)) (12 - 4) false None).
Proof.
  split; [lia |].
  apply (cst_slice_bits (engine_at (ascii_config 0) 0) 0xabcd 16 false None
           4 12); lia.
Defined.

Lemma reg_getitem_ok (E : engine) (r : string) (n p q : Z) :
  0 <= p -> p < q -> q <= n ->
  getitem E (reg r n) (slice_of p q)
  = Ok (if (p =? 0) && (q - p =? n) then reg r n
        else Slc (reg r n) p (q - p) false None
                 (Z.lor et_slc (etype (reg r n)))).
Proof.
  intros Hp Hpq Hq. unfold getitem.
  rewrite checkarg_slice_in by (simpl; lia).
  unfold getitem_body, exp_getitem, slicer. simpl.
  by destruct ((p =? 0) && (q - p =? n)).
Qed.

Lemma slc_reg_getitem_ok (E : engine) (r : string) (n p m a b et : Z) :
  0 <= a -> a < b -> b <= m ->
  getitem E (Slc (reg r n) p m false None et) (slice_of a b)
  = Ok (if (a =? 0) && (b =? m) then Slc (reg r n) p m false None et
        else if (p + a =? 0) && (b - a =? n) then reg r n
        else Slc (reg r n) (p + a) (b - a) false None
                 (Z.lor et_slc (etype (reg r n)))).
Proof.
  intros Ha Hab Hb. unfold getitem.
  rewrite checkarg_slice_in by (simpl; lia).
  unfold getitem_body, slc_getitem. simpl.
  destruct ((a =? 0) && (b =? m)); [reflexivity |].
  unfold slicer. simpl.
  by destruct ((p + a =? 0) && (b - a =? n)).
Qed.

(** X13. Slices of a register compose and never nest: [(x[p:q])[a:b]]
    is [x[p+a:p+b]], a slice whose carrier is the register itself. *)
Theorem slice_of_slice (E : engine) (r : string) (n p q a b : Z) :
  0 <= p -> p < q -> q <= n -> 0 <= a -> a < b -> b <= q - p ->
  let x := reg r n in
  (s ← getitem E x (slice_of p q); getitem E s (slice_of a b))
  = getitem E x (slice_of (p + a) (p + b))
  /\ exists y, getitem E x (slice_of (p + a) (p + b)) = Ok y
               /\ (y = x \/ y = Slc x (p + a) (b - a) false None
                                     (Z.lor et_slc (etype x))).
Proof.
  intros Hp Hpq Hq Ha Hab Hb x. subst x.
  rewrite (reg_getitem_ok E r n (p + a) (p + b)) by lia.
  replace (p + b - (p + a)) with (b - a) by lia.
  split.
  - rewrite (reg_getitem_ok E r n p q) by lia. cbn [mbind res_bind].
    destruct (Z.eqb_spec p 0) as [-> | Hp0]; cbn [andb].
    + destruct (Z.eqb_spec (q - 0) n) as [Hqn | Hqn].
      * rewrite reg_getitem_ok by lia. reflexivity.
      * rewrite slc_reg_getitem_ok by lia.
        destruct (Z.eqb_spec a 0) as [-> | Ha0]; cbn [andb].
        -- destruct (Z.eqb_spec b (q - 0)) as [-> | Hbq].
           ++ destruct (Z.eqb_spec (q - 0 - 0) n); [lia |].
              cbn [andb Z.add]. do 2 f_equal; lia.
           ++ reflexivity.
        -- reflexivity.
    + rewrite slc_reg_getitem_ok by lia.
      destruct (Z.eqb_spec (p + a) 0); [lia |]. cbn [andb].
      destruct (Z.eqb_spec a 0) as [-> | Ha0]; cbn [andb]; [| reflexivity].
      destruct (Z.eqb_spec b (q - p)) as [-> | Hbq]; [| reflexivity].
      do 2 f_equal; lia.
  - eexists. split; [reflexivity |].
    destruct ((p + a =? 0) && (b - a =? n)); eauto.
Qed.

Lemma slice_of_slice_witness :
  (0 <= 8 /\ 8 < 24 /\ 24 <= 32 /\ 0 <= 4 /\ 4 < 8 /\ 8 <= 24 - 8)
  /\ (s ← getitem (engine_at (ascii_config 0) 0) (reg "a" 32) (slice_of 8 24);
      getitem (engine_at (ascii_config 0) 0) s (slice_of 4 8))
     = getitem (engine_at (ascii_config 0) 0) (reg "a" 32)
               (slice_of (8 + 4) (8 + 8)).
Proof.
  split; [lia |].
  apply (slice_of_slice (engine_at (ascii_config 0) 0) "a" 32 8 24 4 8); lia.
Defined.

(** X14. A slice of a register built with an alias records the alias in
    the table of the register: the slice prints as its alias, slicing the
    register again at the same range finds the alias, and another range
    without alias prints in the raw form. *)
Theorem slc_alias_table (cfg : config) (E : engine) (r name : string)
        (n pos m pos' m' : Z) :
  name <> "" -> (pos', m') <> (pos, m) ->
  exists x' et,
    slc_new E (reg r n) pos m (Some name)
    = Ok (Slc x' pos m false (Some name) et)
    /\ str cfg (Slc x' pos m false (Some name) et) = Ok name
    /\ slc_new E x' pos m None = Ok (Slc x' pos m false (Some name) et)
    /\ slc_new E x' pos' m' None = Ok (Slc x' pos' m' false None et)
    /\ str cfg (Slc x' pos' m' false None et)
       = Ok (r +:+ "[" +:+ fmt_d pos' +:+ ":" +:+ fmt_d (pos' + m') +:+ "]").
Proof.
  intros Hname Hne. eexists _, _. split_and!.
  - reflexivity.
  - simpl. by destruct name.
  - unfold slc_new. simpl. rewrite bool_decide_true by done. reflexivity.
  - unfold slc_new. simpl. rewrite bool_decide_false by done. reflexivity.
  - reflexivity.
Qed.

Lemma slc_alias_table_witness :
  ("al" <> "" /\ (8, 8) <> (0, 8))
  /\ exists x' et,
      slc_new (engine_at (ascii_config 0) 0) (reg "eax" 32) 0 8 (Some "al")
      = Ok (Slc x' 0 8 false (Some "al") et)
      /\ str (ascii_config 0) (Slc x' 0 8 false (Some "al") et) = Ok "al".
Proof.
  split; [split; [discriminate | discriminate] |].
  destruct (slc_alias_table (ascii_config 0) (engine_at (ascii_config 0) 0)
              "eax" "al" 32 0 8 8 8) as (x' & et & H1 & H2 & _);
    [discriminate | discriminate |].
  exists x', et. split; assumption.
Defined.

(** X15. What _checkarg_slice refuses besides a range out of bounds, on
    reading and on writing and for every class: an index that is not a
    slice (TypeError), a slice with a step (ValueError), and a slice
    without start or without stop (the comparison with None is a
    TypeError). *)
Theorem slice_argument_refused (E : engine) (e v : exp) :
  getitem E e ANotSlice = Raise TypeError
  /\ setitem E e ANotSlice v = Raise TypeError
  /\ (forall a b st,
        getitem E e (ASlice (Slice a b (Some st))) = Raise ValueError
        /\ setitem E e (ASlice (Slice a b (Some st))) v = Raise ValueError)
  /\ (forall b,
        getitem E e (ASlice (Slice None b None)) = Raise TypeError
        /\ setitem E e (ASlice (Slice None b None)) v = Raise TypeError)
  /\ (forall a, 0 <= a ->
        getitem E e (ASlice (Slice (Some a) None None)) = Raise TypeError
        /\ setitem E e (ASlice (Slice (Some a) None None)) v
           = Raise TypeError).
Proof.
  split_and!; try (by destruct e).
  intros a Ha. unfold getitem, setitem.
  destruct e; unfold checkarg_slice; simpl;
    (destruct (Z.ltb_spec a 0); [lia | done]).
Qed.

Lemma slice_argument_refused_witness :
  0 <= 4
  /\ getitem (engine_at (ascii_config 0) 0) (reg "a" 32)
             (ASlice (Slice (Some 4) None None))
     = Raise TypeError.
Proof.
  split; [lia |].
  apply (slice_argument_refused (engine_at (ascii_config 0) 0) (reg "a" 32)
           (reg "a" 32)). lia.
Defined.

(** ** Masks *)

Lemma lowest_bit_of_run (i j : Z) :
  0 <= i <= j -> Z.land (2 ^ (j + 1) - 2 ^ i) (- (2 ^ (j + 1) - 2 ^ i)) = 2 ^ i.
Proof.
  intros Hij. set (k := j + 1 - i).
  assert (Hk : 1 <= k) by lia.
  assert (Hv : 2 ^ (j + 1) - 2 ^ i = Z.ones k * 2 ^ i).
  { rewrite Z.ones_equiv, <- Z.sub_1_r, Z.mul_sub_distr_r,
      <- Z.pow_add_r by lia. replace (k + i) with (j + 1) by lia. lia. }
  assert (Hv1 : 2 ^ (j + 1) - 2 ^ i - 1
                = Z.ones i + (Z.ones (k - 1) * 2 ^ 1) * 2 ^ i).
  { rewrite Hv, !Z.ones_equiv, <- !Z.sub_1_r.
    replace k with ((k - 1) + 1) at 1 by lia.
    rewrite Z.pow_add_r by lia. lia. }
  assert (Hi : 0 <= Z.ones i < 2 ^ i).
  { rewrite Z.ones_equiv. assert (0 < 2 ^ i) by (apply Z.pow_pos_nonneg; lia).
    lia. }
  apply Z.bits_inj'. intros m Hm.
  rewrite Z.land_spec, Z.bits_opp, <- Z.sub_1_r, Hv1 by lia.
  rewrite Hv at 1. rewrite Z.mul_pow2_bits, Z.testbit_ones by lia.
  rewrite Z.pow2_bits_eqb by lia.
  assert (Hlow : Z.testbit (Z.ones i + Z.ones (k - 1) * 2 ^ 1 * 2 ^ i) m
                 = if m <? i then Z.testbit (Z.ones i) m
                   else Z.testbit (Z.ones (k - 1) * 2 ^ 1) (m - i)).
  { destruct (Z.ltb_spec m i).
    - rewrite <- (Z.mod_pow2_bits_low _ i) by lia.
      rewrite Z.mod_add by (apply Z.pow_nonzero; lia).
      rewrite Z.mod_small by lia. reflexivity.
    - transitivity
        (Z.testbit ((Z.ones i + Z.ones (k - 1) * 2 ^ 1 * 2 ^ i) / 2 ^ i)
                   (m - i)).
      + rewrite Z.div_pow2_bits by lia. f_equal. lia.
      + rewrite Z.div_add by (apply Z.pow_nonzero; lia).
        rewrite Z.div_small by lia. reflexivity. }
  rewrite Hlow.
  destruct (Z.ltb_spec m i).
  - destruct (Z.leb_spec 0 (m - i)); [lia |]. simpl.
    symmetry. apply Z.eqb_neq. lia.
  - rewrite Z.mul_pow2_bits, Z.testbit_ones by lia.
    destruct (Z.eqb_spec i m) as [<- | Hne].
    + replace (i - i) with 0 by lia. simpl.
      destruct (Z.ltb_spec 0 k); [reflexivity | lia].
    + destruct (Z.leb_spec 0 (m - i)); [| lia].
      destruct (Z.leb_spec 0 (m - i - 1)); [| lia]. simpl.
      destruct (Z.ltb_spec (m - i) k), (Z.ltb_spec (m - i - 1) (k - 1));
        simpl; try reflexivity; lia.
Qed.

Lemma bit_length_pos (v : Z) : 0 < v -> bit_length v = Z.log2 v + 1.
Proof.
  intros Hv. unfold bit_length.
  destruct (Z.eqb_spec v 0); [lia |]. by rewrite Z.abs_eq by lia.
Qed.

(** X16. [get_lsb_msb] and [ismask] on a run of ones from bit [i] to bit
    [j]: the positions found are [(i, j)] and the test holds; the test
    holds for no other positive integer; on 0 the test raises ValueError
    (a shift by -1). *)
Theorem ismask_run_of_ones :
  (forall i j, 0 <= i <= j ->
     get_lsb_msb (2 ^ (j + 1) - 2 ^ i) = (i, j)
     /\ ismask (2 ^ (j + 1) - 2 ^ i) = Ok true)
  /\ (forall v, 0 < v -> ismask v = Ok true ->
        exists i j, 0 <= i <= j /\ v = 2 ^ (j + 1) - 2 ^ i)
  /\ ismask 0 = Raise ValueError.
Proof.
  split_and!.
  - intros i j Hij.
    assert (Hpi : 0 < 2 ^ i) by (apply Z.pow_pos_nonneg; lia).
    assert (Hpj : 2 ^ (j + 1) = 2 * 2 ^ j) by (rewrite Z.pow_add_r; lia).
    assert (Hle : 2 ^ i <= 2 ^ j) by (apply Z.pow_le_mono_r; lia).
    assert (Hg : get_lsb_msb (2 ^ (j + 1) - 2 ^ i) = (i, j)).
    { unfold get_lsb_msb. rewrite lowest_bit_of_run by done.
      rewrite !bit_length_pos by lia. rewrite Z.log2_pow2 by lia.
      f_equal; [lia |].
      rewrite (Z.log2_unique _ j) by (fold (j + 1); lia). lia. }
    split; [exact Hg |].
    unfold ismask. rewrite Hg. unfold py_lshift.
    destruct (Z.ltb_spec (j + 1) 0); [lia |].
    destruct (Z.ltb_spec i 0); [lia |]. simpl.
    rewrite !Z.shiftl_1_l, Z.lxor_comm.
    rewrite lxor_ones_low by lia. f_equal. apply Z.eqb_eq. lia.
  - intros v Hv H. unfold ismask, get_lsb_msb in H.
    set (i := bit_length (Z.land v (- v)) - 1) in *.
    set (j := bit_length v - 1) in *.
    unfold py_lshift in H.
    destruct (Z.ltb_spec (j + 1) 0); [discriminate |].
    destruct (Z.ltb_spec i 0); [discriminate |]. simpl in H.
    injection H as H. apply Z.eqb_eq in H. rewrite !Z.shiftl_1_l in H.
    assert (Hj : j = Z.log2 v) by (subst j; rewrite bit_length_pos; lia).
    assert (Hl : 0 <= Z.land v (- v) <= v).
    { apply Z.ldiff_le; [lia |]. apply Z.bits_inj'. intros m Hm.
      rewrite Z.ldiff_spec, Z.land_spec, Z.bits_0.
      by destruct (Z.testbit v m), (Z.testbit (- v) m). }
    assert (Hij : i <= j).
    { subst i. rewrite Hj. unfold bit_length.
      destruct (Z.eqb_spec (Z.land v (- v)) 0); [lia |].
      rewrite Z.abs_eq by lia.
      pose proof (Z.log2_le_mono _ _ (proj2 Hl)). lia. }
    exists i, j. split; [lia |].
    rewrite <- H, Z.lxor_comm. rewrite lxor_ones_low; [lia | lia |].
    assert (0 < 2 ^ i) by (apply Z.pow_pos_nonneg; lia).
    assert (2 ^ i <= 2 ^ (j + 1)) by (apply Z.pow_le_mono_r; lia). lia.
  - reflexivity.
Qed.

Lemma ismask_run_of_ones_witness :
  0 <= 3 <= 5 /\ ismask (2 ^ (5 + 1) - 2 ^ 3) = Ok true.
Proof.
  split; [lia |].
  apply (proj1 ismask_run_of_ones 3 5). lia.
Defined.

(** ** Pointers *)

Section Pointers.
Variable cfg : config.
Variable fuel : nat.
Hypothesis Ht : threshold_allows cfg 2.

(** a register plus or minus a constant that is not 0 is left as it is
    by simplify *)
Lemma simplify_reg_cst (s : opsym) (r : string) (n v a : Z) (sc f : bool) :
  s = OP_ADD \/ s = OP_MIN ->
  cst_value v n sc = Ok a -> a <> 0 -> r <> fmt_hex a ->
  simplify cfg (engine_at cfg (S fuel)) no_kargs
    (Op (Operator s false) (reg r n) (Cst v n sc None) n f 1)
  = Ok (Op (Operator s false) (reg r n) (Cst v n sc None) n f 1,
        Some (Operator s false)).
Proof.
  intros Hs Hval Ha Hr.
  unfold simplify, op_simplify, simp. rewrite !r_simplify_S.
  destruct Hs as [-> | ->]; simpl;
    unfold eqn2_helpers;
    (erewrite eqn2_threshold_small;
       [| exact Ht | apply complexity_reg | apply complexity_cst
        | reflexivity | reflexivity]);
    simpl; rewrite Hval; simpl; unfold eqn2_identities; simpl;
    (destruct (Z.eqb_spec a 0); [done |]); simpl;
    rewrite andb_false_r; simpl;
    unfold eqn2_same; simpl; rewrite Hval; simpl;
    by rewrite bool_decide_false.
Qed.

(** X17. ptr.__init__ folds constant offsets into the displacement:
    over a register the base is the register; over [(x + c)] or [(x - c)]
    the base is [x] and the value of [c] is added to or subtracted from
    the displacement; over another pointer the two displacements add up
    and the segment given, or else the inner one, is kept.  (The
    register is not named like the printed constant: operands that print
    alike are another rule of the simplifier.) *)
Theorem ptr_folds_offsets (r : string) (n v a d d1 : Z) (sc f : bool)
        (seg seg1 : option exp) :
  cst_value v n sc = Ok a -> a <> 0 -> r <> fmt_hex a ->
  let x := reg r n in
  let c := Cst v n sc None in
  py_ptr cfg (S (S fuel)) x seg d = Ok (Ptr x d seg n false)
  /\ py_ptr cfg (S (S fuel)) (Op (Operator OP_ADD false) x c n f 1) seg d
     = Ok (Ptr x (d + a) seg n false)
  /\ py_ptr cfg (S (S fuel)) (Op (Operator OP_MIN false) x c n f 1) seg d
     = Ok (Ptr x (d - a) seg n false)
  /\ py_ptr cfg (S (S fuel)) (Ptr x d1 seg1 n false) seg d
     = Ok (Ptr x (d1 + d)
               (match seg with None => seg1 | Some _ => seg end) n false).
Proof.
  intros Hval Ha Hr x c. subst x c.
  assert (Hp : forall o l r0 m g p, _is_ptr (Op o l r0 m g p) = false)
    by reflexivity.
  unfold py_ptr, ptr_new, extract_offset. rewrite r_simplify_S.
  split_and!.
  - simpl. do 2 f_equal. lia.
  - rewrite Hp. cbn [mbind res_bind]. rewrite (simplify_reg_cst _ r n v a sc f) by auto.
    simpl. rewrite Hval. simpl. reflexivity.
  - rewrite Hp. cbn [mbind res_bind]. rewrite (simplify_reg_cst _ r n v a sc f) by auto.
    simpl. rewrite Hval. simpl. first [reflexivity | do 2 f_equal; lia].
  - simpl. do 2 f_equal. lia.
Qed.
End Pointers.

Lemma ptr_folds_offsets_witness :
  (threshold_allows (ascii_config 0) 2
   /\ cst_value 4 32 false = Ok 4 /\ 4 <> 0 /\ "a" <> fmt_hex 4)
  /\ py_ptr (ascii_config 0) 2
            (Op (Operator OP_ADD false) (reg "a" 32) (Cst 4 32 false None)
                32 false 1) None 8
     = Ok (Ptr (reg "a" 32) (8 + 4) None 32 false).
Proof.
  split; [split_and!; [exact threshold_off | reflexivity | lia | done] |].
  apply (ptr_folds_offsets (ascii_config 0) 0 threshold_off "a" 32 4 4 8 0
           false false None None eq_refl ltac:(lia) ltac:(done)).
Defined.

(** ** Composite: writing and reading a range *)

Lemma list_set_slice_repeat {A : Type} (l : list A) (lo hi : Z) (x : A) :
  0 <= lo <= hi -> hi <= Z.of_nat (length l) ->
  length (list_set_slice l lo hi (list_repeat x (hi - lo))) = length l
  /\ forall i : nat,
       list_set_slice l lo hi (list_repeat x (hi - lo)) !! i
       = if (lo <=? Z.of_nat i) && (Z.of_nat i <? hi) then Some x else l !! i.
Proof.
  intros Hlo Hhi. unfold list_set_slice, list_repeat, clip.
  destruct (Z.ltb_spec lo 0); [lia |]. destruct (Z.ltb_spec hi 0); [lia |].
  rewrite !Z.min_l by lia.
  rewrite (Nat.max_r (Z.to_nat lo) (Z.to_nat hi)) by lia.
  assert (Hlen : length (take (Z.to_nat lo) l) = Z.to_nat lo)
    by (rewrite length_take; lia).
  split.
  - rewrite !length_app, Hlen, length_replicate, length_drop. lia.
  - intros i.
    destruct (Z.leb_spec lo (Z.of_nat i)); simpl.
    + rewrite lookup_app_r by lia. rewrite Hlen.
      destruct (Z.ltb_spec (Z.of_nat i) hi).
      * rewrite lookup_app_l by (rewrite length_replicate; lia).
        apply lookup_replicate_2. lia.
      * rewrite lookup_app_r by (rewrite length_replicate; lia).
        rewrite length_replicate, lookup_drop. f_equal. lia.
    + rewrite lookup_app_l by lia. rewrite lookup_take.
      destruct (decide (i < Z.to_nat lo)%nat); [done | lia].
Qed.

Lemma maskset_of_elem (l : list (option key)) (acc : list key) (k : key) :
  k ∈ maskset_of l acc -> k ∈ acc \/ Some k ∈ l.
Proof.
  revert acc. induction l as [| [k' |] l IH]; intros acc; simpl.
  - by left.
  - destruct (bool_decide (k' ∈ acc)).
    + intros H. destruct (IH _ H); [by left | right; by right].
    + intros H. destruct (IH _ H) as [[? | ->%list_elem_of_singleton]%elem_of_app | ?].
      * by left.
      * right. left.
      * right. by right.
  - intros H. destruct (IH _ H); [by left | right; by right].
Qed.

Lemma list_slice_elem {A : Type} (l : list A) (a b : Z) (x : A) :
  x ∈ list_slice l a b -> exists i : nat, l !! i = Some x.
Proof.
  unfold list_slice. intros [i [H _]]%elem_of_take.
  rewrite lookup_drop in H. eauto.
Qed.

Section IndexInvariant.
Variable n : Z.

Lemma index_inv_weaken (X X' : nat -> key -> Prop) smask parts :
  index_inv n X smask parts ->
  (forall i k, smask !! i = Some (Some k) ->
               0 <= k.1 <= Z.of_nat i /\ Z.of_nat i < k.2 <= n ->
               X i k -> X' i k) ->
  index_inv n X' smask parts.
Proof.
  intros [Hl H] HX. split; [done |]. intros i k Hik.
  destruct (H i k Hik) as [Hr [Hs | Hx]]; split; auto.
Qed.

Lemma index_inv_del (X : nat -> key -> Prop) smask parts (nk : key) :
  index_inv n X smask parts ->
  index_inv n (fun i k => X i k \/ k = nk) smask (dict_del nk parts).
Proof.
  intros [Hl H]. split; [done |]. intros i k Hik.
  destruct (H i k Hik) as [Hr [Hs | Hx]]; split; auto.
  destruct (decide (k = nk)) as [-> | Hne]; [auto |].
  left. by rewrite dict_get_del_ne.
Qed.

Lemma index_inv_set (X : nat -> key -> Prop) smask smask' parts parts'
      (lo hi : Z) :
  index_inv n X smask parts ->
  0 <= lo -> lo < hi -> hi <= n ->
  is_Some (dict_get (lo, hi) parts') ->
  (forall k, is_Some (dict_get k parts) -> is_Some (dict_get k parts')) ->
  length smask' = length smask
  /\ (forall i : nat,
        smask' !! i
        = if (lo <=? Z.of_nat i) && (Z.of_nat i <? hi) then Some (Some (lo, hi))
          else smask !! i) ->
  index_inv n (fun i k => X i k /\ ~ (lo <= Z.of_nat i < hi)) smask' parts'.
Proof.
  intros [Hl H] Hlo Hlh Hhi Hkey Hmono [Hlen Hlk].
  split; [by rewrite Hlen |]. intros i k. rewrite Hlk.
  destruct (Z.leb_spec lo (Z.of_nat i)), (Z.ltb_spec (Z.of_nat i) hi); simpl.
  - intros [= <-]. simpl. split; [lia | by left].
  - intros Hik. destruct (H i k Hik) as [Hr [Hs | Hx]]; split; auto.
    right. split; [done | lia].
  - intros Hik. destruct (H i k Hik) as [Hr [Hs | Hx]]; split; auto.
    right. split; [done | lia].
  - intros Hik. destruct (H i k Hik) as [Hr [Hs | Hx]]; split; auto.
    right. split; [done | lia].
Qed.
End IndexInvariant.

Lemma dict_set_is_Some (k k' : key) (v : exp) (d : list (key * exp)) :
  is_Some (dict_get k d) -> is_Some (dict_get k (dict_set k' v d)).
Proof.
  intros H. destruct (decide (k = k')) as [-> | Hne].
  - rewrite dict_get_set_eq. eauto.
  - by rewrite dict_get_set_ne.
Qed.

Section Cut.
Variable E : engine.
Variables n sta sto : Z.
Variable v : exp.
Hypothesis Hsta : 0 <= sta.
Hypothesis Hlt : sta < sto.
Hypothesis Hsto : sto <= n.

(** one optional update of comp.cut: the fragment of a part that sticks
    out of the range written *)
Lemma cut_piece_inv {R : Type} (X : nat -> key -> Prop) (cond : bool)
      (lo hi : Z) (piece : res exp) smask parts
      (K : list (option key) * list (key * exp) -> res R) (result : R) :
  (if cond
   then p ← piece;
        Ok (list_set_slice smask lo hi (list_repeat (Some (lo, hi)) (hi - lo)),
            dict_set (lo, hi) p parts)
   else Ok (smask, parts)) ≫= K = Ok result ->
  index_inv n X smask parts ->
  (cond = true -> 0 <= lo /\ lo < hi /\ hi <= n) ->
  exists smask2 parts2,
    K (smask2, parts2) = Ok result
    /\ index_inv n (fun i k => X i k /\ (cond = true -> ~ (lo <= Z.of_nat i < hi)))
                 smask2 parts2
    /\ (forall k, k <> (lo, hi) -> dict_get k parts2 = dict_get k parts).
Proof.
  intros H Hinv Hc. destruct cond.
  - destruct (Hc eq_refl) as (H1 & H2 & H3).
    destruct piece as [p | | |]; try discriminate. cbn in H.
    eexists _, _. split; [exact H |]. split.
    + eapply index_inv_weaken.
      * eapply (index_inv_set n X smask _ parts (dict_set (lo, hi) p parts)
                  lo hi Hinv H1 H2 H3).
        -- rewrite dict_get_set_eq. eauto.
        -- intros k. apply dict_set_is_Some.
        -- apply list_set_slice_repeat; [lia |]. destruct Hinv as [-> _]. lia.
      * simpl. intros i k _ _ [? ?]. auto.
    + intros k Hk. by rewrite dict_get_set_ne.
  - cbn in H. exists smask, parts. split; [exact H |]. split; [| done].
    eapply index_inv_weaken; [exact Hinv |]. simpl. intros i k _ _ ?.
    split; [done | discriminate].
Qed.

Lemma cut_loop_inv (M : list key) :
  forall smask parts smask' parts',
    index_inv n (fun i _ => sta <= Z.of_nat i < sto) smask parts ->
    (forall nk, nk ∈ M -> 0 <= nk.1 /\ nk.2 <= n /\ nk <> (sta, sto)) ->
    dict_get (sta, sto) parts = Some v ->
    cut_loop E M sta sto smask parts = Ok (smask', parts') ->
    index_inv n (fun i _ => sta <= Z.of_nat i < sto) smask' parts'
    /\ dict_get (sta, sto) parts' = Some v.
Proof.
  induction M as [| nk M IH]; intros smask parts smask' parts' Hinv HM Hv H.
  - injection H as <- <-. done.
  - destruct (HM nk ltac:(left)) as (Hk1 & Hk2 & Hne).
    cbn [cut_loop] in H. unfold dict_pop in H.
    destruct (dict_get nk parts) as [nv |] eqn:Hnk; [| discriminate].
    cbn [mbind res_bind] in H.
    apply (index_inv_del n _ _ _ nk) in Hinv.
    eapply cut_piece_inv in H; [| exact Hinv |].
    2: { intros Hc%Z.ltb_lt. lia. }
    destruct H as (smask2 & parts2 & H & Hinv2 & Hget2).
    cbn beta iota in H.
    eapply cut_piece_inv in H; [| exact Hinv2 |].
    2: { intros Hc%Z.ltb_lt. lia. }
    destruct H as (smask3 & parts3 & H & Hinv3 & Hget3).
    cbn beta iota in H.
    apply (IH smask3 parts3 smask' parts'); [| | | exact H].
    + eapply index_inv_weaken; [exact Hinv3 |]. simpl.
      intros i k _ Hr [[[Hx | ->] Hn1] Hn2]; [done |].
      destruct (Z.ltb_spec nk.1 sta), (Z.ltb_spec sto nk.2);
        try specialize (Hn1 eq_refl); try specialize (Hn2 eq_refl); lia.
    + intros nk' Hin. apply HM. by right.
    + rewrite Hget3, Hget2, dict_get_del_ne; [done | congruence | |].
      * intros [= ? ?]. lia.
      * intros [= ? ?]. lia.
Qed.
End Cut.

Lemma smask_ok_index_inv (n : Z) smask parts :
  smask_ok n smask parts <-> index_inv n (fun _ _ => False) smask parts.
Proof.
  split; intros [Hl H]; (split; [done |]); intros i k Hik.
  - destruct (H i k Hik) as [Hs Hr]. split; [lia | by left].
  - destruct (H i k Hik) as [Hr [Hs | []]]. split; [done | lia].
Qed.

Lemma maskset_of_none (l : list (option key)) (acc : list key) :
  (forall x, x ∈ l -> x = None) -> maskset_of l acc = acc.
Proof.
  revert acc. induction l as [| [k |] l IH]; intros acc H; simpl.
  - done.
  - by specialize (H (Some k) ltac:(left)).
  - apply IH. intros x Hx. apply H. by right.
Qed.

Lemma or_else_pos (x d : Z) : x <> 0 -> or_else (Some x) d = x.
Proof. intros Hx. by destruct x. Qed.

Lemma comp_setitem_unfold (E : engine) (n a b : Z) (s : bool)
      (smask : list (option key)) (parts : list (key * exp)) (v : exp) :
  0 <= a -> a < b -> b <= n -> _is_cmp v = false -> size v = b - a ->
  setitem E (Comp n s smask parts) (slice_of a b) v
  = match dict_get (a, b) parts with
    | Some _ => Ok (Comp n s smask (dict_set (a, b) v parts))
    | None =>
        '(smask', parts') ← comp_cut E a b smask (dict_set (a, b) v parts);
        Ok (Comp n s smask' parts')
    end.
Proof.
  intros Ha Hab Hb Hv Hsz. unfold setitem.
  rewrite checkarg_slice_in by (simpl; lia).
  unfold comp_setitem. cbn [start stop].
  rewrite (or_else_pos b) by lia.
  assert (or_else (Some a) 0 = a) as -> by (by destruct a).
  rewrite Hsz, Z.eqb_refl, Hv. reflexivity.
Qed.

Lemma comp_getitem_key (E : engine) (n a b : Z) (s : bool)
      (smask : list (option key)) (parts : list (key * exp)) (v : exp) :
  0 <= a -> a < b -> b <= n ->
  dict_get (a, b) parts = Some v ->
  getitem E (Comp n s smask parts) (slice_of a b) = Ok v.
Proof.
  intros Ha Hab Hb H. unfold getitem.
  rewrite checkarg_slice_in by (simpl; lia).
  unfold getitem_body, comp_getitem. cbn [start stop].
  rewrite (or_else_pos b) by lia.
  assert (or_else (Some a) 0 = a) as -> by (by destruct a).
  by rewrite H.
Qed.

Lemma list_slice_elem_range {A : Type} (l : list A) (a b : Z) (x : A) :
  0 <= a -> a <= b -> b <= Z.of_nat (length l) ->
  x ∈ list_slice l a b ->
  exists i : nat, a <= Z.of_nat i < b /\ l !! i = Some x.
Proof.
  intros Ha Hab Hb. unfold list_slice, clip.
  destruct (Z.ltb_spec a 0); [lia |]. destruct (Z.ltb_spec b 0); [lia |].
  rewrite !Z.min_l by lia.
  intros [i [Hx Hi]]%elem_of_take. rewrite lookup_drop in Hx.
  exists (Z.to_nat a + i)%nat. split; [lia | done].
Qed.

(** writing into a range that no part owns *)
Lemma comp_write_gap (E : engine) (n a b : Z) (s : bool)
      (smask : list (option key)) (parts : list (key * exp)) (v : exp) :
  0 <= a -> a < b -> b <= n -> _is_cmp v = false -> size v = b - a ->
  Z.of_nat (length smask) = n ->
  (forall i : nat, a <= Z.of_nat i < b -> smask !! i = Some None) ->
  dict_get (a, b) parts = None ->
  setitem E (Comp n s smask parts) (slice_of a b) v
  = Ok (Comp n s
             (list_set_slice smask a b (list_repeat (Some (a, b)) (b - a)))
             (dict_set (a, b) v parts)).
Proof.
  intros Ha Hab Hb Hv Hsz Hlen Hnone Hkey.
  rewrite comp_setitem_unfold, Hkey by done. unfold comp_cut.
  rewrite maskset_of_none; [reflexivity |].
  intros x [i [Hi Hx]]%list_slice_elem_range; [| lia | lia | lia].
  rewrite (Hnone i Hi) in Hx. by injection Hx.
Qed.

(** X18. Writing a part that is not itself a composite into a range
    [a:b] of a composite whose index is consistent: if the write returns
    (the fragments of the parts cut at [a] and at [b] can be sliced), the
    composite has the same width and sign flag, its index is consistent
    again, and reading [a:b] returns the part written.  The write returns
    whenever [(a, b)] is already a key, and on a new composite. *)
Theorem comp_write_read (E : engine) (n a b : Z) (s : bool)
        (smask : list (option key)) (parts : list (key * exp)) (v : exp) :
  0 <= a -> a < b -> b <= n -> _is_cmp v = false -> size v = b - a ->
  (forall c', smask_ok n smask parts ->
     setitem E (Comp n s smask parts) (slice_of a b) v = Ok c' ->
     comp_ok c' /\ size c' = n /\ sf c' = s
     /\ getitem E c' (slice_of a b) = Ok v)
  /\ (is_Some (dict_get (a, b) parts) ->
      setitem E (Comp n s smask parts) (slice_of a b) v
      = Ok (Comp n s smask (dict_set (a, b) v parts)))
  /\ exists smask',
      setitem E (comp n) (slice_of a b) v = Ok (Comp n false smask' [((a, b), v)])
      /\ smask_ok n smask' [((a, b), v)].
Proof.
  intros Ha Hab Hb Hv Hsz.
  assert (Hset : forall s smask parts,
    setitem E (Comp n s smask parts) (slice_of a b) v
    = match dict_get (a, b) parts with
      | Some _ => Ok (Comp n s smask (dict_set (a, b) v parts))
      | None =>
          '(smask', parts') ← comp_cut E a b smask (dict_set (a, b) v parts);
          Ok (Comp n s smask' parts')
      end)
    by (intros; by apply comp_setitem_unfold).
  assert (Hget : forall s smask parts,
    dict_get (a, b) parts = Some v ->
    getitem E (Comp n s smask parts) (slice_of a b) = Ok v)
    by (intros; by apply comp_getitem_key).
  assert (Hmain : forall s smask parts c',
    smask_ok n smask parts ->
    setitem E (Comp n s smask parts) (slice_of a b) v = Ok c' ->
    exists smask' parts', c' = Comp n s smask' parts'
      /\ smask_ok n smask' parts' /\ dict_get (a, b) parts' = Some v).
  { intros s0 smask0 parts0 c' Hok H. rewrite Hset in H.
    destruct (dict_get (a, b) parts0) as [old |] eqn:Hold.
    - injection H as <-. eexists _, _. split; [reflexivity |].
      split; [| apply dict_get_set_eq].
      destruct Hok as [Hl Hk]. split; [done |]. intros i k Hik.
      destruct (Hk i k Hik) as [Hs Hr]. split; [| done].
      by apply dict_set_is_Some.
    - unfold comp_cut in H.
      destruct (cut_loop E _ a b smask0 (dict_set (a, b) v parts0))
        as [[smask1 parts1] | | |] eqn:Hcut; try discriminate.
      cbn in H. injection H as <-.
      assert (Hi0 : index_inv n (fun i _ => a <= Z.of_nat i < b) smask0
                      (dict_set (a, b) v parts0)).
      { apply smask_ok_index_inv in Hok.
        destruct Hok as [Hl Hk]. split; [exact Hl |]. intros i k Hik.
        destruct (Hk i k Hik) as [Hr [Hs | []]]. split; [done |].
        left. apply dict_set_is_Some, Hs. }
      assert (HM : forall nk, nk ∈ maskset_of (list_slice smask0 a b) [] ->
                     0 <= nk.1 /\ nk.2 <= n /\ nk <> (a, b)).
      { intros nk Hin.
        apply maskset_of_elem in Hin as [Hin | Hin];
          [by apply elem_of_nil in Hin |].
        apply list_slice_elem in Hin as [i Hi].
        destruct Hok as [_ Hk]. destruct (Hk i nk Hi) as [Hs Hr].
        split_and!; [lia | lia |]. intros ->. rewrite Hold in Hs.
        by destruct Hs. }
      destruct (cut_loop_inv E n a b v Ha Hab Hb _ _ _ _ _
                  Hi0 HM (dict_get_set_eq _ _ _) Hcut) as [Hinv Hg].
      eexists _, _. split; [reflexivity |]. split; [| exact Hg].
      apply smask_ok_index_inv. eapply index_inv_weaken.
      + eapply (index_inv_set n _ smask1 _ parts1 parts1 a b Hinv Ha Hab Hb).
        * rewrite Hg. eauto.
        * auto.
        * apply list_set_slice_repeat; [lia |]. destruct Hinv as [-> _]. lia.
      + simpl. intros i k _ _ [? ?]. lia. }
  split_and!.
  - intros c' Hok H.
    destruct (Hmain _ _ _ _ Hok H) as (smask' & parts' & -> & Hok' & Hg).
    split_and!; [exact Hok' | done | done | by apply Hget].
  - intros [old Hold]. by rewrite Hset, Hold.
  - unfold comp. rewrite Hset. cbn [dict_get]. unfold comp_cut.
    rewrite maskset_of_none.
    + cbn [cut_loop mbind res_bind]. eexists. split; [reflexivity |].
      assert (Hlen : Z.of_nat (length (list_repeat (@None key) n)) = n)
        by (unfold list_repeat; rewrite length_replicate; lia).
      destruct (list_set_slice_repeat (list_repeat (@None key) n) a b
                  (Some (a, b))) as [Hl Hk]; [lia | lia |].
      split; [etrans; [| exact Hlen]; f_equal; exact Hl |].
      intros i k Hik. pose proof (eq_trans (eq_sym (Hk i)) Hik) as Hik'.
      destruct ((a <=? Z.of_nat i) && (Z.of_nat i <? b)) eqn:Hin.
      * injection Hik' as <-.
        apply andb_prop in Hin as [H1%Z.leb_le H2%Z.ltb_lt].
        simpl. rewrite bool_decide_true by done. split; [eauto | lia].
      * unfold list_repeat in Hik'.
        by apply lookup_replicate in Hik' as [[=] _].
    + intros x [i Hi]%list_slice_elem. unfold list_repeat in Hi.
      by apply lookup_replicate in Hi as [-> _].
Qed.

Lemma comp_write_read_witness :
  (0 <= 0 /\ 0 < 8 /\ 8 <= 32 /\ _is_cmp (reg "al" 8) = false
   /\ size (reg "al" 8) = 8 - 0)
  /\ exists smask',
       setitem (engine_at (ascii_config 0) 0) (comp 32) (slice_of 0 8)
               (reg "al" 8)
       = Ok (Comp 32 false smask' [((0, 8), reg "al" 8)])
       /\ smask_ok 32 smask' [((0, 8), reg "al" 8)].
Proof.
  split; [split_and!; (lia || reflexivity) |].
  exact (proj2 (proj2 (comp_write_read (engine_at (ascii_config 0) 0)
                         32 0 8 false [] [] (reg "al" 8)
                         ltac:(lia) ltac:(lia) ltac:(lia)
                         eq_refl eq_refl))).
Defined.

(** ** composer *)

Section DictCons.
Context {V : Type}.
Implicit Types (d : list (key * V)) (k : key) (v : V).

Lemma dict_get_cons_eq k v d : dict_get k ((k, v) :: d) = Some v.
Proof. simpl. by rewrite bool_decide_true. Qed.

Lemma dict_get_cons_ne k k' v d :
  k <> k' -> dict_get k ((k', v) :: d) = dict_get k d.
Proof. intros. simpl. by rewrite bool_decide_false. Qed.

Lemma dict_set_cons_ne k k' v v' d :
  k <> k' -> dict_set k v ((k', v') :: d) = (k', v') :: dict_set k v d.
Proof. intros. simpl. by rewrite bool_decide_false. Qed.

Lemma dict_del_cons_eq k v d : dict_del k ((k, v) :: d) = d.
Proof. simpl. by rewrite bool_decide_true. Qed.

Lemma dict_del_cons_ne k k' v d :
  k <> k' -> dict_del k ((k', v) :: d) = (k', v) :: dict_del k d.
Proof. intros. simpl. by rewrite bool_decide_false. Qed.
End DictCons.

(** the composite that the loop of composer builds from two parts *)
Lemma composer_loop_pair (cfg : config) (fuel : nat) (x y : exp) (s : bool) :
  0 < size x -> 0 < size y -> _is_cmp x = false -> _is_cmp y = false ->
  let n := size x + size y in
  exists smask,
    composer_loop (engine_at cfg (S fuel)) (Comp n s (list_repeat None n) [])
                  0 [x; y]
    = Ok (Comp n s smask [((0, size x), x); ((size x, n), y)])
    /\ smask_ok n smask [((0, size x), x); ((size x, n), y)].
Proof.
  intros Hx Hy Cx Cy n.
  assert (Hlen0 : Z.of_nat (length (list_repeat (@None key) n)) = n)
    by (unfold list_repeat; rewrite length_replicate; lia).
  destruct (list_set_slice_repeat (list_repeat (@None key) n) 0 (size x)
              (Some (0, size x))) as [Hl1 Hk1]; [lia | lia |].
  set (smask1 := list_set_slice (list_repeat (@None key) n) 0 (size x)
                   (list_repeat (Some (0, size x)) (size x - 0))) in *.
  assert (Hlen1 : Z.of_nat (length smask1) = n)
    by (etrans; [| exact Hlen0]; f_equal; exact Hl1).
  destruct (list_set_slice_repeat smask1 (size x) n (Some (size x, n)))
    as [Hl2 Hk2]; [lia | rewrite Hlen1; lia |].
  set (smask2 := list_set_slice smask1 (size x) n
                   (list_repeat (Some (size x, n)) (n - size x))) in *.
  exists smask2. split.
  - cbn [composer_loop]. rewrite r_setitem_S, !Z.add_0_l.
    rewrite (comp_write_gap _ n 0 (size x) s _ [] x);
      [| lia | lia | lia | done | lia | done | | done].
    2: { intros i Hi. unfold list_repeat. apply lookup_replicate_2. lia. }
    cbn [mbind res_bind].
    rewrite (comp_write_gap _ n (size x) (size x + size y) s);
      [| lia | lia | lia | done | lia | | |].
    + cbn [mbind res_bind composer_loop].
      change (dict_set (0, size x) x []) with [((0, size x), x)].
      rewrite dict_set_cons_ne by (intros [= ? ?]; lia). reflexivity.
    + etrans; [| exact Hlen1]. f_equal.
    + intros i Hi.
      etrans; [exact (Hk1 i) |].
      destruct (Z.ltb_spec (Z.of_nat i) (size x)); [lia |].
      rewrite andb_false_r. unfold list_repeat.
      apply lookup_replicate_2. lia.
    + change (dict_set (0, size x) x []) with [((0, size x), x)].
      rewrite dict_get_cons_ne; [done |]. intros [= ? ?]. lia.
  - split; [etrans; [| exact Hlen1]; f_equal; exact Hl2 |]. intros i k Hik.
    pose proof (eq_trans (eq_sym (Hk2 i)) Hik) as Hik2.
    destruct ((size x <=? Z.of_nat i) && (Z.of_nat i <? n)) eqn:Hin.
    + injection Hik2 as <-.
      apply andb_prop in Hin as [H1%Z.leb_le H2%Z.ltb_lt]. cbn [fst snd].
      split; [| lia]. rewrite dict_get_cons_ne, dict_get_cons_eq; [eauto |].
      intros [= ? ?]. lia.
    + pose proof (eq_trans (eq_sym (Hk1 i)) Hik2) as Hik1.
      destruct ((0 <=? Z.of_nat i) && (Z.of_nat i <? size x)) eqn:Hin1.
      * injection Hik1 as <-.
        apply andb_prop in Hin1 as [H1%Z.leb_le H2%Z.ltb_lt]. cbn [fst snd].
        split; [| lia]. rewrite dict_get_cons_eq. eauto.
      * unfold list_repeat in Hik1.
        by apply lookup_replicate in Hik1 as [[=] _].
Qed.

(** the scan of comp.restruct over two adjacent parts *)
Lemma restruct_scan_pair (x y : exp) (m n : Z) :
  0 < m -> m < n ->
  restruct_scan [((0, m), x); ((m, n), y)]
                (sort_keys (dict_keys [((0, m), x); ((m, n), y)]))
  = if _is_cst x && _is_cst y then
      c ← merge_cst x y; Ok (Some ((0, m), (m, n), c))
    else if negb (_is_def x || _is_def y) then
      Ok (Some ((0, m), (m, n), top (n - 0)))
    else Ok None.
Proof.
  intros Hm Hn.
  assert (Hs : sort_keys (dict_keys [((0, m), x); ((m, n), y)])
               = [(0, m); (m, n)]).
  { cbn [dict_keys map fst sort_keys foldr sort_insert snd].
    destruct (Z.leb_spec 0 m); [reflexivity | lia]. }
  rewrite Hs. cbn [restruct_scan fst snd]. rewrite Z.eqb_refl.
  rewrite dict_get_cons_eq, dict_get_cons_ne, dict_get_cons_eq
    by (intros [= ? ?]; lia).
  reflexivity.
Qed.

Lemma restruct_eq (fuel : nat) (smask : list (option key))
      (parts : list (key * exp)) :
  restruct fuel smask parts
  = (found ← restruct_scan parts (sort_keys (dict_keys parts));
     match found with
     | None => Ok (smask, parts)
     | Some (ra, rb, n) =>
         let k := (ra.1, rb.2) in
         let parts1 := dict_del rb (dict_del ra (dict_set k n parts)) in
         let smask1 :=
           list_set_slice smask ra.1 rb.2
                          (list_repeat (Some k) (rb.2 - ra.1)) in
         match fuel with
         | O => OutOfFuel
         | S fuel' => restruct fuel' smask1 parts1
         end
     end).
Proof. by destruct fuel. Qed.

(** X19. composer on the empty list fails its assertion and on one part
    returns that part.  On two constants (the first is the low part) it
    returns the single constant [va + vb * 2^na] of the summed size.  On
    two leaves that are not both constants and not both undefined, it
    returns a composite of the summed size that carries the sign flag of
    the last part, holds exactly the two parts, and gives each part back
    when sliced at the range it was placed at. *)
Theorem composer_two_parts (cfg : config) (fuel : nat) :
  let E := engine_at cfg (S (S fuel)) in
  composer E [] = Raise AssertionError
  /\ (forall x, composer E [x] = Ok x)
  /\ (forall va na vb nb fa fb ra rb,
        0 < na -> 0 < nb -> 0 <= va < 2 ^ na -> 0 <= vb < 2 ^ nb ->
        composer E [Cst va na fa ra; Cst vb nb fb rb]
        = Ok (Cst (va + vb * 2 ^ na) (na + nb) false None))
  /\ (forall x y,
        is_leaf x = true -> is_leaf y = true ->
        _is_cmp x = false -> _is_cmp y = false ->
        0 < size x -> 0 < size y ->
        _is_cst x && _is_cst y = false -> _is_def x || _is_def y = true ->
        exists smask,
          let c := Comp (size x + size y) (sf y) smask
                        [((0, size x), x); ((size x, size x + size y), y)] in
          composer E [x; y] = Ok c
          /\ comp_ok c
          /\ getitem E c (slice_of 0 (size x)) = Ok x
          /\ getitem E c (slice_of (size x) (size x + size y)) = Ok y).
Proof.
  intros E. split_and!; [reflexivity | reflexivity | |].
  - intros va na vb nb fa fb ra rb Hna Hnb Hva Hvb.
    destruct (composer_loop_pair cfg (S fuel) (Cst va na fa ra)
                (Cst vb nb fb rb) fb) as (smask & Hloop & _);
      [done | done | done | done |].
    cbn [size] in Hloop.
    unfold composer. cbn [length].
    change (py_assert (0 <? Z.of_nat 2)) with (Ok tt).
    cbn [mbind res_bind foldl List.last size sf set_sf comp].
    rewrite Z.add_0_l.
    subst E. rewrite Hloop. cbn [mbind res_bind].
    unfold simp. rewrite r_simplify_S. cbn [simplify comp_simplify].
    rewrite mapM_simp_leaves by reflexivity. cbn [mbind res_bind].
    rewrite restruct_eq, restruct_scan_pair by lia.
    change (_is_cst (Cst va na fa ra) && _is_cst (Cst vb nb fb rb)) with true.
    cbv iota.
    destruct (merge_cst_little_endian va na vb nb fa fb ra rb) as [-> _];
      [lia | lia | done | done |].
    unfold restruct_fuel. cbn [mbind res_bind fst snd length].
    rewrite !dict_set_cons_ne by (intros [=]; lia).
    rewrite dict_del_cons_eq.
    cbn [dict_set]. rewrite dict_del_cons_eq.
    rewrite restruct_eq.
    cbn [restruct_scan dict_keys map sort_keys foldr sort_insert fst
         mbind res_bind].
    by rewrite dict_get_cons_eq.
  - intros x y Lx Ly Cx Cy Hx Hy Hcst Hdef.
    destruct (composer_loop_pair cfg (S fuel) x y (sf y))
      as (smask & Hloop & Hok);
      [done | done | done | done |].
    exists smask. cbn zeta.
    split_and!.
    + unfold composer. cbn [length].
      change (py_assert (0 <? Z.of_nat 2)) with (Ok tt).
      cbn [mbind res_bind foldl List.last set_sf comp].
      rewrite Z.add_0_l.
      subst E. rewrite Hloop. cbn [mbind res_bind].
      unfold simp. rewrite r_simplify_S. cbn [simplify comp_simplify].
      rewrite mapM_simp_leaves
        by (cbn [forallb snd]; by rewrite Lx, Ly).
      cbn [mbind res_bind].
      rewrite restruct_eq, restruct_scan_pair by lia.
      rewrite Hcst, Hdef. cbn [negb mbind res_bind].
      rewrite !dict_get_cons_ne by (intros [=]; lia).
      reflexivity.
    + exact Hok.
    + apply comp_getitem_key; [lia | lia | lia |]. apply dict_get_cons_eq.
    + apply comp_getitem_key; [lia | lia | lia |].
      rewrite dict_get_cons_ne by (intros [=]; lia).
      apply dict_get_cons_eq.
Qed.

Lemma composer_two_parts_witness :
  ((0 < 8 /\ 0 < 8 /\ 0 <= 52 < 2 ^ 8 /\ 0 <= 18 < 2 ^ 8)
   /\ composer (engine_at (ascii_config 0) 2)
               [Cst 52 8 false None; Cst 18 8 false None]
      = Ok (Cst (52 + 18 * 2 ^ 8) (8 + 8) false None))
  /\ ((is_leaf (reg "al" 8) = true /\ is_leaf (reg "ah" 8) = true
       /\ _is_cmp (reg "al" 8) = false /\ _is_cmp (reg "ah" 8) = false
       /\ 0 < size (reg "al" 8) /\ 0 < size (reg "ah" 8)
       /\ _is_cst (reg "al" 8) && _is_cst (reg "ah" 8) = false
       /\ _is_def (reg "al" 8) || _is_def (reg "ah" 8) = true)
      /\ exists c, composer (engine_at (ascii_config 0) 2)
                            [reg "al" 8; reg "ah" 8] = Ok c
                   /\ getitem (engine_at (ascii_config 0) 2) c
                              (slice_of 8 16) = Ok (reg "ah" 8)).
Proof.
  pose proof (composer_two_parts (ascii_config 0) 0) as (_ & _ & Hc & Hr).
  split; [split; [lia | apply Hc; lia] |].
  split; [split_and!; reflexivity |].
  destruct (Hr (reg "al" 8) (reg "ah" 8)) as (smask & H1 & _ & _ & H2);
    try reflexivity.
  eexists. split; [exact H1 | exact H2].
Defined.

(** ** Memory expressions *)

(** a pointer built over a pointer to a register: the displacements add
    up and the segment is kept *)
Lemma ptr_new_over_ptr (cfg : config) (f : nat) (r : string) (w d k : Z)
      (sg : option exp) :
  ptr_new (engine_at cfg (S f)) (Ptr (reg r w) d sg w false) None k
  = Ok (Ptr (reg r w) (d + k) sg w false).
Proof.
  unfold ptr_new.
  assert (Hp : _is_ptr (Ptr (reg r w) d sg w false) = true) by reflexivity.
  rewrite Hp. cbn [mbind res_bind]. unfold extract_offset.
  rewrite r_simplify_S. cbn [simplify mbind res_bind set_sf reg].
  assert (He : _is_eqn (Reg CReg r w false (Z.lor et_reg regtype_STD) [])
               = false) by reflexivity.
  rewrite He. cbn [mbind res_bind size]. do 2 f_equal. lia.
Qed.

(** mem.__getitem__ on a range of whole bytes *)
Lemma mem_getitem_aligned (cfg : config) (f : nat) (r : string) (w d : Z)
      (sg : option exp) (n : Z) (s : bool) (mods : list (exp * exp))
      (endian a b : Z) :
  0 <= a -> a < b -> b <= n -> a mod 8 = 0 -> b mod 8 = 0 ->
  getitem (engine_at cfg (S f))
          (Mem (Ptr (reg r w) d sg w false) n s mods endian) (slice_of a b)
  = Ok (Mem (Ptr (reg r w)
                 (d + if endian =? -1 then n / 8 - b / 8 else a / 8)
                 sg w false)
            (b - a) s mods endian).
Proof.
  intros Ha Hab Hb Ma Mb. unfold getitem.
  pose proof (Z.div_mod a 8 ltac:(lia)) as Da.
  pose proof (Z.div_mod b 8 ltac:(lia)) as Db.
  rewrite checkarg_slice_in by (cbn [size]; lia).
  cbn [getitem_body mem_getitem start stop]. rewrite Ma, Mb.
  cbn [Z.ltb Z.compare orb].
  destruct (endian =? -1); unfold mem_new; rewrite ptr_new_over_ptr;
    cbn [mbind res_bind set_sf]; do 2 f_equal; lia.
Qed.

(** X20. Slicing a memory expression over a register address.  A range of
    whole bytes [a:b] gives the memory expression of [b - a] bits whose
    address is displaced by the bytes skipped: [a / 8] bytes in little
    endian, the bytes above [b] in big endian; the sign flag, the
    segment and the modifiers are kept, and such slices compose.  Any
    other range gives a slice, at bit [a mod 8] and of [b - a] bits, of
    the memory expression of the bytes that cover the range. *)
Theorem mem_slices (cfg : config) (f : nat) (r : string) (w d : Z)
        (sg : option exp) (n : Z) (s : bool) (mods : list (exp * exp))
        (endian a b : Z) :
  let E := engine_at cfg (S f) in
  let m := Mem (Ptr (reg r w) d sg w false) n s mods endian in
  0 <= a -> a < b -> b <= n ->
  (a mod 8 = 0 -> b mod 8 = 0 ->
   getitem E m (slice_of a b)
   = Ok (Mem (Ptr (reg r w)
                  (d + if endian =? -1 then n / 8 - b / 8 else a / 8)
                  sg w false)
             (b - a) s mods endian)
   /\ forall a' b',
        0 <= a' -> a' < b' -> b' <= b - a -> a' mod 8 = 0 -> b' mod 8 = 0 ->
        (x ← getitem E m (slice_of a b); getitem E x (slice_of a' b'))
        = getitem E m (slice_of (a + a') (a + b')))
  /\ (a mod 8 <> 0 \/ b mod 8 <> 0 ->
      exists x,
        getitem E m (slice_of a b)
        = Ok (Slc x (a mod 8) (b - a) s None et_slc)
        /\ _is_mem x = true /\ sf x = s
        /\ size x = 8 * ((b + 7) / 8 - a / 8)).
Proof.
  intros E m Ha Hab Hb. subst E m. split.
  - intros Ma Mb. split; [by apply mem_getitem_aligned |].
    intros a' b' Ha' Hab' Hb' Ma' Mb'.
    rewrite (mem_getitem_aligned cfg f r w d sg n s mods endian a b)
      by done.
    cbn [mbind res_bind].
    rewrite !mem_getitem_aligned; try lia.
    + do 2 f_equal; [| lia]. f_equal.
      destruct (endian =? -1); Z.div_mod_to_equations; lia.
    + Z.div_mod_to_equations; lia.
    + Z.div_mod_to_equations; lia.
  - intros Hu. unfold getitem.
    rewrite checkarg_slice_in by (cbn [size]; lia).
    cbn [getitem_body mem_getitem start stop].
    set (b2 := if 0 <? b mod 8 then b / 8 + 1 else b / 8).
    assert (Hb2 : b2 = (b + 7) / 8).
    { subst b2. destruct (Z.ltb_spec 0 (b mod 8));
        Z.div_mod_to_equations; lia. }
    assert (Hr : (0 <? a mod 8) || (0 <? b mod 8) = true).
    { apply orb_true_iff. rewrite !Z.ltb_lt.
      pose proof (Z.mod_pos_bound a 8). pose proof (Z.mod_pos_bound b 8).
      lia. }
    rewrite Hr.
    destruct (endian =? -1); unfold mem_new; rewrite ptr_new_over_ptr;
      cbn [mbind res_bind set_sf]; unfold slc_new;
      cbn [sf mbind res_bind];
      (eexists; split_and!; [reflexivity | reflexivity | reflexivity |]);
      cbn [size]; lia.
Qed.

Lemma mem_slices_witness :
  (0 <= 8 /\ 8 < 24 /\ 24 <= 32 /\ 8 mod 8 = 0 /\ 24 mod 8 = 0)
  /\ getitem (engine_at (ascii_config 0) 1)
             (Mem (Ptr (reg "sp" 32) 4 None 32 false) 32 false [] 1)
             (slice_of 8 24)
     = Ok (Mem (Ptr (reg "sp" 32) (4 + 8 / 8) None 32 false) (24 - 8)
               false [] 1).
Proof.
  split; [split_and!; (lia || reflexivity) |].
  apply (mem_slices (ascii_config 0) 0 "sp" 32 4 None 32 false [] 1 8 24);
    (lia || reflexivity).
Defined.

(** ** Rotations of a constant *)

(** the bits of a pattern of [n] bits rotated by [j] positions towards
    the low end *)
Lemma rot_bits (va n j : Z) :
  1 <= n -> 0 <= va < 2 ^ n -> 0 <= j <= n ->
  let v' := Z.lor (va / 2 ^ j) ((va * 2 ^ (n - j)) mod 2 ^ n) in
  0 <= v' < 2 ^ n
  /\ forall i, 0 <= i < n -> Z.testbit v' i = Z.testbit va ((i + j) mod n).
Proof.
  intros Hn Hva Hj v'.
  assert (Hpos : 0 < 2 ^ n) by (apply Z.pow_pos_nonneg; lia).
  assert (Hpj : 0 < 2 ^ j) by (apply Z.pow_pos_nonneg; lia).
  assert (H1 : 0 <= va / 2 ^ j) by (apply Z.div_pos; lia).
  assert (H2 : 0 <= (va * 2 ^ (n - j)) mod 2 ^ n < 2 ^ n)
    by (apply Z.mod_pos_bound; lia).
  assert (Hbit : forall i, 0 <= i ->
            Z.testbit v' i
            = (Z.testbit va (i + j)
               || (i <? n) && Z.testbit va (i - (n - j)))).
  { intros i Hi. unfold v'. rewrite Z.lor_spec.
    rewrite Z.div_pow2_bits by lia. f_equal.
    destruct (Z.ltb_spec i n).
    - rewrite Z.mod_pow2_bits_low by lia.
      by rewrite Z.mul_pow2_bits by lia.
    - by rewrite Z.mod_pow2_bits_high by lia. }
  assert (Hnn : 0 <= v') by (apply Z.lor_nonneg; lia).
  split.
  - split; [done |].
    apply bits_bound; [lia | done |].
    intros i Hi. rewrite Hbit by lia.
    rewrite (testbit_above va n (i + j)) by lia.
    by destruct (Z.ltb_spec i n); [lia |].
  - intros i Hi. rewrite Hbit by lia.
    destruct (Z.ltb_spec i n); [| lia]. cbn [andb].
    destruct (Z.lt_ge_cases (i + j) n).
    + rewrite Z.mod_small by lia.
      rewrite (Z.testbit_neg_r va (i - (n - j))) by lia.
      apply orb_false_r.
    + rewrite (testbit_above va n (i + j)) by lia. cbn [orb].
      f_equal. apply (Z.mod_unique _ _ 1); lia.
Qed.

Section Rotations.
Variable cfg : config.
Variable E : engine.

(** [x.size - n] for a count that does not exceed the size *)
Lemma rsub_size (n k m : Z) (rk : option string) :
  0 <= k <= n -> n < 2 ^ m -> 0 <= m ->
  py_rsub_int cfg E n (Cst k m false rk) = Ok (Cst (n - k) m false None).
Proof.
  intros Hk Hn Hm. unfold py_rsub_int. cbn [size].
  rewrite cst_ok by lia. cbn [mbind res_bind].
  rewrite Z.mod_small by lia.
  rewrite cst_dunder_compute by discriminate.
  cbn [dunder_set_sf cst_compute value].
  destruct (Z.ltb_spec n 0); [lia |]. cbn [cst_value mbind res_bind].
  rewrite cst_ok by lia. rewrite Z.mod_small by lia.
  by destruct (Z.ltb_spec (n - k) 0); [lia |].
Qed.

Lemma py_dunder2_cst (d : dunder) (va n : Z) (sa : bool)
      (ra : option string) (c : exp) :
  d <> D_eq ->
  py_dunder2 cfg E d (Cst va n sa ra) c = cst_dunder cfg E d (Cst va n sa ra) c.
Proof. by destruct ra, d. Qed.

Lemma ror_cst (va n k m : Z) (sa : bool) (ra rk : option string) :
  1 <= n -> 0 <= va < 2 ^ n -> 0 <= k <= n -> n < 2 ^ m -> 0 <= m ->
  ror cfg E (Cst va n sa ra) (Cst k m false rk)
  = Ok (Cst (Z.lor (va / 2 ^ k) ((va * 2 ^ (n - k)) mod 2 ^ n)) n false None).
Proof.
  intros Hn Hva Hk Hm Hm0.
  destruct (rot_bits va n k Hn Hva Hk) as [Hb _].
  assert (Hpos : 0 < 2 ^ n) by (apply Z.pow_pos_nonneg; lia).
  assert (Hpk : 0 < 2 ^ k) by (apply Z.pow_pos_nonneg; lia).
  assert (Hd : 0 <= va / 2 ^ k < 2 ^ n).
  { split; [apply Z.div_pos; lia |].
    apply Z.div_lt_upper_bound; nia. }
  unfold ror.
  change (_is_cst (Cst va n sa ra)) with true. cbv iota.
  rewrite py_dunder2_cst by done. unfold cst_dunder.
  cbn [dunder_checks_sizes mbind res_bind dunder_set_sf set_sf].
  change (_is_cst (Cst k m false rk)) with true. cbv iota.
  cbn [cst_compute value cst_value mbind res_bind]. unfold py_rshift.
  destruct (Z.ltb_spec k 0); [lia |]. cbn [mbind res_bind].
  rewrite cst_ok by lia. rewrite Z.shiftr_div_pow2 by lia.
  rewrite (Z.mod_small (va / 2 ^ k)) by lia. cbn [mbind res_bind size].
  rewrite rsub_size by lia. cbn [mbind res_bind].
  rewrite cst_dunder_unchecked by done.
  cbn [dunder_set_sf cst_compute value cst_value mbind res_bind].
  unfold py_lshift.
  destruct (Z.ltb_spec (n - k) 0); [lia |]. cbn [mbind res_bind].
  rewrite cst_ok by lia. rewrite Z.shiftl_mul_pow2 by lia.
  cbn [mbind res_bind].
  rewrite cst_dunder_compute by discriminate.
  cbn [dunder_set_sf cst_compute get_v mbind res_bind].
  rewrite cst_ok by lia. rewrite Z.mod_small by lia.
  by destruct (Z.ltb_spec (Z.lor (va / 2 ^ k)
                                  ((va * 2 ^ (n - k)) mod 2 ^ n)) 0);
    [lia |].
Qed.

Lemma rol_cst (va n k m : Z) (sa : bool) (ra rk : option string) :
  1 <= n -> 0 <= va < 2 ^ n -> 0 <= k <= n -> n < 2 ^ m -> 0 <= m ->
  rol cfg E (Cst va n sa ra) (Cst k m false rk)
  = Ok (Cst (Z.lor (va / 2 ^ (n - k)) ((va * 2 ^ (n - (n - k))) mod 2 ^ n))
            n false None).
Proof.
  intros Hn Hva Hk Hm Hm0.
  destruct (rot_bits va n (n - k) Hn Hva ltac:(lia)) as [Hb _].
  assert (Hpos : 0 < 2 ^ n) by (apply Z.pow_pos_nonneg; lia).
  assert (Hpk : 0 < 2 ^ (n - k)) by (apply Z.pow_pos_nonneg; lia).
  assert (Hd : 0 <= va / 2 ^ (n - k) < 2 ^ n).
  { split; [apply Z.div_pos; lia |].
    apply Z.div_lt_upper_bound; nia. }
  destruct (cst_value_mod va n sa Hn Hva) as (a & Ha & Ham).
  replace (n - (n - k)) with k in * by lia.
  unfold rol.
  change (_is_cst (Cst va n sa ra)) with true. cbv iota.
  rewrite py_dunder2_cst by done. unfold cst_dunder.
  cbn [dunder_checks_sizes mbind res_bind dunder_set_sf].
  change (_is_cst (Cst k m false rk)) with true. cbv iota.
  cbn [cst_compute value]. rewrite Ha.
  cbn [cst_value mbind res_bind]. unfold py_lshift.
  destruct (Z.ltb_spec k 0); [lia |]. cbn [mbind res_bind].
  rewrite cst_ok by lia. rewrite Z.shiftl_mul_pow2 by lia.
  cbn [mbind res_bind size].
  rewrite rsub_size by lia. cbn [mbind res_bind].
  rewrite cst_dunder_unchecked by done.
  cbn [dunder_set_sf set_sf cst_compute value cst_value mbind res_bind].
  unfold py_rshift.
  destruct (Z.ltb_spec (n - k) 0); [lia |]. cbn [mbind res_bind].
  rewrite cst_ok by lia. rewrite Z.shiftr_div_pow2 by lia.
  rewrite (Z.mod_small (va / 2 ^ (n - k))) by lia.
  cbn [mbind res_bind].
  rewrite cst_dunder_compute by discriminate.
  cbn [dunder_set_sf cst_compute get_v mbind res_bind].
  rewrite cst_ok by lia.
  rewrite <- Ham at 2. rewrite <- Z.mul_mod_idemp_l by lia. rewrite Ham.
  rewrite Z.lor_comm. rewrite Z.mod_small by lia.
  by destruct (Z.ltb_spec (Z.lor (va / 2 ^ (n - k))
                                  ((va * 2 ^ k) mod 2 ^ n)) 0);
    [lia |].
Qed.
End Rotations.

(** rotating by [j] and then by [n - j] gives the pattern back *)
Lemma rot_inverse (va n j : Z) :
  1 <= n -> 0 <= va < 2 ^ n -> 0 <= j <= n ->
  let v' := Z.lor (va / 2 ^ j) ((va * 2 ^ (n - j)) mod 2 ^ n) in
  Z.lor (v' / 2 ^ (n - j)) ((v' * 2 ^ (n - (n - j))) mod 2 ^ n) = va.
Proof.
  intros Hn Hva Hj v'.
  destruct (rot_bits va n j Hn Hva Hj) as [Hb Hbits]. fold v' in Hb, Hbits.
  destruct (rot_bits v' n (n - j) Hn Hb ltac:(lia)) as [Hb2 Hbits2].
  cbv zeta in Hb2, Hbits2.
  apply Z.bits_inj'. intros i Hi.
  destruct (Z.lt_ge_cases i n).
  - rewrite Hbits2 by lia. rewrite Hbits by (apply Z.mod_pos_bound; lia).
    f_equal. rewrite Z.add_mod_idemp_l by lia.
    replace (i + (n - j) + j) with (i + 1 * n) by lia.
    rewrite Z.mod_add by lia. apply Z.mod_small. lia.
  - rewrite (testbit_above va n i) by lia.
    apply (testbit_above _ n); [lia | exact Hb2 | lia].
Qed.

(** X21. Rotations of a constant [x] of [n] bits by a constant count
    [k <= n] (the count unsigned and wide enough to hold [n]): [ror] and
    [rol] return the unsigned constant whose bit [i] is bit
    [(i + k) mod n], respectively [(i - k) mod n], of [x]; each undoes the
    other.  A count above [n] makes [x.size - count] negative, and the
    shift by it raises ValueError. *)
Theorem cst_rotations (cfg : config) (E : engine) (va n k m : Z) (sa : bool)
        (ra rk : option string) :
  1 <= n -> 0 <= va < 2 ^ n -> 0 <= k -> 1 <= m -> n < 2 ^ m ->
  let x := Cst va n sa ra in
  let count := Cst k m false rk in
  (k <= n ->
   exists vr vl,
     ror cfg E x count = Ok (Cst vr n false None)
     /\ rol cfg E x count = Ok (Cst vl n false None)
     /\ (forall i, 0 <= i < n ->
                   Z.testbit vr i = Z.testbit va ((i + k) mod n))
     /\ (forall i, 0 <= i < n ->
                   Z.testbit vl i = Z.testbit va ((i - k) mod n))
     /\ rol cfg E (Cst vr n false None) count = Ok (Cst va n false None)
     /\ ror cfg E (Cst vl n false None) count = Ok (Cst va n false None))
  /\ (n < k < 2 ^ m -> k - n <= 2 ^ (m - 1) ->
      ror cfg E x count = Raise ValueError
      /\ rol cfg E x count = Raise ValueError).
Proof.
  intros Hn Hva Hk Hm Hnm x count. subst x count. split.
  - intros Hkn.
    destruct (rot_bits va n k Hn Hva ltac:(lia)) as [Hb1 Hbits1].
    destruct (rot_bits va n (n - k) Hn Hva ltac:(lia)) as [Hb2 Hbits2].
    cbv zeta in Hb1, Hbits1, Hb2, Hbits2.
    eexists _, _. split_and!.
    + apply ror_cst; lia.
    + apply rol_cst; lia.
    + exact Hbits1.
    + intros i Hi. rewrite Hbits2 by done. f_equal.
      replace (i + (n - k)) with (i - k + 1 * n) by lia.
      apply Z.mod_add. lia.
    + rewrite rol_cst by lia. do 2 f_equal.
      apply (rot_inverse va n k); lia.
    + rewrite ror_cst by lia. do 2 f_equal.
      pose proof (rot_inverse va n (n - k) Hn Hva ltac:(lia)) as Hinv.
      cbv zeta in Hinv. replace (n - (n - k)) with k in * by lia.
      exact Hinv.
  - intros Hkn Hkm.
    assert (Hpos : 0 < 2 ^ n) by (apply Z.pow_pos_nonneg; lia).
    assert (Hpm : 2 ^ m = 2 * 2 ^ (m - 1)) by (by apply pow2_split).
    assert (Hsub : py_rsub_int cfg E n (Cst k m false rk)
                   = Ok (Cst (n - k + 2 ^ m) m true None)).
    { unfold py_rsub_int. cbn [size].
      rewrite cst_ok by lia. cbn [mbind res_bind].
      rewrite Z.mod_small by lia.
      rewrite cst_dunder_compute by discriminate.
      cbn [dunder_set_sf cst_compute value].
      destruct (Z.ltb_spec n 0); [lia |]. cbn [cst_value mbind res_bind].
      rewrite cst_ok by lia.
      destruct (Z.ltb_spec (n - k) 0); [| lia]. do 2 f_equal.
      symmetry. apply (Z.mod_unique _ _ (-1)); lia. }
    assert (Hval : cst_value (n - k + 2 ^ m) m true = Ok (n - k)).
    { rewrite cst_value_signed by lia. unfold signed_interp.
      rewrite Z.mod_small by lia.
      destruct (Z.ltb_spec (n - k + 2 ^ m) (2 ^ (m - 1))); [lia |].
      f_equal. lia. }
    destruct (cst_value_mod va n sa Hn Hva) as (a & Ha & Ham).
    assert (Hpk : 0 < 2 ^ k) by (apply Z.pow_pos_nonneg; lia).
    split.
    + unfold ror. change (_is_cst (Cst va n sa ra)) with true. cbv iota.
      rewrite py_dunder2_cst by done. unfold cst_dunder.
      cbn [dunder_checks_sizes mbind res_bind dunder_set_sf set_sf].
      change (_is_cst (Cst k m false rk)) with true. cbv iota.
      cbn [cst_compute value cst_value mbind res_bind]. unfold py_rshift.
      destruct (Z.ltb_spec k 0); [lia |]. cbn [mbind res_bind].
      rewrite cst_ok by lia. cbn [mbind res_bind size].
      rewrite Hsub. cbn [mbind res_bind].
      rewrite cst_dunder_unchecked by done.
      cbn [dunder_set_sf cst_compute value]. rewrite Hval.
      cbn [cst_value mbind res_bind]. unfold py_lshift.
      by destruct (Z.ltb_spec (n - k) 0); [| lia].
    + unfold rol. change (_is_cst (Cst va n sa ra)) with true. cbv iota.
      rewrite py_dunder2_cst by done. unfold cst_dunder.
      cbn [dunder_checks_sizes mbind res_bind dunder_set_sf].
      change (_is_cst (Cst k m false rk)) with true. cbv iota.
      cbn [cst_compute value]. rewrite Ha.
      cbn [cst_value mbind res_bind]. unfold py_lshift.
      destruct (Z.ltb_spec k 0); [lia |]. cbn [mbind res_bind].
      rewrite cst_ok by lia. cbn [mbind res_bind size].
      rewrite Hsub. cbn [mbind res_bind].
      rewrite cst_dunder_unchecked by done.
      cbn [dunder_set_sf set_sf cst_compute value]. rewrite Hval.
      cbn [cst_value mbind res_bind]. unfold py_rshift.
      by destruct (Z.ltb_spec (n - k) 0); [| lia].
Qed.

Lemma cst_rotations_witness :
  (1 <= 8 /\ 0 <= 129 < 2 ^ 8 /\ 0 <= 1 /\ 1 <= 8 /\ 8 < 2 ^ 8 /\ 1 <= 8)
  /\ exists vr vl,
       ror (ascii_config 0) (engine_at (ascii_config 0) 0)
           (Cst 129 8 false None) (Cst 1 8 false None)
       = Ok (Cst vr 8 false None)
       /\ rol (ascii_config 0) (engine_at (ascii_config 0) 0)
              (Cst 129 8 false None) (Cst 1 8 false None)
          = Ok (Cst vl 8 false None)
       /\ Z.testbit vr 7 = Z.testbit 129 ((7 + 1) mod 8)
       /\ Z.testbit vl 0 = Z.testbit 129 ((0 - 1) mod 8).
Proof.
  split; [split_and!; lia |].
  destruct (proj1 (cst_rotations (ascii_config 0)
                     (engine_at (ascii_config 0) 0) 129 8 1 8 false None None
                     ltac:(lia) ltac:(lia) ltac:(lia) ltac:(lia) ltac:(lia))
              ltac:(lia))
    as (vr & vl & H1 & H2 & H3 & H4 & _).
  exists vr, vl. split_and!; [exact H1 | exact H2 | apply H3; lia
                             | apply H4; lia].
Defined.

(** ** Simplification of a slice *)

Lemma simp_leaf (cfg : config) (f : nat) (k : kargs) (e : exp) :
  is_leaf e = true -> simp (engine_at cfg (S f)) k e = Ok e.
Proof. exact (simplify_leaf cfg f k e). Qed.

(** a pointer built over a register *)
Lemma ptr_new_over_reg (cfg : config) (f : nat) (r : string) (w d : Z)
      (sg : option exp) :
  ptr_new (engine_at cfg (S f)) (reg r w) sg d
  = Ok (Ptr (reg r w) (d + 0) sg w false).
Proof.
  unfold ptr_new.
  change (_is_ptr (reg r w)) with false. cbv iota. cbn [mbind res_bind].
  unfold extract_offset. rewrite r_simplify_S.
  cbn [simplify mbind res_bind set_sf reg].
  change (_is_eqn (Reg CReg r w false (Z.lor et_reg regtype_STD) []))
    with false.
  reflexivity.
Qed.

(** mem.simplify over a register address normalises the displacement
    and nothing else *)
Lemma simp_mem_reg (cfg : config) (f : nat) (k : kargs) (r : string)
      (w d : Z) (sg : option exp) (n : Z) (s : bool)
      (mods : list (exp * exp)) (endian : Z) :
  (forall g, sg = Some g -> is_leaf g = true) ->
  simp (engine_at cfg (S (S (S f)))) k
       (Mem (Ptr (reg r w) d sg w false) n s mods endian)
  = Ok (Mem (Ptr (reg r w) (d + 0) sg w false) n s mods endian).
Proof.
  intros Hsg. unfold simp at 1. rewrite r_simplify_S.
  cbn [simplify mem_simplify].
  unfold simp at 1. rewrite r_simplify_S.
  cbn [simplify ptr_simplify]. unfold extract_offset.
  rewrite r_simplify_S.
  cbn [simplify mbind res_bind set_sf reg].
  change (_is_eqn (Reg CReg r w false (Z.lor et_reg regtype_STD) []))
    with false.
  cbv iota. cbn [mbind res_bind].
  change (_is_def (Reg CReg r w false (Z.lor et_reg regtype_STD) []))
    with true.
  change (_is_vec (Reg CReg r w false (Z.lor et_reg regtype_STD) []))
    with false.
  destruct sg as [g |]; [rewrite simp_leaf by eauto |]; reflexivity.
Qed.

(** X22. slc.simplify by the class of the sliced operand: over an
    undefined operand it is [top]; over a constant it is the constant of
    the bits sliced, with the sign flag of the slice; over a memory
    expression (address a register plus displacement, in no segment or
    in a segment that is a leaf), for a range of whole bytes it is the little-endian memory expression without
    modifiers displaced by [pos / 8] bytes, whatever the byte order and
    the modifiers of the operand; over a register it stays as it is. *)
Theorem slc_simplify_cases (cfg : config) (f : nat) (k : kargs)
        (pos m : Z) (s : bool) (ref : option string) (et : Z) :
  let simpl_slc x := py_simplify cfg (S (S (S (S f)))) k (Slc x pos m s ref et) in
  (forall n, simpl_slc (top n) = Ok (top m))
  /\ (forall v n sv rv,
        0 <= pos -> 0 < m -> pos + m <= n ->
        simpl_slc (Cst v n sv rv)
        = Ok (Cst ((v / 2 ^ pos) mod 2 ^ m) m s None))
  /\ (forall r w d sg n sx mods endian,
        m mod 8 = 0 -> pos mod 8 = 0 ->
        (forall g, sg = Some g -> is_leaf g = true) ->
        simpl_slc (Mem (Ptr (reg r w) d sg w false) n sx mods endian)
        = Ok (Mem (Ptr (reg r w) (d + pos / 8) sg w false) m s [] 1))
  /\ (forall r n, simpl_slc (reg r n) = Ok (Slc (reg r n) pos m s ref et)).
Proof.
  intros simpl_slc. subst simpl_slc. cbv beta.
  unfold py_simplify.
  split_and!.
  - intros n. unfold simp at 1. rewrite r_simplify_S.
    cbn [simplify slc_simplify].
    rewrite simp_leaf by done. reflexivity.
  - intros v n sv rv Hpos Hm Hn. unfold simp at 1. rewrite r_simplify_S.
    cbn [simplify slc_simplify].
    rewrite simp_leaf by done. cbn [mbind res_bind].
    change (_is_def (Cst v n sv rv)) with true.
    change (_is_cmp (Cst v n sv rv) || _is_cst (Cst v n sv rv)) with true.
    cbv iota. cbn [negb]. unfold sub. rewrite r_getitem_S.
    rewrite cst_getitem_ok by lia. cbn [mbind res_bind set_sf].
    by replace (pos + m - pos) with m by lia.
  - intros r w d sg n sx mods endian Hm Hpos Hsg.
    unfold simp at 1. rewrite r_simplify_S.
    cbn [simplify slc_simplify].
    rewrite (simp_mem_reg cfg f k) by done. cbn [mbind res_bind].
    set (x := Mem _ n sx mods endian).
    change (_is_def x) with true. change (_is_cmp x || _is_cst x) with false.
    change (_is_mem x) with true. cbn [negb andb]. cbv iota.
    rewrite Hm, Hpos. cbn [Z.eqb]. subst x. cbv iota.
    rewrite ptr_new_over_reg. cbn [mbind res_bind].
    unfold mem_new.
    rewrite (ptr_new_over_ptr cfg (S (S f)) r w).
    cbn [mbind res_bind set_sf]. do 3 f_equal. lia.
  - intros r n. unfold simp at 1. rewrite r_simplify_S.
    cbn [simplify slc_simplify].
    rewrite simp_leaf by done. reflexivity.
Qed.

Lemma slc_simplify_cases_witness :
  ((0 <= 4 /\ 0 < 8 /\ 4 + 8 <= 16)
   /\ py_simplify (ascii_config 0) 4 no_kargs
                  (Slc (Cst 4660 16 false None) 4 8 false None et_slc)
      = Ok (Cst ((4660 / 2 ^ 4) mod 2 ^ 8) 8 false None))
  /\ ((16 mod 8 = 0 /\ 8 mod 8 = 0)
      /\ py_simplify (ascii_config 0) 4 no_kargs
           (Slc (Mem (Ptr (reg "sp" 32) 4 None 32 false) 32 false [] (-1))
                8 16 false None et_slc)
         = Ok (Mem (Ptr (reg "sp" 32) (4 + 8 / 8) None 32 false) 16 false
                   [] 1)).
Proof.
  pose proof (slc_simplify_cases (ascii_config 0) 0 no_kargs 4 8 false None
                et_slc) as (_ & Hc & _).
  pose proof (slc_simplify_cases (ascii_config 0) 0 no_kargs 8 16 false None
                et_slc) as (_ & _ & Hm & _).
  split; [split; [lia | apply Hc; lia] |].
  split; [split; reflexivity |].
  apply Hm; [reflexivity | reflexivity | discriminate].
Defined.

(** ** Vectors and conditionals *)

Section Equality.
Variable cfg : config.
Variable fuel : nat.
Hypothesis Ht : threshold_allows cfg 2.

(** [x == y] on two registers of one size, as a truth value: whether
    they have the same name *)
Lemma py_eq_reg (a b : string) (n : Z) :
  py_eq cfg (engine_at cfg (S (S fuel))) (reg a n) (reg b n)
  = Ok (bool_decide (a = b)).
Proof.
  unfold py_eq, py_dunder, py_dunder2, exp_dunder, hash_eq.
  cbn [reg py_hash str mbind res_bind size].
  destruct (decide (a = b)) as [-> | Hab].
  - by rewrite !bool_decide_true.
  - rewrite (bool_decide_false (a = b)) by done.
    rewrite bool_decide_false by (intros [= ?]; done).
    fold (reg a n) (reg b n).
    unfold oper.
    assert (Hop : op_new OP_EQ (reg a n) (reg b n)
                  = Ok (Op (Operator OP_EQ false) (reg a n) (reg b n) 1
                           false 4)) by reflexivity.
    cbn [dunder_sym]. rewrite Hop. cbn [mbind res_bind].
    unfold simp. rewrite r_simplify_S.
    cbn [simplify op_simplify].
    rewrite !simp_leaf by done. cbn [mbind res_bind].
    change (4 <? 4) with false. cbn [andb]. cbv iota.
    unfold eqn2_helpers.
    erewrite eqn2_threshold_small;
      [| exact Ht | apply complexity_reg | apply complexity_reg
       | reflexivity | reflexivity].
    generalize (engine_at cfg (S fuel)). intros E'.
    simpl. unfold eqn2_same. simpl.
    by rewrite bool_decide_false.
Qed.

(** [x in l] on registers of one size: whether the name occurs *)
Lemma py_contains_reg (acc : list string) (r : string) (n : Z) :
  py_contains cfg (engine_at cfg (S (S fuel)))
              (map (fun a => reg a n) acc) (reg r n)
  = Ok (bool_decide (r ∈ acc)).
Proof.
  induction acc as [| a acc IH].
  - cbn [map py_contains]. by rewrite bool_decide_false by apply not_elem_of_nil.
  - cbn [map py_contains]. rewrite py_eq_reg. cbn [mbind res_bind].
    destruct (decide (a = r)) as [-> | Har].
    + rewrite !bool_decide_true; [done | apply list_elem_of_here | done].
    + rewrite (bool_decide_false (a = r)) by done. rewrite IH.
      f_equal. apply bool_decide_ext. rewrite elem_of_cons. intuition congruence.
Qed.

(** the second loop of vec.simplify on registers of one size: it keeps
    the names not met before, in order *)
Lemma vec_dedup_reg (names acc : list string) (n : Z) :
  NoDup acc ->
  exists names',
    vec_dedup cfg (engine_at cfg (S (S fuel)))
              (map (fun a => reg a n) names) (map (fun a => reg a n) acc)
    = Ok (map (fun a => reg a n) (acc ++ names')%list)
    /\ NoDup (acc ++ names')%list
    /\ (forall r, r ∈ names' <-> r ∈ names /\ r ∉ acc)
    /\ sublist names' names.
Proof.
  revert acc. induction names as [| a names IH]; intros acc Hnd.
  - exists []. rewrite app_nil_r. split_and!; [done | done | | done].
    intros r. rewrite elem_of_nil. tauto.
  - cbn [map vec_dedup]. rewrite py_contains_reg. cbn [mbind res_bind].
    destruct (decide (a ∈ acc)) as [Hin | Hnin].
    + rewrite bool_decide_true by done.
      destruct (IH acc Hnd) as (names' & Hd & Hn & Hel & Hsub).
      exists names'. split_and!; [done | done | | by apply sublist_cons].
      intros r. rewrite Hel, elem_of_cons. intuition congruence.
    + rewrite bool_decide_false by done.
      assert (Hnd' : NoDup (acc ++ [a])%list).
      { apply NoDup_app. split_and!; [done | | apply NoDup_singleton].
        intros x Hx ->%list_elem_of_singleton. done. }
      destruct (IH (acc ++ [a])%list Hnd') as (names' & Hd & Hn & Hel & Hsub).
      exists (a :: names').
      replace (map (fun a0 => reg a0 n) acc ++ [reg a n])%list
        with (map (fun a0 => reg a0 n) (acc ++ [a])%list)
        by (by rewrite map_app).
      rewrite <- app_assoc in Hd, Hn. cbn [app] in Hd, Hn.
      split_and!; [done | done | | by apply sublist_skip].
      intros r. rewrite elem_of_cons, Hel, elem_of_cons, elem_of_app,
        list_elem_of_singleton.
      destruct (decide (r = a)) as [-> | ?]; intuition congruence.
Qed.

(** the first loop of vec.simplify on registers: nothing to flatten *)
Lemma vec_flatten_reg (names : list string) (n : Z) (acc : list exp) :
  vec_flatten (engine_at cfg (S (S fuel))) (map (fun a => reg a n) names) acc
  = Ok (inr (acc ++ map (fun a => reg a n) names)%list).
Proof.
  revert acc. induction names as [| a names IH]; intros acc.
  - cbn [map vec_flatten]. by rewrite app_nil_r.
  - cbn [map vec_flatten]. rewrite simp_leaf by done.
    cbn [mbind res_bind].
    change (_is_def (reg a n)) with true.
    change (_is_vec (reg a n)) with false. cbn [negb]. cbv iota.
    rewrite IH. by rewrite <- app_assoc.
Qed.
End Equality.

(** the complexities of registers add up to twice their number *)
Lemma complexity_regs (names : list string) (n : Z) :
  mapM complexity (map (fun a => reg a n) names)
  = Ok (map (fun _ => Fin (1 * (1 + 1))) names).
Proof.
  induction names as [| a names IH]; [done |].
  cbn [map mapM]. rewrite complexity_reg. cbn [mbind res_bind].
  rewrite IH. reflexivity.
Qed.

Lemma fgt_sum_regs (names : list string) (q : Q) :
  exists q',
    foldl fadd (Fin q) (map (fun _ => Fin (1 * (1 + 1))) names) = Fin q'
    /\ (q' == q + inject_Z (2 * Z.of_nat (length names)))%Q.
Proof.
  revert q. induction names as [| a names IH]; intros q.
  - exists q. split; [done |]. cbn [length Z.of_nat].
    change (inject_Z (2 * 0)) with (0%Q). by rewrite Qplus_0_r.
  - cbn [map foldl fadd].
    destruct (IH (q + 1 * (1 + 1))%Q) as (q' & Hq & He).
    exists q'. split; [done |]. rewrite He.
    replace (2 * Z.of_nat (length (a :: names)))
      with (2 + 2 * Z.of_nat (length names)) by (cbn [length]; lia).
    rewrite inject_Z_plus. change (inject_Z 2) with (1 * (1 + 1))%Q.
    by rewrite Qplus_assoc.
Qed.

Lemma fgt_regs (names : list string) (t : Z) :
  fgt (foldl fadd (Fin 0) (map (fun _ => Fin (1 * (1 + 1))) names)) t
  = (t <? 2 * Z.of_nat (length names)).
Proof.
  destruct (fgt_sum_regs names 0) as (q' & -> & He). unfold fgt.
  rewrite Qplus_0_l in He.
  destruct (Z.ltb_spec t (2 * Z.of_nat (length names))) as [Hlt | Hge].
  - apply negb_true_iff. apply not_true_is_false. intros Hle.
    apply Qle_bool_iff in Hle. rewrite He in Hle.
    rewrite <- Zle_Qle in Hle. lia.
  - apply negb_false_iff. apply Qle_bool_iff. rewrite He.
    by rewrite <- Zle_Qle.
Qed.

(** X23. vec.simplify on a vector of registers of one size removes the
    duplicates: the names kept are distinct, are those of the vector, in
    their order.  One name left gives that register; otherwise the
    result is the widened vector under [widening], [top] when the
    threshold on complexity is positive and below twice the number of
    registers, and the vector of the registers kept in the other
    cases. *)
Theorem vec_simplify_registers (cfg : config) (fuel : nat) (k : kargs)
        (names : list string) (n : Z) (s : bool) :
  threshold_allows cfg 2 ->
  let regs := map (fun r => reg r n) in
  exists names',
    NoDup names' /\ (forall r, r ∈ names' <-> r ∈ names)
    /\ sublist names' names
    /\ py_simplify cfg (S (S (S fuel))) k (Vec (regs names) n s)
       = Ok (match names' with
             | [r] => reg r n
             | _ =>
                 if widening k then Vecw (regs names') n false
                 else if (0 <? cas_complexity cfg)
                         && (cas_complexity cfg
                             <? 2 * Z.of_nat (length names'))
                 then top n
                 else Vec (regs names') n s
             end).
Proof.
  intros Ht regs. subst regs.
  destruct (vec_dedup_reg cfg fuel Ht names [] n (NoDup_nil_2))
    as (names' & Hd & Hn & Hel & Hsub).
  cbn [app map] in Hd, Hn.
  exists names'. split_and!; [done | | done |].
  { intros r. rewrite Hel. rewrite elem_of_nil. tauto. }
  unfold py_simplify, simp. rewrite r_simplify_S.
  cbn [simplify vec_simplify].
  rewrite vec_flatten_reg. cbn [mbind res_bind app].
  rewrite Hd. cbn [mbind res_bind].
  assert (Hmany : forall l : list string,
            match l with [_] => False | _ => True end ->
            match map (fun a => reg a n) l with
            | [x] => Ok x
            | _ =>
                if widening k then
                  vecw_new (Vec (map (fun a => reg a n) l) n s)
                else
                  cl ← mapM complexity (map (fun a => reg a n) l);
                  let total := foldl fadd (Fin 0) cl in
                  if fgt total (cas_complexity cfg)
                     && (0 <? cas_complexity cfg)
                  then Ok (top n)
                  else Ok (Vec (map (fun a => reg a n) l) n s)
            end
            = Ok (if widening k then Vecw (map (fun a => reg a n) l) n false
                  else if (0 <? cas_complexity cfg)
                          && (cas_complexity cfg <? 2 * Z.of_nat (length l))
                  then top n
                  else Vec (map (fun a => reg a n) l) n s)).
  { intros l Hl.
    transitivity
      (if widening k then vecw_new (Vec (map (fun a => reg a n) l) n s)
       else
         cl ← mapM complexity (map (fun a => reg a n) l);
         let total := foldl fadd (Fin 0) cl in
         if fgt total (cas_complexity cfg) && (0 <? cas_complexity cfg)
         then Ok (top n)
         else Ok (Vec (map (fun a => reg a n) l) n s)).
    { by destruct l as [| ? [| ? ?]]. }
    destruct (widening k); [reflexivity |].
    rewrite complexity_regs. cbn [mbind res_bind]. cbv zeta.
    rewrite fgt_regs. rewrite (andb_comm (0 <? cas_complexity cfg)).
    by destruct ((cas_complexity cfg <? 2 * Z.of_nat (length l))
                 && (0 <? cas_complexity cfg)). }
  destruct names' as [| r [| r2 t]]; [| reflexivity |].
  - by rewrite Hmany.
  - by rewrite Hmany.
Qed.

Lemma vec_simplify_registers_witness :
  threshold_allows (ascii_config 0) 2
  /\ exists names',
       NoDup names' /\ (forall r, r ∈ names' <-> r ∈ ["a"; "b"; "a"])
       /\ exists x,
            py_simplify (ascii_config 0) 3 no_kargs
                        (Vec [reg "a" 8; reg "b" 8; reg "a" 8] 8 false)
            = Ok x.
Proof.
  split; [exact threshold_off |].
  destruct (vec_simplify_registers (ascii_config 0) 0 no_kargs
              ["a"; "b"; "a"] 8 false threshold_off)
    as (names' & H1 & H2 & _ & H).
  exists names'. split_and!; [exact H1 | exact H2 |].
  eexists. exact H.
Defined.

Section Conditionals.
Variable cfg : config.
Variable fuel : nat.
Hypothesis Ht : threshold_allows cfg 2.

(** [c == bit0] and [c == bit1] on a one-bit register, as a truth
    value *)
Lemma py_eq_reg_bit (c : string) (v : Z) :
  v = 0 \/ v = 1 -> c <> fmt_hex v ->
  py_eq cfg (engine_at cfg (S (S fuel))) (reg c 1) (Cst v 1 false None)
  = Ok false.
Proof.
  intros Hv Hc.
  unfold py_eq, py_dunder, py_dunder2, exp_dunder, hash_eq.
  cbn [reg py_hash str mbind res_bind size cst_value].
  rewrite bool_decide_false by (intros [= ?]; done).
  fold (reg c 1). unfold oper. cbn [dunder_sym].
  assert (Hop : op_new OP_EQ (reg c 1) (Cst v 1 false None)
                = Ok (Op (Operator OP_EQ false) (reg c 1)
                         (Cst v 1 false None) 1 false 4)) by reflexivity.
  rewrite Hop. cbn [mbind res_bind].
  unfold simp. rewrite r_simplify_S.
  cbn [simplify op_simplify].
  rewrite !simp_leaf by done. cbn [mbind res_bind].
  change (4 <? 4) with false. cbn [andb]. cbv iota.
  unfold eqn2_helpers.
  erewrite eqn2_threshold_small;
    [| exact Ht | apply complexity_reg | apply complexity_cst
     | reflexivity | reflexivity].
  generalize (engine_at cfg (S fuel)). intros E'.
  destruct Hv as [-> | ->]; simpl; unfold eqn2_same; simpl;
    by rewrite bool_decide_false.
Qed.
End Conditionals.

(** X24. tst.simplify on a conditional whose branches are leaves.
    Without [widening]: a one-bit constant condition selects the branch
    (1 the first, 0 the second); a constant condition of another size
    raises ValueError, from the comparison with [bit1]; under a one-bit
    register condition, two branches that are the same register collapse
    to it and two different registers leave the conditional as it is.
    With [widening], or under an undefined condition, the result is the
    vector of the two branches simplified with default arguments, so
    that [widening] itself is not passed on. *)
Theorem tst_simplify_cases (cfg : config) (fuel : nat) (k : kargs)
        (l r : exp) (n : Z) (s : bool) :
  threshold_allows cfg 2 -> is_leaf l = true -> is_leaf r = true ->
  let go t := py_simplify cfg (S (S (S fuel))) k (Tst t l r n s) in
  (widening k = false ->
   (forall st, go (Cst 1 1 st None) = Ok l /\ go (Cst 0 1 st None) = Ok r)
   /\ (forall v m st, 1 < m -> go (Cst v m st None) = Raise ValueError)
   /\ (forall c x y w,
         l = reg x w -> r = reg y w -> c <> fmt_hex 0 -> c <> fmt_hex 1 ->
         go (reg c 1)
         = Ok (if decide (x = y) then reg x w
               else Tst (reg c 1) l r n s)))
  /\ (forall t, is_leaf t = true ->
                widening k = true \/ _is_def t = false ->
                go t = (v ← vec_new [l; r];
                        py_simplify cfg (S (S fuel)) no_kargs v)).
Proof.
  intros Ht Ll Lr go. subst go. cbv beta.
  assert (Hgo : forall t, is_leaf t = true ->
            py_simplify cfg (S (S (S fuel))) k (Tst t l r n s)
            = if widening k || negb (_is_def t) then
                v ← vec_new [l; r];
                simp (engine_at cfg (S (S fuel))) no_kargs v
              else
                b1 ← py_eq cfg (engine_at cfg (S (S fuel))) t bit1;
                if b1 : bool then Ok l
                else
                  b0 ← py_eq cfg (engine_at cfg (S (S fuel))) t bit0;
                  if b0 : bool then Ok r
                  else
                    same ← py_eq cfg (engine_at cfg (S (S fuel))) l r;
                    if same : bool then Ok l else Ok (Tst t l r n s)).
  { intros t Lt. unfold py_simplify. unfold simp at 1.
    rewrite r_simplify_S. cbn [simplify tst_simplify].
    rewrite (simp_leaf cfg (S fuel) k t) by done. cbn [mbind res_bind].
    destruct (widening k || negb (_is_def t)).
    - by destruct (vec_new [l; r]) as [v | | |];
        cbn [mbind res_bind]; [destruct (simp _ _ v) |..].
    - rewrite (simp_leaf cfg (S fuel) k l) by done. cbn [mbind res_bind].
      destruct (py_eq _ _ t bit1) as [[|] | | |]; cbn [mbind res_bind];
        try reflexivity.
      rewrite (simp_leaf cfg (S fuel) k r) by done. cbn [mbind res_bind].
      destruct (py_eq _ _ t bit0) as [[|] | | |]; cbn [mbind res_bind];
        try reflexivity.
      by destruct (py_eq _ _ l r) as [[|] | | |]. }
  split.
  - intros Hw. split_and!.
    + intros st. rewrite !Hgo by done. rewrite Hw. cbn [orb negb].
      change (_is_def (Cst 1 1 st None)) with true.
      change (_is_def (Cst 0 1 st None)) with true. cbv iota.
      unfold py_eq, bit1, bit0.
      rewrite !cst_dunder_compute by done. split; reflexivity.
    + intros v m st Hm. rewrite Hgo by done. rewrite Hw. cbn [orb negb].
      change (_is_def (Cst v m st None)) with true. cbv iota.
      unfold py_eq, py_dunder, py_dunder2, cst_dunder, bit1.
      cbn [dunder_checks_sizes]. unfold checkarg_sizes. cbn [size].
      destruct (Z.eqb_spec m 1); [lia |].
      by destruct (Z.ltb_spec 0 m); [| lia].
    + intros c x y w -> -> Hc0 Hc1. rewrite Hgo by done. rewrite Hw.
      change (_is_def (reg c 1)) with true. cbn [orb negb]. cbv iota.
      unfold bit1, bit0.
      rewrite !py_eq_reg_bit by (done || auto).
      cbn [mbind res_bind]. rewrite py_eq_reg by done.
      cbn [mbind res_bind].
      destruct (decide (x = y)) as [-> | Hxy].
      * by rewrite bool_decide_true.
      * by rewrite bool_decide_false.
  - intros t Lt Hcase. rewrite Hgo by done.
    assert (Hc : widening k || negb (_is_def t) = true).
    { destruct Hcase as [-> | ->]; [done | apply orb_true_r]. }
    by rewrite Hc.
Qed.

Lemma tst_simplify_cases_witness :
  (threshold_allows (ascii_config 0) 2
   /\ is_leaf (reg "a" 8) = true /\ is_leaf (reg "b" 8) = true
   /\ widening no_kargs = false)
  /\ py_simplify (ascii_config 0) 3 no_kargs
                 (Tst (Cst 1 1 false None) (reg "a" 8) (reg "b" 8) 8 false)
     = Ok (reg "a" 8)
  /\ py_simplify (ascii_config 0) 3 no_kargs
                 (Tst (Cst 1 8 false None) (reg "a" 8) (reg "b" 8) 8 false)
     = Raise ValueError.
Proof.
  destruct (tst_simplify_cases (ascii_config 0) 0 no_kargs (reg "a" 8)
              (reg "b" 8) 8 false threshold_off eq_refl eq_refl)
    as [H _].
  destruct (H eq_refl) as (Ha & Hb & _).
  split; [split_and!; (exact threshold_off || reflexivity) |].
  split; [exact (proj1 (Ha false)) | exact (Hb 1 8 false ltac:(lia))].
Defined.
